(** * Electrochemistry plotting scripts: a shallow embedding

    The four scripts [plot_eis.py], [plot_ca.py], [plot_ca_j.py] and
    [plot_lsv.py] are batch jobs: list a directory, classify the file names,
    read tables, transform a column or two, draw and save.  The embedding
    keeps that shape.

    - A Python [str] is a [text]: the list of its characters.  Characters
      are Rocq's 8-bit [ascii], read as the code points U+0000..U+00FF; the
      classes [\d], [\s] and [.] and [str.strip] are the ones Python uses on
      that range.  A label with other characters (the ohm sign of a column)
      stands as its bytes; such labels are only compared.
    - A regular expression is a value of [re]; [run] lists the ways it can
      match in the order in which Python's backtracking matcher tries them,
      so that [re.match] is the head of that list.
    - Paths are POSIX paths.
    - A data frame is an association list of named columns.  A column has
      the dtype pandas gives it: int64 (integers, an operation on them taken
      modulo 2^64), float64 (the binary64 numbers of [SpecFloat], NaN and
      the infinities included, each operation rounded to nearest even) or
      object (text).
    - What a script does to the outside world is a list of [event]s and an
      outcome (it returned, or an exception escaped); what the outside world
      answers is a [World].

    The file has three parts: the scripts (modules [Text] to [Eis]), the
    properties in the words of the specification (modules [ReSpec] to
    [LsvSpec]), and the proofs. *)

From Stdlib Require Import List Ascii String Bool Arith Lia.
From Stdlib Require Import ZArith QArith.
From Stdlib Require Import Floats.SpecFloat.
From Stdlib Require Import Sorting.Permutation Sorting.Sorted.
Import ListNotations.

Set Implicit Arguments.
Close Scope Q_scope.
Local Open Scope nat_scope.
Local Open Scope list_scope.

(** ** Text *)

Module Text.

Definition text := list ascii.

(** A literal of the source, as a [text]. *)
Definition txt (s : string) : text := list_ascii_of_string s.

Definition code (a : ascii) : nat := nat_of_ascii a.

(** [\d] on U+0000..U+00FF: the ten decimal digits. *)
Definition is_digit (a : ascii) : bool :=
  (48 <=? code a) && (code a <=? 57).

(** [\s] of a [str] pattern and [str.isspace] on U+0000..U+00FF:
    TAB..CR, FS..US, SPACE, NEL and NBSP. *)
Definition is_space (a : ascii) : bool :=
  ((9 <=? code a) && (code a <=? 13))
  || ((28 <=? code a) && (code a <=? 32))
  || (code a =? 133) || (code a =? 160).

(** [.] without the DOTALL flag: everything but the line feed. *)
Definition is_dot (a : ascii) : bool := negb (code a =? 10).

Definition text_eqb (s t : text) : bool :=
  if list_eq_dec ascii_dec s t then true else false.

(** [s.startswith(p)], returning what follows [p]. *)
Fixpoint strip_prefix (p s : text) : option text :=
  match p, s with
  | [], _ => Some s
  | a :: p', b :: s' => if Ascii.eqb a b then strip_prefix p' s' else None
  | _ :: _, [] => None
  end.

Definition startswith (s p : text) : bool :=
  match strip_prefix p s with Some _ => true | None => false end.

(** [p in s] for strings. *)
Fixpoint contains (p s : text) : bool :=
  startswith s p ||
  match s with
  | [] => false
  | _ :: s' => contains p s'
  end.

(** [s.endswith(p)]. *)
Definition endswith (s p : text) : bool := startswith (rev s) (rev p).

Fixpoint lstrip (s : text) : text :=
  match s with
  | a :: s' => if is_space a then lstrip s' else s
  | [] => []
  end.

(** [s.strip()]. *)
Definition strip (s : text) : text := rev (lstrip (rev (lstrip s))).

(** [s.split(sep)] for a one-character separator. *)
Fixpoint split (sep : ascii) (s : text) : list text :=
  match s with
  | [] => [[]]
  | a :: s' =>
      if Ascii.eqb a sep then [] :: split sep s'
      else match split sep s' with
           | w :: ws => (a :: w) :: ws
           | [] => [[a]]
           end
  end.

(** Code point order on strings, the order of [sorted] and [<]. *)
Fixpoint text_leb (s t : text) : bool :=
  match s, t with
  | [], _ => true
  | _ :: _, [] => false
  | a :: s', b :: t' =>
      if code a <? code b then true
      else if code b <? code a then false
      else text_leb s' t'
  end.

End Text.
Import Text.

(** ** [os.path] *)

Module OsPath.

Definition sep : ascii := "/"%char.

(** [posixpath.basename]: what follows the last slash. *)
Fixpoint basename (p : text) : text :=
  match p with
  | [] => []
  | a :: p' =>
      if contains [sep] p then basename p' else p
  end.

(** [posixpath.join(a, b)]. *)
Definition join (a b : text) : text :=
  if startswith b [sep] then b
  else if match a with [] => true | _ => endswith a [sep] end then a ++ b
  else a ++ sep :: b.

End OsPath.

(** ** Regular expressions with Python's backtracking order *)

Module Re.

Inductive cls := Digit | Space | Dot.

Definition in_cls (c : cls) (a : ascii) : bool :=
  match c with
  | Digit => is_digit a
  | Space => is_space a
  | Dot => is_dot a
  end.

Inductive re :=
| Lit (l : text)             (* literal characters *)
| Cls (c : cls)              (* \d  \s  . *)
| Seq (r1 r2 : re)           (* r1 r2 *)
| Alt (r1 r2 : re)           (* r1 | r2 *)
| Group (n : nat) (r : re)   (* ( r ), the n-th capturing group *)
| Opt (r : re)               (* (?: r )? *)
| Plus (c : cls)             (* c+ *)
| PlusLazy (c : cls)         (* c+? *)
| Star (c : cls).            (* c* *)

(** Captured groups; a group that took no part has no entry. *)
Definition caps := list (nat * text).

Fixpoint group (g : caps) (n : nat) : option text :=
  match g with
  | [] => None
  | (m, t) :: g' => if m =? n then Some t else group g' n
  end.

(** The part of [s] read when [rest] is what remains. *)
Definition consumed (s rest : text) : text :=
  firstn (List.length s - List.length rest) s.

(** [c*], greedy: what remains, the longest match first. *)
Fixpoint star_greedy (c : cls) (s : text) : list text :=
  match s with
  | a :: s' => if in_cls c a then star_greedy c s' ++ [s] else [s]
  | [] => [[]]
  end.

Definition plus_greedy (c : cls) (s : text) : list text :=
  match s with
  | a :: s' => if in_cls c a then star_greedy c s' else []
  | [] => []
  end.

(** [c*?], lazy: what remains, the shortest match first. *)
Fixpoint star_lazy (c : cls) (s : text) : list text :=
  s :: match s with
       | a :: s' => if in_cls c a then star_lazy c s' else []
       | [] => []
       end.

Definition plus_lazy (c : cls) (s : text) : list text :=
  match s with
  | a :: s' => if in_cls c a then star_lazy c s' else []
  | [] => []
  end.

(** All the ways [r] matches at the start of [s], as (what remains, groups),
    in the order the backtracking matcher explores them. *)
Fixpoint run (r : re) (s : text) (g : caps) : list (text * caps) :=
  match r with
  | Lit l =>
      match strip_prefix l s with
      | Some s' => [(s', g)]
      | None => []
      end
  | Cls c =>
      match s with
      | a :: s' => if in_cls c a then [(s', g)] else []
      | [] => []
      end
  | Seq r1 r2 => flat_map (fun p => run r2 (fst p) (snd p)) (run r1 s g)
  | Alt r1 r2 => run r1 s g ++ run r2 s g
  | Group n r1 =>
      map (fun p => (fst p, (n, consumed s (fst p)) :: snd p)) (run r1 s g)
  | Opt r1 => run r1 s g ++ [(s, g)]
  | Plus c => map (fun s' => (s', g)) (plus_greedy c s)
  | PlusLazy c => map (fun s' => (s', g)) (plus_lazy c s)
  | Star c => map (fun s' => (s', g)) (star_greedy c s)
  end.

(** [re.match]: the first way to match at the start of the string. *)
Definition re_match (r : re) (s : text) : option caps :=
  match run r s [] with
  | (_, g) :: _ => Some g
  | [] => None
  end.

(** [re.search]: the first position at which the pattern matches. *)
Fixpoint re_search (r : re) (s : text) : option caps :=
  match re_match r s with
  | Some g => Some g
  | None =>
      match s with
      | [] => None
      | _ :: s' => re_search r s'
      end
  end.

(** [m.group(n)] for a group the pattern cannot match without. *)
Definition part (g : caps) (n : nat) : text :=
  match group g n with Some t => t | None => [] end.

(** Concatenation of a pattern written piece by piece. *)
Fixpoint seq (rs : list re) : re :=
  match rs with
  | [] => Lit []
  | [r] => r
  | r :: rs' => Seq r (seq rs')
  end.

End Re.
Import Re.

(** ** Exceptions, results and the trace of a script *)

Module Runtime.

Inductive exn :=
| FileNotFoundError
| OSError            (* any other failure of the file system *)
| IndexError
| KeyError (key : text)
| TypeError
| ValueError
| OtherError (n : nat).  (* anything else a library call raises *)

Inductive result (A : Type) :=
| Ok (a : A)
| Raise (e : exn).
Arguments Ok {A} a.
Arguments Raise {A} e.

(** Sequencing: the first exception stops the computation. *)
Definition and_then {A B} (r : result A) (k : A -> result B) : result B :=
  match r with
  | Ok a => k a
  | Raise e => Raise e
  end.

Module ResultNotations.
Notation "x <-- r ;; k" := (and_then r (fun x => k))
  (at level 61, r at next level, right associativity).
End ResultNotations.

End Runtime.
Import Runtime.
Import Runtime.ResultNotations.

(** ** Machine numbers *)

Module Num64.

(** float64: IEEE 754 binary64, as [SpecFloat] specifies it. *)
Definition prec : Z := 53.
Definition emax : Z := 1024.

Definition float : Type := spec_float.

(** The float64 nearest to an integer (ties to even): the conversion of an
    int64 value, and the value of an integer literal. *)
Definition of_int (z : Z) : float := binary_normalize prec emax z 0 false.

Definition fsub : float -> float -> float := SFsub prec emax.
Definition fmul : float -> float -> float := SFmul prec emax.
Definition fdiv : float -> float -> float := SFdiv prec emax.

(** int64: what is left of a result in two's complement, without any
    error. *)
Definition wrap (z : Z) : Z := ((z + 2 ^ 63) mod 2 ^ 64 - 2 ^ 63)%Z.

End Num64.
Import Num64.

(** ** pandas: frames and columns *)

Module Pandas.

(** A column read from a file has dtype int64 (every value an integer in
    the range of int64), float64 (a missing value is NaN) or object
    (text). *)
Inductive column :=
| IntCol (v : list Z)
| FloatCol (v : list float)
| ObjCol (v : list text).

Inductive scalar :=
| Int (z : Z)
| Float (x : float)
| Str (t : text).

(** Columns by label, in file order; labels are unique after [read_csv]. *)
Definition frame := list (text * column).

(** [name in df.columns] *)
Definition has_column (df : frame) (name : text) : bool :=
  existsb (fun c => text_eqb (fst c) name) df.

(** [df[name]] *)
Fixpoint getitem (df : frame) (name : text) : result column :=
  match df with
  | [] => Raise (KeyError name)
  | (n, c) :: df' => if text_eqb n name then Ok c else getitem df' name
  end.

(** [df[name] = c]: replaces the column, or appends a new one. *)
Fixpoint setitem (df : frame) (name : text) (c : column) : frame :=
  match df with
  | [] => [(name, c)]
  | (n, c') :: df' =>
      if text_eqb n name then (n, c) :: df'
      else (n, c') :: setitem df' name c
  end.

(** [series.iloc[0]] *)
Definition iloc0 (c : column) : result scalar :=
  match c with
  | IntCol (z :: _) => Ok (Int z)
  | FloatCol (x :: _) => Ok (Float x)
  | ObjCol (t :: _) => Ok (Str t)
  | IntCol [] | FloatCol [] | ObjCol [] => Raise IndexError
  end.

(** [series - x]: int64 minus int64 is taken modulo 2^64, anything with a
    float64 is a rounded float64 difference; text does not subtract. *)
Definition sub (c : column) (x : scalar) : result column :=
  match c, x with
  | IntCol v, Int q => Ok (IntCol (map (fun t => wrap (t - q)) v))
  | IntCol v, Float q => Ok (FloatCol (map (fun t => fsub (of_int t) q) v))
  | FloatCol v, Int q => Ok (FloatCol (map (fun t => fsub t (of_int q)) v))
  | FloatCol v, Float q => Ok (FloatCol (map (fun t => fsub t q) v))
  | ObjCol [], _ => Ok (ObjCol [])
  | _, _ => Raise TypeError
  end.

(** [series / d] for an integer literal [d]: true division, in float64;
    an int64 value is converted first. *)
Definition div (c : column) (d : Z) : result column :=
  match c with
  | IntCol v => Ok (FloatCol (map (fun t => fdiv (of_int t) (of_int d)) v))
  | FloatCol v => Ok (FloatCol (map (fun t => fdiv t (of_int d)) v))
  | ObjCol [] => Ok (ObjCol [])
  | ObjCol (_ :: _) => Raise TypeError
  end.

(** [(series * k) / d] for an integer literal [k] and a float [d]: the
    product of an int64 column is an int64 (modulo 2^64), the one of a
    float64 column a rounded float64; the quotient is a float64.  On text
    the product repeats each string and the quotient raises. *)
Definition mul_div (c : column) (k : Z) (d : float) : result column :=
  match c with
  | IntCol v =>
      Ok (FloatCol (map (fun t => fdiv (of_int (wrap (t * k))) d) v))
  | FloatCol v =>
      Ok (FloatCol (map (fun t => fdiv (fmul t (of_int k)) d) v))
  | ObjCol [] => Ok (ObjCol [])
  | ObjCol (_ :: _) => Raise TypeError
  end.

(** [df.loc[:, ~df.columns.str.endswith(suffix)]] *)
Definition drop_suffixed (df : frame) (suffix : text) : frame :=
  filter (fun c => negb (endswith (fst c) suffix)) df.

End Pandas.
Import Pandas.

(** ** The outside world and what a script does to it *)

Module Io.

(** The lines a script prints, by kind (the text of a line is not
    modelled). *)
Inductive message :=
| DirNotFound (dir : text)
| Skipping (filename : text)
| MissingColumns (filename : text)
| ProcessingError (filename : text) (e : exn)
| ReferenceError (path : text) (e : exn)
| LoadError (files : list text) (e : exn)
| Saved (out : text)
| SaveError (e : exn)
| Done.

Record style := {
  color : option text;
  marker : option text;
  linestyle : option text
}.

Inductive event :=
| Printed (m : message)
| ReadCsv (path sep : text)                 (* pd.read_csv(path, sep=sep) *)
| Subplots (fig nrows ncols : nat)          (* plt.subplots(nrows, ncols) *)
| Plot (fig ax : nat) (x y : column) (label : text) (st : style)
| AxCall (fig ax : nat) (method arg : text) (* ax.set_title(arg) and the like *)
| FigCall (fig : nat) (method arg : text)   (* fig.suptitle(arg) and the like *)
| SaveFig (fig : nat) (out : text).         (* fig.savefig(out) is called *)

(** What the file system and the libraries answer.  Reading a table or
    writing an image may raise; a drawing call ([ax.plot], [ax.legend], ...)
    is taken not to. *)
Record World := {
  listdir : text -> result (list text);          (* os.listdir *)
  path_exists : text -> bool;                    (* os.path.exists *)
  glob : text -> list text;                      (* glob.glob *)
  read_csv : text -> text -> result frame;       (* pd.read_csv(path, sep) *)
  merge : frame -> frame -> result frame;
    (* pd.merge(l, r, on="Frequency (Hz)", how="outer", suffixes=('', '_y')) *)
  savefig : text -> result unit;                 (* writing the image *)
  zero_rows_rejected : bool
    (* whether plt.subplots(0, 1) raises, as current matplotlib does *)
}.

(** A computation: the events so far, and a value or the exception that
    stopped it. *)
Definition io (A : Type) : Type := list event * result A.

Definition ret {A} (a : A) : io A := ([], Ok a).

Definition raise {A} (e : exn) : io A := ([], Raise e).

Definition emit (e : event) : io unit := ([e], Ok tt).

Definition lift {A} (r : result A) : io A := ([], r).

Definition bind {A B} (m : io A) (k : A -> io B) : io B :=
  match m with
  | (t, Ok a) => let (t', r) := k a in (t ++ t', r)
  | (t, Raise e) => (t, Raise e)
  end.

(** [try: m  except Exception as e: h e] *)
Definition try_except {A} (m : io A) (h : exn -> io A) : io A :=
  match m with
  | (t, Ok a) => (t, Ok a)
  | (t, Raise e) => let (t', r) := h e in (t ++ t', r)
  end.

Definition trace {A} (m : io A) : list event := fst m.
Definition outcome {A} (m : io A) : result A := snd m.

Module Notations.
Notation "x <- m ;; k" := (bind m (fun x => k))
  (at level 61, m at next level, right associativity).
Notation "m ;;; k" := (bind m (fun _ => k))
  (at level 61, right associativity).
End Notations.
Import Notations.

(** [for x in xs: body x] *)
Fixpoint for_each {A} (xs : list A) (body : A -> io unit) : io unit :=
  match xs with
  | [] => ret tt
  | x :: xs' => body x ;;; for_each xs' body
  end.

(** [pd.read_csv(path, sep=sep)] *)
Definition pd_read_csv (w : World) (path sep : text) : io frame :=
  emit (ReadCsv path sep) ;;; lift (read_csv w path sep).

(** The tab character. *)
Definition tab : text := [ascii_of_nat 9].

(** [sorted(names)]: insertion into code point order. *)
Fixpoint insert (x : text) (l : list text) : list text :=
  match l with
  | [] => [x]
  | y :: l' => if text_leb x y then x :: l else y :: insert x l'
  end.

Fixpoint sorted (l : list text) : list text :=
  match l with
  | [] => []
  | x :: l' => insert x (sorted l')
  end.

(** [xs[i % len(xs)]] for a non-empty list of styles. *)
Definition cycle (xs : list text) (i : nat) : option text :=
  nth_error xs (i mod List.length xs).

(** What [plt.subplots(n, 1)] returns: one Axes for one row, an array of
    Axes otherwise. *)
Inductive axes :=
| OneAxes
| AxesArray (n : nat).

Definition subplots (w : World) (fig nrows : nat) : io axes :=
  emit (Subplots fig nrows 1) ;;;
  match nrows with
  | 0 => if zero_rows_rejected w then raise ValueError else ret (AxesArray 0)
  | 1 => ret OneAxes
  | _ => ret (AxesArray nrows)
  end.

(** [axes[i]] *)
Definition subscript (a : axes) (i : nat) : io nat :=
  match a with
  | OneAxes => raise TypeError
  | AxesArray n => if i <? n then ret i else raise IndexError
  end.

(** [axes[-1]] *)
Definition subscript_last (a : axes) : io nat :=
  match a with
  | OneAxes => raise TypeError
  | AxesArray 0 => raise IndexError
  | AxesArray (S n) => ret n
  end.

End Io.
Import Io.
Import Io.Notations.

(** ** plot_ca.py *)

Module Ca.

Definition markers : list text :=
  map txt ["o"; "s"; "^"; "D"; "v"; "p"; "*"; "<"; ">"; "X"]%string.

Definition linestyles : list text := map txt ["-"; "--"; "-."; ":"]%string.

(** [pH(\d+)] *)
Definition ph_pattern : re := Seq (Lit (txt "pH")) (Group 1 (Plus Digit)).

(** [pH\d+_(G)\.txt] with [G] the greedy [.*]. *)
Definition label_pattern : re :=
  seq [Lit (txt "pH"); Plus Digit; Lit (txt "_"); Group 1 (Star Dot);
       Lit (txt ".txt")].

Definition time_col_s : text := txt "Time (s)".
Definition charge_col : text := txt "WE(1).Charge (C)".
Definition time_col_min : text := txt "Time (min)".

(** Lines 46-56: the label of a file, [None] for an unrecognised one. *)
Definition plot_label (filename : text) : option text :=
  if contains (txt "pH") filename then
    match re_search ph_pattern filename,
          re_search label_pattern filename with
    | Some match_ph, Some match_label =>
        let ph := part match_ph 1 in
        let base_label := strip (part match_label 1) in
        Some (base_label ++ txt " (pH " ++ ph ++ txt ")")
    | _, _ => None
    end
  else if contains (txt "Cu") filename then Some (txt "Cu")
  else None.

(** Lines 69-75: the two series handed to [ax.plot], [None] when a
    required column is missing. *)
Definition curve (data : frame) : result (option (column * column)) :=
  if has_column data time_col_s && has_column data charge_col then
    t <-- getitem data time_col_s ;;
    initial_time <-- iloc0 t ;;
    shifted <-- sub t initial_time ;;
    let data1 := setitem data time_col_s shifted in
    t1 <-- getitem data1 time_col_s ;;
    minutes <-- div t1 60%Z ;;
    let data2 := setitem data1 time_col_min minutes in
    x <-- getitem data2 time_col_min ;;
    y <-- getitem data2 charge_col ;;
    Ok (Some (x, y))
  else Ok None.

(** Lines 46-90: the body of the loop for one file; it returns the next
    [plot_index]. *)
Definition step (w : World) (directory_path filename : text)
    (plot_index : nat) : io nat :=
  match plot_label filename with
  | None =>
      emit (Printed (Skipping filename)) ;;;
      ret plot_index
  | Some label =>
      let file_path := OsPath.join directory_path filename in
      try_except
        (data <- pd_read_csv w file_path tab ;;
         c <- lift (curve data) ;;
         match c with
         | Some (x, y) =>
             emit (Plot 0 0 x y label
                     {| color := None;
                        marker := cycle markers plot_index;
                        linestyle := cycle linestyles plot_index |}) ;;;
             ret (S plot_index)
         | None =>
             emit (Printed (MissingColumns filename)) ;;;
             ret plot_index
         end)
        (fun e =>
           emit (Printed (ProcessingError filename e)) ;;;
           ret plot_index)
  end.

(** Line 45: [for filename in all_files], threading [plot_index]. *)
Fixpoint loop (w : World) (directory_path : text) (files : list text)
    (plot_index : nat) : io nat :=
  match files with
  | [] => ret plot_index
  | filename :: rest =>
      next <- step w directory_path filename plot_index ;;
      loop w directory_path rest next
  end.

(** Lines 92-97. *)
Definition configure : io unit :=
  emit (AxCall 0 0 (txt "set_title")
          (txt "Combined Chronoamperometry Analysis (Time Normalised)")) ;;;
  emit (AxCall 0 0 (txt "set_xlabel") (txt "Time (min)")) ;;;
  emit (AxCall 0 0 (txt "set_ylabel") (txt "Charge ($C$)")) ;;;
  emit (AxCall 0 0 (txt "legend") (txt "System")) ;;;
  emit (AxCall 0 0 (txt "grid") (txt "--")).

(** Lines 99-104, shared with plot_ca_j.py lines 107-111. *)
Definition save (w : World) (output_filename : text) : io unit :=
  try_except
    (emit (SaveFig 0 output_filename) ;;;
     lift (savefig w output_filename) ;;;
     emit (Printed (Saved output_filename)))
    (fun e => emit (Printed (SaveError e))).

Definition is_txt (f : text) : bool := endswith f (txt ".txt").

Definition generate_styled_plot (w : World)
    (directory_path output_filename : text) : io unit :=
  emit (Subplots 0 1 1) ;;;
  match listdir w directory_path with
  | Raise FileNotFoundError => emit (Printed (DirNotFound directory_path))
  | Raise e => raise e
  | Ok names =>
      let all_files := sorted (filter is_txt names) in
      loop w directory_path all_files 0 ;;;
      configure ;;;
      save w output_filename
  end.

End Ca.

(** ** plot_ca_j.py *)

Module CaJ.

(** [ELECTRODE_AREA_CM2 = 1.0] *)
Definition ELECTRODE_AREA_CM2 : float := of_int 1.

Definition markers : list text := map txt ["o"; "s"; "^"; "D"; "v"]%string.

Definition linestyles : list text := map txt ["-"; "--"; "-."; ":"]%string.

Definition time_col_s : text := txt "Time (s)".
Definition current_col : text := txt "WE(1).Current (A)".

(** A [defaultdict(list)] keyed by text, in insertion order. *)
Definition groups := list (text * list text).

Fixpoint append_to (g : groups) (key value : text) : groups :=
  match g with
  | [] => [(key, [value])]
  | (k, vs) :: g' =>
      if text_eqb k key then (k, vs ++ [value]) :: g'
      else (k, vs) :: append_to g' key value
  end.

Fixpoint lookup (g : groups) (key : text) : list text :=
  match g with
  | [] => []
  | (k, vs) :: g' => if text_eqb k key then vs else lookup g' key
  end.

(** Lines 39-46: the pH groups and the copper reference. *)
Fixpoint classify (directory_path : text) (files : list text)
    (grouped_files : groups) (cu_ref_path : option text)
    : groups * option text :=
  match files with
  | [] => (grouped_files, cu_ref_path)
  | filename :: rest =>
      if contains (txt "Cu") filename then
        classify directory_path rest grouped_files
          (Some (OsPath.join directory_path filename))
      else if contains (txt "pH") filename then
        match re_search Ca.ph_pattern filename with
        | Some match_ph =>
            let ph_key := txt "pH " ++ part match_ph 1 in
            classify directory_path rest
              (append_to grouped_files ph_key
                 (OsPath.join directory_path filename))
              cu_ref_path
        | None => classify directory_path rest grouped_files cu_ref_path
        end
      else classify directory_path rest grouped_files cu_ref_path
  end.

(** Lines 65-67 and 81-84: time in minutes from the first sample, and
    current density; [None] when a required column is missing. *)
Definition curve (data : frame) : result (option (column * column)) :=
  if has_column data time_col_s && has_column data current_col then
    t <-- getitem data time_col_s ;;
    t0 <-- iloc0 t ;;
    shifted <-- sub t t0 ;;
    minutes <-- div shifted 60%Z ;;
    let data1 := setitem data (txt "Time (min)") minutes in
    i <-- getitem data1 current_col ;;
    j <-- mul_div i 1000%Z ELECTRODE_AREA_CM2 ;;
    let data2 := setitem data1 (txt "j (mA/cm2)") j in
    x <-- getitem data2 (txt "Time (min)") ;;
    y <-- getitem data2 (txt "j (mA/cm2)") ;;
    Ok (Some (x, y))
  else Ok None.

(** Lines 62-71: the reference curve of one panel. *)
Definition plot_reference (w : World) (ax : nat)
    (cu_ref_path : option text) : io unit :=
  match cu_ref_path with
  | None => ret tt
  | Some path =>
      try_except
        (data_ref <- pd_read_csv w path tab ;;
         c <- lift (curve data_ref) ;;
         match c with
         | Some (x, y) =>
             emit (Plot 0 ax x y (txt "Cu Reference")
                     {| color := Some (txt "grey"); marker := None;
                        linestyle := Some (txt "--") |})
         | None => ret tt
         end)
        (fun e => emit (Printed (ReferenceError path e)))
  end.

(** Lines 75-95: one system of a pH group; it returns the next
    [plot_index]. *)
Definition plot_system (w : World) (ax : nat) (file_path : text)
    (plot_index : nat) : io nat :=
  let filename := OsPath.basename file_path in
  let plot_label :=
    match re_search Ca.label_pattern filename with
    | Some match_label => strip (part match_label 1)
    | None => filename
    end in
  try_except
    (data <- pd_read_csv w file_path tab ;;
     c <- lift (curve data) ;;
     match c with
     | Some (x, y) =>
         emit (Plot 0 ax x y plot_label
                 {| color := None;
                    marker := cycle markers plot_index;
                    linestyle := cycle linestyles plot_index |}) ;;;
         ret (S plot_index)
     | None =>
         emit (Printed (MissingColumns filename)) ;;;
         ret plot_index
     end)
    (fun e =>
       emit (Printed (ProcessingError filename e)) ;;;
       ret plot_index).

(** Line 74: [for file_path in grouped_files[ph_key]]. *)
Fixpoint plot_systems (w : World) (ax : nat) (paths : list text)
    (plot_index : nat) : io nat :=
  match paths with
  | [] => ret plot_index
  | file_path :: rest =>
      next <- plot_system w ax file_path plot_index ;;
      plot_systems w ax rest next
  end.

(** Lines 57-101: one panel per pH key. *)
Fixpoint panels (w : World) (a : axes) (grouped_files : groups)
    (cu_ref_path : option text) (i : nat) (ph_keys : list text) : io unit :=
  match ph_keys with
  | [] => ret tt
  | ph_key :: rest =>
      ax <- subscript a i ;;
      plot_reference w ax cu_ref_path ;;;
      plot_systems w ax (lookup grouped_files ph_key) 0 ;;;
      emit (AxCall 0 ax (txt "set_title") (txt "Analysis for " ++ ph_key)) ;;;
      emit (AxCall 0 ax (txt "set_ylabel") (txt "j / mA$\cdot$cm$^{-2}$")) ;;;
      emit (AxCall 0 ax (txt "legend") (txt "System")) ;;;
      emit (AxCall 0 ax (txt "grid") (txt "--")) ;;;
      panels w a grouped_files cu_ref_path (S i) rest
  end.

Definition generate_ca_subplots (w : World)
    (directory_path output_filename : text) : io unit :=
  match listdir w directory_path with
  | Raise FileNotFoundError => emit (Printed (DirNotFound directory_path))
  | Raise e => raise e
  | Ok names =>
      let all_files := sorted (filter Ca.is_txt names) in
      let (grouped_files, cu_ref_path) :=
        classify directory_path all_files [] None in
      let ph_keys := sorted (map fst grouped_files) in
      a <- subplots w 0 (List.length ph_keys) ;;
      emit (FigCall 0 (txt "suptitle")
              (txt "Chronoamperometry Analysis: Current Density vs. Time")) ;;;
      panels w a grouped_files cu_ref_path 0 ph_keys ;;;
      last <- subscript_last a ;;
      emit (AxCall 0 last (txt "set_xlabel") (txt "Time (min)")) ;;;
      emit (FigCall 0 (txt "tight_layout") []) ;;;
      Ca.save w output_filename
  end.

End CaJ.

(** ** plot_lsv.py *)

Module Lsv.

(** [ELECTRODE_AREA_CM2 = 1.0] *)
Definition ELECTRODE_AREA_CM2 : float := of_int 1.

Definition data_directory : text := txt "LSV/".

Definition chemicals : list text :=
  map txt ["K2ReCl6"; "KReO4"; "NH4ReO4"]%string.

Definition current_col : text := txt "WE(1).Current (A)".
Definition potential_col : text := txt "Potential applied (V)".

Definition default_style : style :=
  {| color := Some (txt "black"); marker := Some (txt "x");
     linestyle := Some (txt "-.") |}.

(** [style_map.get(ph_value, default_style)] *)
Definition style_for (ph_value : text) : style :=
  if text_eqb ph_value (txt "pH 1") then
    {| color := Some (txt "red"); marker := Some (txt "o");
       linestyle := Some (txt "-") |}
  else if text_eqb ph_value (txt "pH 4") then
    {| color := Some (txt "blue"); marker := Some (txt "s");
       linestyle := Some (txt "--") |}
  else if text_eqb ph_value (txt "pH 6") then
    {| color := Some (txt "green"); marker := Some (txt "^");
       linestyle := Some (txt ":") |}
  else default_style.

(** Lines 38-46 and 63-72: read a file and draw its current density
    against the applied potential.  Nothing here is caught. *)
Definition plot_curve (w : World) (ax : nat) (path label : text)
    (st : style) : io unit :=
  df <- pd_read_csv w path tab ;;
  i <- lift (getitem df current_col) ;;
  current_density <- lift (mul_div i 1000%Z ELECTRODE_AREA_CM2) ;;
  potential <- lift (getitem df potential_col) ;;
  emit (Plot 0 ax potential current_density label st).

(** Lines 55-58: [filename.split('_')[1]]. *)
Definition ph_value_of (filename : text) : text :=
  match split "_" filename with
  | _ :: v :: _ => v
  | _ => txt "Unknown pH"
  end.

Definition cu_ref_path : text :=
  OsPath.join data_directory (txt "LSV_Reference Cu").

(** Lines 35-78: the panel of one chemical. *)
Definition panel (w : World) (ax : nat) (chemical : text) : io unit :=
  (if path_exists w cu_ref_path then
     plot_curve w ax cu_ref_path (txt "Reference Cu")
       {| color := Some (txt "gray"); marker := None;
          linestyle := Some (txt "--") |}
   else ret tt) ;;;
  let search_pattern :=
    OsPath.join data_directory (txt "LSV_pH*_" ++ chemical ++ txt "*") in
  let file_paths := sorted (glob w search_pattern) in
  for_each file_paths (fun file_path =>
    let filename := OsPath.basename file_path in
    let ph_value := ph_value_of filename in
    plot_curve w ax file_path ph_value (style_for ph_value)) ;;;
  emit (AxCall 0 ax (txt "set_title") chemical) ;;;
  emit (AxCall 0 ax (txt "set_xlabel") (txt "E / V vs Ag/AgCl (sat KCl)")) ;;;
  emit (AxCall 0 ax (txt "grid") (txt ":")) ;;;
  emit (AxCall 0 ax (txt "legend") (txt "Sample")).

Definition output_filename : text := txt "lsv_comparison_plot.tiff".

Definition plot_lsv_data (w : World) : io unit :=
  emit (Subplots 0 1 3) ;;;
  for_each (combine [0; 1; 2] chemicals)
    (fun ac => panel w (fst ac) (snd ac)) ;;;
  emit (AxCall 0 0 (txt "set_ylabel") (txt "j / mA$\cdot$cm$^{-2}$")) ;;;
  emit (FigCall 0 (txt "tight_layout") []) ;;;
  emit (SaveFig 0 output_filename) ;;;
  lift (savefig w output_filename) ;;;
  emit (Printed (Saved output_filename)).

End Lsv.

(** ** plot_eis.py *)

Module Eis.

Record parsed := {
  id : text;
  chemical : text;
  ph : text;
  condition : text
}.

(** [OCP|CAP|FAR] *)
Definition conditions : re :=
  Alt (Lit (txt "OCP")) (Alt (Lit (txt "CAP")) (Lit (txt "FAR"))).

(** [Nyquist|Bode|Nyquist and Bode] *)
Definition plot_type : re :=
  Alt (Lit (txt "Nyquist"))
      (Alt (Lit (txt "Bode")) (Lit (txt "Nyquist and Bode"))).

(** The whole pattern:
    [(\d+)_(.+?)\s(?:(pH\s\d+)\s)?(OCP|CAP|FAR)\s\((Nyquist|Bode|Nyquist and Bode)\)] *)
Definition pattern : re :=
  seq [ Group 1 (Plus Digit);
        Lit (txt "_");
        Group 2 (PlusLazy Dot);
        Cls Space;
        Opt (Seq (Group 3 (seq [Lit (txt "pH"); Cls Space; Plus Digit]))
                 (Cls Space));
        Group 4 conditions;
        Cls Space;
        Lit (txt "(");
        Group 5 plot_type;
        Lit (txt ")") ].

(** [(OCP|CAP|FAR)] *)
Definition condition_pattern : re := Group 1 conditions.

(** A group inside an f-string: [None] prints as "None". *)
Definition fmt (o : option text) : text :=
  match o with Some t => t | None => txt "None" end.

Definition parse_filename (filepath : text) : option parsed :=
  let filename := OsPath.basename filepath in
  match re_match pattern filename with
  | Some parts =>
      Some {| id := part parts 1 ++ txt "_" ++ part parts 2 ++ txt " "
                    ++ fmt (group parts 3) ++ txt " " ++ part parts 4;
              chemical := strip (part parts 2);
              ph := match group parts 3 with
                    | Some p => p
                    | None => txt "N/A"
                    end;
              condition := part parts 4 |}
  | None =>
      let cu :=
        if contains (txt "Cu") filename then
          match re_search condition_pattern filename with
          | Some m =>
              Some {| id := txt "Cu_" ++ part m 1;
                      chemical := txt "Cu";
                      ph := txt "N/A";
                      condition := part m 1 |}
          | None => None
          end
        else None in
      match cu with
      | Some r => Some r
      | None =>
          if contains (txt "KReO4 + Na2SO4") filename then
            match re_search condition_pattern filename with
            | Some m =>
                Some {| id := txt "KReO4 + Na2SO4_" ++ part m 1;
                        chemical := txt "KReO4 + Na2SO4";
                        ph := txt "N/A";
                        condition := part m 1 |}
            | None => None
            end
          else None
      end
  end.

(** A [dict] keyed by text, in insertion order. *)
Definition adict (V : Type) : Type := list (text * V).

Fixpoint find {V} (d : adict V) (k : text) : option V :=
  match d with
  | [] => None
  | (k', v) :: d' => if text_eqb k' k then Some v else find d' k
  end.

(** [d[k] = f(d.get(k))] *)
Fixpoint update {V} (d : adict V) (k : text) (f : option V -> V) : adict V :=
  match d with
  | [] => [(k, f None)]
  | (k', v) :: d' =>
      if text_eqb k' k then (k', f (Some v)) :: d'
      else (k', v) :: update d' k f
  end.

(** What a [defaultdict] holds at a key, given the default. *)
Definition at_key {V} (default : V) (o : option V) : V :=
  match o with Some v => v | None => default end.

(** Lines 72-77: the files of each experiment id. *)
Definition experiment_files (paths : list text) : adict (list text) :=
  fold_left
    (fun acc filepath =>
       match parse_filename filepath with
       | Some parsed_info =>
           update acc (id parsed_info)
             (fun o => at_key [] o ++ [filepath])
       | None => acc
       end)
    paths [].

(** Lines 79-87: [grouped_plots[ph][condition][chemical]]. *)
Definition grouped := adict (adict (adict (list text))).

Definition group_experiments (files : adict (list text)) : grouped :=
  fold_left
    (fun (grouped_plots : grouped) entry =>
       let file_list := snd entry in
       match file_list with
       | [] => grouped_plots
       | first :: _ =>
           match parse_filename first with
           | Some parsed_info =>
               update grouped_plots (ph parsed_info) (fun by_condition =>
                 update (at_key [] by_condition) (condition parsed_info)
                   (fun by_chemical =>
                      update (at_key [] by_chemical) (chemical parsed_info)
                        (fun fl => at_key [] fl ++ file_list)))
           | None => grouped_plots
           end
       end)
    files [].

Definition group_files_by_experiment (w : World) (data_dir : text)
    : grouped :=
  group_experiments
    (experiment_files (glob w (OsPath.join data_dir (txt "*.txt")))).

Definition semicolon : text := txt ";".
Definition z_real : text := txt "Z' (Ω)".
Definition z_imag : text := txt "-Z'' (Ω)".
Definition z_abs : text := txt "Z (Ω)".
Definition phase : text := txt "-Phase (°)".
Definition frequency : text := txt "Frequency (Hz)".

(** Lines 91-118. *)
Definition load_eis_data (w : World) (file_list : list text)
    : io (option frame) :=
  try_except
    (match file_list with
     | [f] =>
         df <- pd_read_csv w f semicolon ;;
         ret (Some df)
     | [f1; f2] =>
         df1 <- pd_read_csv w f1 semicolon ;;
         df2 <- pd_read_csv w f2 semicolon ;;
         merged_df <-
           (if negb (has_column df2 z_real) then lift (merge w df1 df2)
            else lift (merge w df2 df1)) ;;
         ret (Some (drop_suffixed merged_df (txt "_y")))
     | _ => ret None
     end)
    (fun e =>
       emit (Printed (LoadError file_list e)) ;;;
       ret None).

Definition ROWS : list text := map txt ["pH 1"; "pH 4"; "pH 6"]%string.
Definition COLS : list text := map txt ["OCP"; "CAP"; "FAR"]%string.

Definition unique_chemicals : list text :=
  sorted (map txt ["K2ReCl6"; "KReO4"; "NH4ReO4"; "Cu";
                   "KReO4 + Na2SO4"]%string).

Definition markers : list text :=
  map txt ["o"; "s"; "^"; "D"; "v"; "p"; "*"; "X"]%string.

(** The position of a chemical in [unique_chemicals]. *)
Fixpoint index_of (k : text) (l : list text) (i : nat) : option nat :=
  match l with
  | [] => None
  | x :: l' => if text_eqb x k then Some i else index_of k l' (S i)
  end.

(** [STYLE_MAP.get(chemical, DEFAULT_STYLE)]; the i-th viridis colour is
    named, not computed. *)
Definition style_for (chemical : text) : style :=
  match index_of chemical unique_chemicals 0 with
  | Some i =>
      {| color := Some (txt "viridis " ++ [ascii_of_nat (48 + i)]);
         marker := cycle markers i;
         linestyle := Some (txt "None") |}
  | None =>
      {| color := Some (txt "grey"); marker := Some (txt "x");
         linestyle := None |}
  end.

(** [sorted(d.items())] for a dict: by key. *)
Fixpoint insert_item {V} (x : text * V) (l : adict V) : adict V :=
  match l with
  | [] => [x]
  | y :: l' =>
      if text_leb (fst x) (fst y) then x :: l else y :: insert_item x l'
  end.

Fixpoint sorted_items {V} (l : adict V) : adict V :=
  match l with
  | [] => []
  | x :: l' => insert_item x (sorted_items l')
  end.

(** Lines 155-162: the curves of one experiment on the three figures. *)
Definition plot_experiment (w : World) (ax : nat) (chemical : text)
    (file_list : list text) : io unit :=
  o <- load_eis_data w file_list ;;
  match o with
  | None => ret tt
  | Some df =>
      let st := style_for chemical in
      x <- lift (getitem df z_real) ;;
      y <- lift (getitem df z_imag) ;;
      emit (Plot 0 ax x y chemical st) ;;;
      f <- lift (getitem df frequency) ;;
      z <- lift (getitem df z_abs) ;;
      emit (Plot 1 ax f z chemical st) ;;;
      f' <- lift (getitem df frequency) ;;
      p <- lift (getitem df phase) ;;
      emit (Plot 2 ax f' p chemical st)
  end.

(** Lines 146-185: one cell of the three grids. *)
Definition cell (w : World) (grouped_data : grouped) (i j : nat)
    (ph_row condition_col : text) : io unit :=
  let ax := 3 * i + j in
  let title := ph_row ++ txt ", " ++ condition_col in
  emit (AxCall 0 ax (txt "set_title") title) ;;;
  emit (AxCall 1 ax (txt "set_title") title) ;;;
  emit (AxCall 2 ax (txt "set_title") title) ;;;
  let experiments_to_plot :=
    at_key [] (find (at_key [] (find grouped_data ph_row)) condition_col) in
  for_each (sorted_items experiments_to_plot)
    (fun item => plot_experiment w ax (fst item) (snd item)) ;;;
  emit (AxCall 0 ax (txt "set_xlabel") (txt "Z' / Ω")) ;;;
  emit (AxCall 0 ax (txt "set_ylabel") (txt "-Z'' / Ω")) ;;;
  emit (AxCall 0 ax (txt "grid") (txt ":")) ;;;
  emit (AxCall 0 ax (txt "legend") []) ;;;
  emit (AxCall 0 ax (txt "set_aspect") (txt "equal")) ;;;
  emit (AxCall 0 ax (txt "set_xlim") (txt "0, 200")) ;;;
  emit (AxCall 0 ax (txt "set_ylim") (txt "0, 200")) ;;;
  emit (AxCall 1 ax (txt "set_xscale") (txt "log")) ;;;
  emit (AxCall 1 ax (txt "set_ylabel") (txt "|Z| / Ω")) ;;;
  emit (AxCall 1 ax (txt "grid") (txt ":")) ;;;
  emit (AxCall 1 ax (txt "legend") []) ;;;
  emit (AxCall 2 ax (txt "set_xscale") (txt "log")) ;;;
  emit (AxCall 2 ax (txt "set_ylabel") (txt "-Phase / °")) ;;;
  emit (AxCall 2 ax (txt "grid") (txt ":")) ;;;
  emit (AxCall 2 ax (txt "legend") []).

(** [enumerate(xs)] *)
Fixpoint enumerate {A} (i : nat) (xs : list A) : list (nat * A) :=
  match xs with
  | [] => []
  | x :: xs' => (i, x) :: enumerate (S i) xs'
  end.

Definition DATA_DIR : text := txt "EIS/".

Definition save_figure (w : World) (fig : nat) (out : text) : io unit :=
  emit (SaveFig fig out) ;;; lift (savefig w out).

(** Lines 120-199. *)
Definition plot_eis_data (w : World) : io unit :=
  let grouped_data := group_files_by_experiment w DATA_DIR in
  emit (Subplots 0 3 3) ;;;
  emit (Subplots 1 3 3) ;;;
  emit (Subplots 2 3 3) ;;;
  emit (FigCall 0 (txt "suptitle") (txt "Nyquist Plots")) ;;;
  emit (FigCall 1 (txt "suptitle") (txt "Bode Plots (Magnitude)")) ;;;
  emit (FigCall 2 (txt "suptitle") (txt "Bode Plots (Phase)")) ;;;
  for_each (enumerate 0 ROWS) (fun ir =>
    for_each (enumerate 0 COLS) (fun jc =>
      cell w grouped_data (fst ir) (fst jc) (snd ir) (snd jc))) ;;;
  for_each [0; 1; 2] (fun j =>
    emit (AxCall 1 (6 + j) (txt "set_xlabel") (txt "Frequency / Hz")) ;;;
    emit (AxCall 2 (6 + j) (txt "set_xlabel") (txt "Frequency / Hz"))) ;;;
  emit (FigCall 0 (txt "tight_layout") []) ;;;
  emit (FigCall 1 (txt "tight_layout") []) ;;;
  emit (FigCall 2 (txt "tight_layout") []) ;;;
  save_figure w 0 (txt "eis_nyquist_plots.tiff") ;;;
  save_figure w 1 (txt "eis_bode1_plots.tiff") ;;;
  save_figure w 2 (txt "eis_bode2_plots.tiff") ;;;
  emit (Printed Done).

End Eis.
(** * The properties, in the words of the specification *)

(** ** What the matcher computes *)

Module ReSpec.

(** [matches r u g g']: [r] matches exactly the text [u] and turns the
    groups [g] into [g']. *)
Inductive matches : re -> text -> caps -> caps -> Prop :=
| MLit l g : matches (Lit l) l g g
| MCls c a g : in_cls c a = true -> matches (Cls c) [a] g g
| MSeq r1 r2 u1 u2 g g1 g2 :
    matches r1 u1 g g1 -> matches r2 u2 g1 g2 ->
    matches (Seq r1 r2) (u1 ++ u2) g g2
| MAltL r1 r2 u g g' : matches r1 u g g' -> matches (Alt r1 r2) u g g'
| MAltR r1 r2 u g g' : matches r2 u g g' -> matches (Alt r1 r2) u g g'
| MGroup n r u g g' :
    matches r u g g' -> matches (Group n r) u g ((n, u) :: g')
| MOptSome r u g g' : matches r u g g' -> matches (Opt r) u g g'
| MOptNone r g : matches (Opt r) [] g g
| MPlus c a u g :
    forallb (in_cls c) (a :: u) = true -> matches (Plus c) (a :: u) g g
| MPlusLazy c a u g :
    forallb (in_cls c) (a :: u) = true -> matches (PlusLazy c) (a :: u) g g
| MStar c u g : forallb (in_cls c) u = true -> matches (Star c) u g g.

End ReSpec.

(** ** The file-name forms of plot_eis.py, written out *)

Module EisSpec.

Definition cond_tokens : list text := [txt "OCP"; txt "CAP"; txt "FAR"].

Definition plot_types : list text :=
  [txt "Nyquist"; txt "Bode"; txt "Nyquist and Bode"].

(** What the pattern asks for after the chemical name: white space, the
    optional field [pH <digits>] and white space, the condition, white space
    and the plot type in parentheses; anything may follow.  [tail_form tl ph
    cond] gives the pH field ([None] when absent) and the condition. *)
Inductive tail_form (tl : text) : option text -> text -> Prop :=
| tail_with_ph w1 w2 w3 w4 ds cond type rest :
    is_space w1 = true -> is_space w2 = true ->
    is_space w3 = true -> is_space w4 = true ->
    ds <> [] -> forallb is_digit ds = true ->
    In cond cond_tokens -> In type plot_types ->
    tl = w1 :: (txt "pH" ++ w2 :: ds) ++ w3 :: cond ++ w4 :: txt "("
              ++ type ++ txt ")" ++ rest ->
    tail_form tl (Some (txt "pH" ++ w2 :: ds)) cond
| tail_without_ph w1 w4 cond type rest :
    is_space w1 = true -> is_space w4 = true ->
    In cond cond_tokens -> In type plot_types ->
    tl = w1 :: cond ++ w4 :: txt "(" ++ type ++ txt ")" ++ rest ->
    tail_form tl None cond.

(** [<index>_<chemical><tail>]: the main form, with its fields. *)
Definition main_form (filename idx chem : text) (ph : option text)
    (cond : text) : Prop :=
  exists tl,
    filename = idx ++ txt "_" ++ chem ++ tl /\
    idx <> [] /\ forallb is_digit idx = true /\
    chem <> [] /\ forallb is_dot chem = true /\
    tail_form tl ph cond.

(** The chemical field is the shortest possible one: no proper prefix of it
    is followed by a tail of the pattern. *)
Definition first_split (chem tl : text) : Prop :=
  forall c1 c2 ph cond,
    chem = c1 ++ c2 -> c1 <> [] -> c2 <> [] ->
    ~ tail_form (c2 ++ tl) ph cond.

Definition occurs (p s : text) : Prop := exists a b, s = a ++ p ++ b.

Definition has_condition (filename : text) : Prop :=
  exists c, In c cond_tokens /\ occurs c filename.

(** The three forms [parse_filename] recognises. *)
Definition recognised (filename : text) : Prop :=
  (exists idx chem ph cond, main_form filename idx chem ph cond)
  \/ (occurs (txt "Cu") filename /\ has_condition filename)
  \/ (occurs (txt "KReO4 + Na2SO4") filename /\ has_condition filename).

Definition ph_field (ph : option text) : text :=
  match ph with Some p => p | None => txt "N/A" end.

(** The pattern after its chemical group. *)
Definition tail_re : re :=
  seq [ Cls Space;
        Opt (Seq (Group 3 (seq [Lit (txt "pH"); Cls Space; Plus Digit]))
                 (Cls Space));
        Group 4 Eis.conditions;
        Cls Space;
        Lit (txt "(");
        Group 5 Eis.plot_type;
        Lit (txt ")") ].

(** The non-empty suffixes of a text, the longest first. *)
Fixpoint suffixes (u : text) : list text :=
  match u with
  | [] => []
  | _ :: u' => u :: suffixes u'
  end.

(** A test for [first_split] that can be run: the tail of the pattern
    matches after no proper prefix of the chemical field. *)
Definition first_splitb (chem rest : text) : bool :=
  forallb (fun c2 => match run tail_re (c2 ++ rest) [] with
                     | [] => true
                     | _ :: _ => false
                     end) (suffixes (tl chem)).

(** A test for [recognised] that can be run. *)
Definition recognisedb (filename : text) : bool :=
  let conditionb := existsb (fun c => contains c filename) cond_tokens in
  match re_match Eis.pattern filename with Some _ => true | None => false end
  || (contains (txt "Cu") filename && conditionb)
  || (contains (txt "KReO4 + Na2SO4") filename && conditionb).

End EisSpec.

(** ** Properties of traces *)

Module IoSpec.

(** Every event of the computation satisfies [P]. *)
Definition always (P : event -> Prop) {A} (m : io A) : Prop :=
  Forall P (trace m).

(** The computation stops with an exception that satisfies [Ex]. *)
Definition fails (Ex : exn -> Prop) {A} (m : io A) : Prop :=
  exists e, Ex e /\ outcome m = Raise e.

(** The line [msg] is printed exactly when the computation ends well. *)
Definition announces (msg : message) (m : io unit) : Prop :=
  In (Printed msg) (trace m) <-> outcome m = Ok tt.

(** A read, if the event is one, uses the separator [sep]. *)
Definition reads_with (sep : text) (e : event) : Prop :=
  match e with
  | ReadCsv _ s => s = sep
  | _ => True
  end.

Definition is_read (e : event) : bool :=
  match e with ReadCsv _ _ => true | _ => false end.

Definition is_save (e : event) : bool :=
  match e with SaveFig _ _ => true | _ => false end.

Definition is_plot (e : event) : bool :=
  match e with Plot _ _ _ _ _ _ => true | _ => false end.

(** The paths read, in the order of the reads. *)
Definition reads (t : list event) : list text :=
  flat_map (fun e => match e with ReadCsv p _ => [p] | _ => [] end) t.

(** The curves drawn, in the order of the calls. *)
Definition plots (t : list event) : list event := filter is_plot t.

(** Code point order as a relation. *)
Definition text_le (s t : text) : Prop := text_leb s t = true.

(** The file names plot_ca.py gives a label to. *)
Definition labelled (filename : text) : bool :=
  match Ca.plot_label filename with Some _ => true | None => false end.

End IoSpec.

(** ** Worlds to run the scripts in *)

Module Demo.

(** No directory, no file. *)
Definition nothing : World :=
  {| listdir := fun _ => Raise FileNotFoundError;
     path_exists := fun _ => false;
     glob := fun _ => [];
     read_csv := fun _ _ => Raise FileNotFoundError;
     merge := fun _ _ => Raise (OtherError 0);
     savefig := fun _ => Ok tt;
     zero_rows_rejected := true |}.

(** The float64 a decimal numeral [n/d] is read as: the nearest one. *)
Definition decimal (n d : Z) : float := fdiv (of_int n) (of_int d).

(** The two halves of one impedance measurement. *)
Definition nyquist_half : frame :=
  [ (Eis.frequency, IntCol [1000; 100]%Z);
    (Eis.z_real, IntCol [12; 15]%Z);
    (Eis.z_imag, IntCol [3; 7]%Z) ].

Definition bode_half : frame :=
  [ (Eis.frequency, IntCol [1000; 100]%Z);
    (Eis.z_abs, IntCol [13; 17]%Z);
    (Eis.phase, IntCol [14; 25]%Z);
    (Eis.z_real, IntCol [12; 15]%Z) ].

(** An outer merge of two frames whose rows agree on the key: the columns
    of the left, then those of the right but the key, a clashing label
    getting the suffix [_y]. *)
Definition merge_aligned (l r : frame) : result frame :=
  Ok (l ++ map (fun c => (if has_column l (fst c)
                          then fst c ++ txt "_y" else fst c, snd c))
               (filter (fun c => negb (text_eqb (fst c) Eis.frequency)) r)).

Definition eis_files : World :=
  {| listdir := fun _ => Raise FileNotFoundError;
     path_exists := fun _ => false;
     glob := fun _ => [txt "EIS/1_KReO4 pH 1 OCP (Nyquist).txt";
                       txt "EIS/1_KReO4 pH 1 OCP (Bode).txt"];
     read_csv := fun path _ =>
       if text_eqb path (txt "EIS/1_KReO4 pH 1 OCP (Nyquist).txt")
       then Ok nyquist_half
       else if text_eqb path (txt "EIS/1_KReO4 pH 1 OCP (Bode).txt")
       then Ok bode_half
       else Raise FileNotFoundError;
     merge := merge_aligned;
     savefig := fun _ => Ok tt;
     zero_rows_rejected := true |}.

(** A listing with the Nyquist half of one measurement only, and a file
    without a pH in its name. *)
Definition eis_nyquist_only : World :=
  {| listdir := fun _ => Raise FileNotFoundError;
     path_exists := fun _ => false;
     glob := fun _ => [txt "EIS/2_KReO4 pH 4 CAP (Nyquist).txt";
                       txt "EIS/Cu_OCP.txt"];
     read_csv := fun _ _ => Ok nyquist_half;
     merge := merge_aligned;
     savefig := fun _ => Ok tt;
     zero_rows_rejected := true |}.

(** A chronoamperometry table: three samples, a minute apart. *)
Definition ca_table : frame :=
  [ (txt "Time (s)", IntCol [30; 90; 150]%Z);
    (txt "WE(1).Current (A)",
     FloatCol [decimal 2 1000; decimal 3 1000; decimal 5 1000]);
    (txt "WE(1).Charge (C)",
     FloatCol [decimal 0 10; decimal 1 10; decimal 3 10]) ].

(** A table without the columns the scripts need. *)
Definition other_table : frame :=
  [ (txt "Potential applied (V)", IntCol [1; 2]%Z) ].

Definition ca_names : list text :=
  map txt ["pH4_KReO4.txt"; "Cu_ref.txt"; "pH1_K2ReCl6.txt"; "notes.md";
           "pH1_broken.txt"; "pH4_Cu.txt"; "todo.txt";
           "pH4_other.txt"]%string.

Definition ca_read (path sep : text) : result frame :=
  if negb (text_eqb sep tab) then Raise (OtherError 2)
  else if text_eqb path (txt "CAs/pH1_broken.txt") then Raise (OtherError 1)
  else if text_eqb path (txt "CAs/pH4_other.txt") then Ok other_table
  else if existsb (fun n => text_eqb path (txt "CAs/" ++ n)) ca_names
  then Ok ca_table
  else Raise FileNotFoundError.

(** A directory [CAs/] of measurements, one file unreadable, one without
    the columns, two names without a label. *)
Definition ca_dir : World :=
  {| listdir := fun d => if text_eqb d (txt "CAs/") then Ok ca_names
                         else Raise FileNotFoundError;
     path_exists := fun _ => false;
     glob := fun _ => [];
     read_csv := ca_read;
     merge := fun _ _ => Raise (OtherError 0);
     savefig := fun _ => Ok tt;
     zero_rows_rejected := true |}.

(** The same directory, listed in another order. *)
Definition ca_dir_reversed : World :=
  {| listdir := fun d => if text_eqb d (txt "CAs/") then Ok (rev ca_names)
                         else Raise FileNotFoundError;
     path_exists := fun _ => false;
     glob := fun _ => [];
     read_csv := ca_read;
     merge := fun _ _ => Raise (OtherError 0);
     savefig := fun _ => Ok tt;
     zero_rows_rejected := true |}.

(** A directory without any file, under a matplotlib that rejects a grid
    of zero rows. *)
Definition empty_dir : World :=
  {| listdir := fun _ => Ok [];
     path_exists := fun _ => false;
     glob := fun _ => [];
     read_csv := fun _ _ => Raise FileNotFoundError;
     merge := fun _ _ => Raise (OtherError 0);
     savefig := fun _ => Ok tt;
     zero_rows_rejected := true |}.

(** A voltammetry table. *)
Definition lsv_table : frame :=
  [ (txt "Potential applied (V)",
     FloatCol [decimal 0 10; decimal (-1) 10; decimal (-2) 10]);
    (txt "WE(1).Current (A)",
     FloatCol [decimal 0 1000; decimal (-1) 1000; decimal (-4) 1000]) ].

(** A directory [LSV/] with the reference and two sweeps of one chemical. *)
Definition lsv_dir : World :=
  {| listdir := fun _ => Raise FileNotFoundError;
     path_exists := fun p => text_eqb p (txt "LSV/LSV_Reference Cu");
     glob := fun pattern =>
       if text_eqb pattern (txt "LSV/LSV_pH*_K2ReCl6*")
       then [txt "LSV/LSV_pH 4_K2ReCl6.txt"; txt "LSV/LSV_pH 1_K2ReCl6.txt"]
       else [];
     read_csv := fun _ _ => Ok lsv_table;
     merge := fun _ _ => Raise (OtherError 0);
     savefig := fun _ => Ok tt;
     zero_rows_rejected := true |}.

(** Samples at 0, 10 and 30 seconds. *)
Definition coarse_table : frame :=
  [ (txt "Time (s)", IntCol [0; 10; 30]%Z);
    (txt "WE(1).Current (A)",
     FloatCol [decimal 2 1000; decimal 3 1000; decimal 5 1000]);
    (txt "WE(1).Charge (C)",
     FloatCol [decimal 0 10; decimal 1 10; decimal 3 10]) ].

(** A directory [CAs/] with one such file. *)
Definition coarse_dir : World :=
  {| listdir := fun _ => Ok [txt "pH1_KReO4.txt"];
     path_exists := fun _ => false;
     glob := fun _ => [];
     read_csv := fun _ _ => Ok coarse_table;
     merge := fun _ _ => Raise (OtherError 0);
     savefig := fun _ => Ok tt;
     zero_rows_rejected := true |}.

(** A sweep whose current column holds one integer, the largest int64. *)
Definition huge_table : frame :=
  [ (txt "Potential applied (V)", IntCol [0]%Z);
    (txt "WE(1).Current (A)", IntCol [9223372036854775807]%Z) ].

(** A directory [LSV/] with one such sweep and no reference. *)
Definition huge_dir : World :=
  {| listdir := fun _ => Raise FileNotFoundError;
     path_exists := fun _ => false;
     glob := fun pattern =>
       if text_eqb pattern (txt "LSV/LSV_pH*_KReO4*")
       then [txt "LSV/LSV_pH 1_KReO4.txt"]
       else [];
     read_csv := fun _ _ => Ok huge_table;
     merge := fun _ _ => Raise (OtherError 0);
     savefig := fun _ => Ok tt;
     zero_rows_rejected := true |}.

End Demo.

(** ** The two normalisations, in the words of the specification *)

Module Units.

(** The rational a finite float64 stands for. *)
Definition value (x : float) : option Q :=
  match x with
  | S754_zero _ => Some 0%Q
  | S754_finite s m e =>
      Some (inject_Z (cond_Zopp s (Zpos m)) * Qpower 2 e)%Q
  | S754_infinity _ | S754_nan => None
  end.

(** The first value of the column is a number: any int64, a float64 that
    is neither NaN nor infinite. *)
Definition starts_finite (c : column) : bool :=
  match c with
  | IntCol (_ :: _) => true
  | FloatCol (S754_zero _ :: _) | FloatCol (S754_finite _ _ _ :: _) => true
  | _ => false
  end.

Definition rows (c : column) : nat :=
  match c with
  | IntCol v => List.length v
  | FloatCol v => List.length v
  | ObjCol v => List.length v
  end.

(** Time shifted to start at the first sample, in minutes: row by row the
    value minus the first one, over 60, in the arithmetic of the column
    (the int64 difference modulo 2^64, the float64 difference rounded; the
    quotient a rounded float64).  A column without rows, or of text, has
    none. *)
Definition minutes_from_first (c : column) : option column :=
  match c with
  | IntCol (t0 :: ts) =>
      Some (FloatCol (map (fun t => fdiv (of_int (wrap (t - t0)))
                                      (of_int 60))
                        (t0 :: ts)))
  | FloatCol (t0 :: ts) =>
      Some (FloatCol (map (fun t => fdiv (fsub t t0) (of_int 60))
                        (t0 :: ts)))
  | _ => None
  end.

(** The current density of the currents [c] on an electrode of the given
    area: row by row I * 1000 / A, in the arithmetic of the column (the
    int64 product modulo 2^64, the float64 product rounded; the quotient a
    rounded float64).  A column of a file without rows is an empty text
    column and stays one; text has no density. *)
Definition density_of (area : float) (c : column) : option column :=
  match c with
  | IntCol v =>
      Some (FloatCol (map (fun i => fdiv (of_int (wrap (i * 1000))) area) v))
  | FloatCol v =>
      Some (FloatCol (map (fun i => fdiv (fmul i (of_int 1000)) area) v))
  | ObjCol [] => Some (ObjCol [])
  | ObjCol (_ :: _) => None
  end.

(** The abscissa is the time column of the frame, in minutes from its
    first sample. *)
Definition in_minutes (data : frame) (x y : column) : Prop :=
  exists t,
    getitem data (txt "Time (s)") = Ok t /\ minutes_from_first t = Some x.

(** The ordinate is the current density of the current column of the
    frame. *)
Definition as_density (area : float) (data : frame) (x y : column) : Prop :=
  exists i,
    getitem data (txt "WE(1).Current (A)") = Ok i /\
    density_of area i = Some y.

(** Every curve of the trace is drawn right after the read of a file, from
    the frame that read gave, and [P] holds of the frame and the two
    columns drawn. *)
Definition curves_of_reads (w : World)
    (P : frame -> column -> column -> Prop) (t : list event) : Prop :=
  forall t1 fig ax x y label st t2,
    t = t1 ++ Plot fig ax x y label st :: t2 ->
    exists t0 path data,
      t1 = t0 ++ [ReadCsv path tab] /\
      read_csv w path tab = Ok data /\ P data x y.

End Units.

(** ** plot_eis.py: what a parsed record looks like *)

Module EisShape.
Import Eis EisSpec.

(** A pH field as the pattern captures it: [pH], one white space
    character, digits. *)
Definition ph_captured (p : text) : Prop :=
  exists w ds,
    p = txt "pH" ++ w :: ds /\ is_space w = true /\
    ds <> [] /\ forallb is_digit ds = true.

(** The record of a name of the main form. *)
Definition main_record (idx chem : text) (ph : option text) (cond : text)
    : parsed :=
  {| id := idx ++ txt "_" ++ chem ++ txt " " ++ fmt ph ++ txt " " ++ cond;
     chemical := strip chem;
     Eis.ph := ph_field ph;
     condition := cond |}.

(** The record of one of the two special cases. *)
Definition special_record (chem cond : text) : parsed :=
  {| id := chem ++ txt "_" ++ cond;
     chemical := chem;
     Eis.ph := txt "N/A";
     condition := cond |}.

(** How [parse_filename] came to a record. *)
Definition parsed_as (filename : text) (r : parsed) : Prop :=
  (exists idx chem ph cond,
      main_form filename idx chem ph cond /\
      r = main_record idx chem ph cond)
  \/ (exists cond,
        In cond cond_tokens /\ occurs cond filename /\
        ((occurs (txt "Cu") filename /\ r = special_record (txt "Cu") cond)
         \/ (occurs (txt "KReO4 + Na2SO4") filename /\
             r = special_record (txt "KReO4 + Na2SO4") cond))).

(** The condition of a name of one of the two special forms: the token
    that occurs first in the name, no token occurring further left. *)
Definition first_condition (filename cond : text) : Prop :=
  In cond cond_tokens /\
  exists a b,
    filename = a ++ cond ++ b /\
    forall c a' b',
      In c cond_tokens -> filename = a' ++ c ++ b' ->
      List.length a <= List.length a'.

(** How [parse_filename] comes to a record, in the order of its tests: a
    name of the main form, split at the shortest chemical field, gets the
    record of that split; a name that is not of the main form gets the
    record of [Cu] if it holds [Cu], else the record of [KReO4 + Na2SO4] if
    it holds that, with the first condition of the name. *)
Definition parsed_in_order (filename : text) (r : parsed) : Prop :=
  (exists idx chem rest ph cond,
      filename = idx ++ txt "_" ++ chem ++ rest /\
      idx <> [] /\ forallb is_digit idx = true /\
      chem <> [] /\ forallb is_dot chem = true /\
      tail_form rest ph cond /\ first_split chem rest /\
      r = main_record idx chem ph cond)
  \/ ((forall idx chem ph cond, ~ main_form filename idx chem ph cond) /\
      exists cond,
        first_condition filename cond /\
        ((occurs (txt "Cu") filename /\
          r = special_record (txt "Cu") cond)
         \/ (~ occurs (txt "Cu") filename /\
             occurs (txt "KReO4 + Na2SO4") filename /\
             r = special_record (txt "KReO4 + Na2SO4") cond))).

(** [grouped_plots[ph][condition][chemical]], empty when a key is absent. *)
Definition leaf (g : grouped) (ph cond chem : text) : list text :=
  at_key [] (find (at_key [] (find (at_key [] (find g ph)) cond)) chem).

(** A path of the listing that parses to the id [k]. *)
Definition of_id (paths : list text) (k p : text) : Prop :=
  In p paths /\ exists r, parse_filename p = Some r /\ id r = k.

(** A path of the listing that parses to the three keys of a cell. *)
Definition of_cell (paths : list text) (ph cond chem p : text) : Prop :=
  In p paths /\
  exists r, parse_filename p = Some r /\
            Eis.ph r = ph /\ condition r = cond /\ chemical r = chem.

(** Every file of every entry of the nested dict is a path of the listing
    with the three keys of its place. *)
Definition placed (paths0 : list text) (g : grouped) : Prop :=
  forall ph d1, In (ph, d1) g ->
  forall cond d2, In (cond, d2) d1 ->
  forall chem fl, In (chem, fl) d2 ->
  forall p, In p fl -> of_cell paths0 ph cond chem p.

(** The five columns [plot_eis_data] draws, in the order it asks for
    them. *)
Definition drawn_columns : list text :=
  [z_real; z_imag; frequency; z_abs; phase].

(** The KeyError of a column that is drawn. *)
Definition key_error (e : exn) : Prop :=
  exists c, In c drawn_columns /\ e = KeyError c.

(** The paths [plot_eis_data] hands to [group_files_by_experiment]. *)
Definition listing (w : World) : list text :=
  glob w (OsPath.join DATA_DIR (txt "*.txt")).

(** A read, if the event is one, is of a listed file whose pH is a row and
    whose condition is a column of the grid. *)
Definition grid_read (w : World) (e : event) : Prop :=
  match e with
  | ReadCsv p _ =>
      In p (listing w) /\
      exists r, parse_filename p = Some r /\
                In (Eis.ph r) ROWS /\ In (condition r) COLS
  | _ => True
  end.

(** [grouped_data[ph][condition]], the experiments of one cell. *)
Definition cell_items (g : grouped) (ph cond : text)
    : adict (list text) :=
  at_key [] (find (at_key [] (find g ph)) cond).

(** A curve, if the event is one, is drawn on one of the three figures in
    the cell of a row [i] and a column [j], for an experiment of that cell
    whose files all have the pH of the row, the condition of the column and
    the label as chemical; it has the style of the label and the two
    columns of the loaded frame that the figure shows. *)
Definition grid_plot (w : World) (e : event) : Prop :=
  match e with
  | Plot fig ax x y label st =>
      exists i j ph cond fl df,
        nth_error ROWS i = Some ph /\ nth_error COLS j = Some cond /\
        ax = 3 * i + j /\
        In (label, fl)
          (cell_items (group_files_by_experiment w DATA_DIR) ph cond) /\
        (forall p, In p fl -> of_cell (listing w) ph cond label p) /\
        outcome (load_eis_data w fl) = Ok (Some df) /\
        st = style_for label /\
        ((fig = 0 /\ getitem df z_real = Ok x /\ getitem df z_imag = Ok y)
         \/ (fig = 1 /\ getitem df frequency = Ok x /\
             getitem df z_abs = Ok y)
         \/ (fig = 2 /\ getitem df frequency = Ok x /\
             getitem df phase = Ok y))
  | _ => True
  end.

(** The files of one experiment, as [plot_eis_data] finds them in a
    cell. *)
Definition experiment (g : grouped) (ph cond chem : text)
    : option (list text) :=
  find (at_key [] (find (at_key [] (find g ph)) cond)) chem.

End EisShape.


(** ** The file names plot_ca.py gives a label to, written out *)

Module CaSpec.
Import EisSpec.

(** [...pH<digits>_<label>.txt...], the label free of line feeds: where the
    label pattern matches. *)
Definition ph_named (filename : text) : Prop :=
  exists a ds lab b,
    filename = a ++ txt "pH" ++ ds ++ txt "_" ++ lab ++ txt ".txt" ++ b /\
    ds <> [] /\ forallb is_digit ds = true /\ forallb is_dot lab = true.

(** A name with a pH tag and its label, or with [Cu] and no [pH]. *)
Definition recognised (filename : text) : Prop :=
  ph_named filename
  \/ (~ occurs (txt "pH") filename /\ occurs (txt "Cu") filename).

(** The label of a name with a pH tag: the stripped text some match of the
    label pattern captures, and the digits after some [pH] of the name. *)
Definition ph_label (filename label : text) : Prop :=
  exists a ds lab b a' ds' b',
    filename = a ++ txt "pH" ++ ds ++ txt "_" ++ lab ++ txt ".txt" ++ b /\
    ds <> [] /\ forallb is_digit ds = true /\ forallb is_dot lab = true /\
    filename = a' ++ txt "pH" ++ ds' ++ b' /\
    ds' <> [] /\ forallb is_digit ds' = true /\
    label = strip lab ++ txt " (pH " ++ ds' ++ txt ")".

(** What a file leaves in the output of plot_ca.py: a curve, or the line
    about it. *)
Definition accounts (e : event) : bool :=
  match e with
  | Plot _ _ _ _ _ _ => true
  | Printed (Skipping _) => true
  | Printed (MissingColumns _) => true
  | Printed (ProcessingError _ _) => true
  | _ => false
  end.

(** [e] is what the file [f] may leave: the line that it is skipped when it
    has no label, else a curve under its label or a line about its
    failure. *)
Definition accounts_for (f : text) (e : event) : Prop :=
  match e with
  | Printed (Skipping f') => f' = f /\ Ca.plot_label f = None
  | Printed (MissingColumns f') => f' = f /\ Ca.plot_label f <> None
  | Printed (ProcessingError f' _) => f' = f /\ Ca.plot_label f <> None
  | Plot _ _ _ _ label _ => Ca.plot_label f = Some label
  | _ => False
  end.

End CaSpec.

(** ** The pH groups of plot_ca_j.py, written out *)

Module CaJSpec.
Import EisSpec.

(** The group a name is filed under: none for a name with [Cu], else
    [pH <digits>] with the digits of the first [pH<digits>] of the name. *)
Definition ph_key (filename : text) : option text :=
  if contains (txt "Cu") filename then None
  else if contains (txt "pH") filename then
    match re_search Ca.ph_pattern filename with
    | Some match_ph => Some (txt "pH " ++ part match_ph 1)
    | None => None
    end
  else None.

Definition keyed (key filename : text) : bool :=
  match ph_key filename with
  | Some k => text_eqb k key
  | None => false
  end.

(** The pH digits of a name: the whole run of digits that follows the
    first [pH] of the name that has a digit after it. *)
Definition ph_tag (filename ds : text) : Prop :=
  exists a b,
    filename = a ++ txt "pH" ++ ds ++ b /\
    ds <> [] /\ forallb is_digit ds = true /\
    match b with [] => True | c :: _ => is_digit c = false end /\
    forall a' d b',
      filename = a' ++ txt "pH" ++ d :: b' -> is_digit d = true ->
      List.length a <= List.length a'.

(** The names that are filed, and where: a name without [Cu] that has pH
    digits goes under [pH <digits>]. *)
Definition filed_under (key filename : text) : Prop :=
  ~ occurs (txt "Cu") filename /\
  exists ds, ph_tag filename ds /\ key = txt "pH " ++ ds.

(** The reference file, if there is one. *)
Definition reference (cu_ref_path : option text) : list text :=
  match cu_ref_path with Some p => [p] | None => [] end.

(** The curves of the panel [ax]. *)
Definition on_axis (ax : nat) (e : event) : bool :=
  match e with
  | Plot _ a _ _ _ _ => a =? ax
  | _ => false
  end.

Definition reference_curve (ax : nat) (e : event) : Prop :=
  exists x y,
    e = Plot 0 ax x y (txt "Cu Reference")
          {| color := Some (txt "grey"); marker := None;
             linestyle := Some (txt "--") |}.

(** The [n]-th sample curve of a panel, from 0. *)
Definition sample_curve (ax n : nat) (e : event) : Prop :=
  exists x y label,
    e = Plot 0 ax x y label
          {| color := None;
             marker := cycle CaJ.markers n;
             linestyle := cycle CaJ.linestyles n |}.

(** At most one reference curve, then the sample curves with the styles
    counted from the first of them. *)
Definition panel_curves (ax : nat) (ps : list event) : Prop :=
  exists ref samples,
    ps = ref ++ samples /\ List.length ref <= 1 /\
    Forall (reference_curve ax) ref /\
    forall n e, nth_error samples n = Some e -> sample_curve ax n e.

End CaJSpec.

(** ** The reads of plot_lsv.py, written out *)

Module LsvSpec.
Import IoSpec.

Definition no_underscore (s : text) : bool :=
  forallb (fun a => negb (Ascii.eqb a "_")) s.

(** What [plot_curve] needs of a file to draw it: the read succeeds, the
    frame has the two columns and the current can be scaled. *)
Definition drawable (w : World) (path : text) : Prop :=
  exists df i j v,
    read_csv w path tab = Ok df /\
    getitem df Lsv.current_col = Ok i /\
    mul_div i 1000%Z Lsv.ELECTRODE_AREA_CM2 = Ok j /\
    getitem df Lsv.potential_col = Ok v.

(** The files of the panel of one chemical, in the order of the reads: the
    reference if it exists, then the matches of the pattern, sorted. *)
Definition panel_files (w : World) (chemical : text) : list text :=
  (if path_exists w Lsv.cu_ref_path then [Lsv.cu_ref_path] else [])
  ++ sorted (glob w (OsPath.join Lsv.data_directory
                       (txt "LSV_pH*_" ++ chemical ++ txt "*"))).

Definition all_files (w : World) : list text :=
  flat_map (panel_files w) Lsv.chemicals.

(** The computation draws the files [l] in this order and saves nothing;
    it ends well when every file is drawable, and stops at the first that
    is not. *)
Definition draws (w : World) (m : io unit) (l : list text) : Prop :=
  Forall (fun e => is_save e = false) (trace m) /\
  ((outcome m = Ok tt /\ reads (trace m) = l /\
    forall p, In p l -> drawable w p)
   \/ ((exists e, outcome m = Raise e) /\
       exists before p after,
         l = before ++ p :: after /\ reads (trace m) = before ++ [p] /\
         (forall q, In q before -> drawable w q) /\ ~ drawable w p)).

End LsvSpec.
(** * Proofs *)

(** ** plot_eis.py: [parse_filename], run *)

Module EisExamples.
Import Eis.

Example parse_main :
  parse_filename (txt "EIS/12_KReO4 + Na2SO4 pH 4 CAP (Nyquist and Bode).txt")
  = Some {| id := txt "12_KReO4 + Na2SO4 pH 4 CAP";
            chemical := txt "KReO4 + Na2SO4";
            ph := txt "pH 4";
            condition := txt "CAP" |}.
Proof. vm_compute. reflexivity. Qed.

Example parse_no_ph :
  parse_filename (txt "3_K2ReCl6 OCP (Bode).txt")
  = Some {| id := txt "3_K2ReCl6 None OCP";
            chemical := txt "K2ReCl6";
            ph := txt "N/A";
            condition := txt "OCP" |}.
Proof. vm_compute. reflexivity. Qed.

Example parse_cu :
  parse_filename (txt "Cu reference FAR.txt")
  = Some {| id := txt "Cu_FAR"; chemical := txt "Cu";
            ph := txt "N/A"; condition := txt "FAR" |}.
Proof. vm_compute. reflexivity. Qed.

Example parse_none : parse_filename (txt "notes.txt") = None.
Proof. vm_compute. reflexivity. Qed.

End EisExamples.

(** ** Facts about text *)

Section TextFacts.

Lemma strip_prefix_app p s : strip_prefix p (p ++ s) = Some s.
Proof.
  induction p as [|a p IH]; simpl; [reflexivity|].
  now rewrite Ascii.eqb_refl.
Qed.

Lemma strip_prefix_inv p : forall s s',
  strip_prefix p s = Some s' -> s = p ++ s'.
Proof.
  induction p as [|a p IH]; intros s s' H; simpl in *.
  - now inversion H.
  - destruct s as [|b s]; [discriminate|].
    destruct (Ascii.eqb a b) eqn:E; [|discriminate].
    apply Ascii.eqb_eq in E. subst b. f_equal. now apply IH.
Qed.

Lemma startswith_app s p : startswith (p ++ s) p = true.
Proof. unfold startswith. now rewrite strip_prefix_app. Qed.

Lemma contains_intro p : forall a b, contains p (a ++ p ++ b) = true.
Proof.
  induction a as [|x a IH]; intros b.
  - simpl app. destruct (p ++ b) eqn:E; simpl; rewrite <- ?E;
      now rewrite startswith_app.
  - simpl. rewrite IH. apply orb_true_r.
Qed.

Lemma contains_inv p : forall s,
  contains p s = true -> exists a b, s = a ++ p ++ b.
Proof.
  induction s as [|x s IH]; simpl; intros H.
  - rewrite orb_false_r in H. unfold startswith in H.
    destruct (strip_prefix p []) eqn:E; [|discriminate].
    apply strip_prefix_inv in E. now exists [], t.
  - apply orb_true_iff in H. destruct H as [H|H].
    + unfold startswith in H.
      destruct (strip_prefix p (x :: s)) eqn:E; [|discriminate].
      apply strip_prefix_inv in E. now exists [], t.
    + destruct (IH H) as (a & b & ->). now exists (x :: a), b.
Qed.

Lemma consumed_app (u s : text) : consumed (u ++ s) s = u.
Proof.
  unfold consumed. rewrite length_app.
  replace (List.length u + List.length s - List.length s)
    with (List.length u) by lia.
  rewrite firstn_app, firstn_all, Nat.sub_diag. simpl. apply app_nil_r.
Qed.

End TextFacts.

(** ** What the matcher computes *)

Module ReFacts.
Import ReSpec.

Lemma star_greedy_inv c : forall s s',
  In s' (star_greedy c s) ->
  exists u, s = u ++ s' /\ forallb (in_cls c) u = true.
Proof.
  induction s as [|a s IH]; simpl; intros s' H.
  - destruct H as [<-|[]]. now exists [].
  - destruct (in_cls c a) eqn:E.
    + apply in_app_or in H. destruct H as [H|[<-|[]]].
      * destruct (IH _ H) as (u & -> & Hu). exists (a :: u). simpl.
        now rewrite E, Hu.
      * now exists [].
    + destruct H as [<-|[]]. now exists [].
Qed.

Lemma star_greedy_intro c : forall u s,
  forallb (in_cls c) u = true -> In s (star_greedy c (u ++ s)).
Proof.
  induction u as [|a u IH]; simpl; intros s H.
  - destruct s as [|b s]; simpl; [now left|].
    destruct (in_cls c b); [apply in_or_app; right|]; now left.
  - apply andb_true_iff in H. destruct H as [-> H].
    apply in_or_app. left. now apply IH.
Qed.

Lemma star_lazy_inv c : forall s s',
  In s' (star_lazy c s) ->
  exists u, s = u ++ s' /\ forallb (in_cls c) u = true.
Proof.
  induction s as [|a s IH]; simpl; intros s' H.
  - destruct H as [<-|[]]. now exists [].
  - destruct H as [<-|H]; [now exists []|].
    destruct (in_cls c a) eqn:E; [|destruct H].
    destruct (IH _ H) as (u & -> & Hu). exists (a :: u). simpl.
    now rewrite E, Hu.
Qed.

Lemma star_lazy_intro c : forall u s,
  forallb (in_cls c) u = true -> In s (star_lazy c (u ++ s)).
Proof.
  induction u as [|a u IH]; simpl; intros s H.
  - destruct s; now left.
  - apply andb_true_iff in H. destruct H as [-> H].
    right. now apply IH.
Qed.

(** Every way [run] finds is a match of the pattern. *)
Theorem run_sound r : forall s g s' g',
  In (s', g') (run r s g) -> exists u, s = u ++ s' /\ matches r u g g'.
Proof.
  induction r as [l|c|r1 IH1 r2 IH2|r1 IH1 r2 IH2|n r IH|r IH|c|c|c];
    intros s g s' g' H; simpl in H.
  - destruct (strip_prefix l s) eqn:E; [|destruct H].
    destruct H as [H|[]]. inversion H; subst.
    apply strip_prefix_inv in E. exists l. split; [assumption|constructor].
  - destruct s as [|a s]; [destruct H|].
    destruct (in_cls c a) eqn:E; [|destruct H].
    destruct H as [H|[]]. inversion H; subst.
    exists [a]. split; [reflexivity|now constructor].
  - apply in_flat_map in H. destruct H as ([s1 g1] & H1 & H2).
    simpl in H2.
    destruct (IH1 _ _ _ _ H1) as (u1 & -> & M1).
    destruct (IH2 _ _ _ _ H2) as (u2 & -> & M2).
    exists (u1 ++ u2). split; [now rewrite app_assoc|].
    econstructor; eassumption.
  - apply in_app_or in H. destruct H as [H|H].
    + destruct (IH1 _ _ _ _ H) as (u & -> & M). exists u.
      split; [reflexivity|now apply MAltL].
    + destruct (IH2 _ _ _ _ H) as (u & -> & M). exists u.
      split; [reflexivity|now apply MAltR].
  - apply in_map_iff in H. destruct H as ([s1 g1] & E & H). simpl in E.
    destruct (IH _ _ _ _ H) as (u & -> & M).
    rewrite consumed_app in E. inversion E; subst.
    exists u. split; [reflexivity|now constructor].
  - apply in_app_or in H. destruct H as [H|[H|[]]].
    + destruct (IH _ _ _ _ H) as (u & -> & M). exists u.
      split; [reflexivity|now apply MOptSome].
    + inversion H; subst. exists []. split; [reflexivity|apply MOptNone].
  - apply in_map_iff in H. destruct H as (s1 & E & H). inversion E; subst.
    destruct s as [|a s]; [destruct H|]. simpl in H.
    destruct (in_cls c a) eqn:Ea; [|destruct H].
    destruct (star_greedy_inv _ _ _ H) as (u & -> & Hu).
    exists (a :: u). split; [reflexivity|]. constructor. simpl.
    now rewrite Ea, Hu.
  - apply in_map_iff in H. destruct H as (s1 & E & H). inversion E; subst.
    destruct s as [|a s]; [destruct H|]. simpl in H.
    destruct (in_cls c a) eqn:Ea; [|destruct H].
    destruct (star_lazy_inv _ _ _ H) as (u & -> & Hu).
    exists (a :: u). split; [reflexivity|]. constructor. simpl.
    now rewrite Ea, Hu.
  - apply in_map_iff in H. destruct H as (s1 & E & H). inversion E; subst.
    destruct (star_greedy_inv _ _ _ H) as (u & -> & Hu).
    exists u. split; [reflexivity|now constructor].
Qed.

(** Every match of the pattern is among the ways [run] finds. *)
Theorem run_complete r u g g' :
  matches r u g g' -> forall s, In (s, g') (run r (u ++ s) g).
Proof.
  induction 1; intros s; simpl.
  - rewrite strip_prefix_app. now left.
  - rewrite H. now left.
  - apply in_flat_map. exists (u2 ++ s, g1). split.
    + rewrite <- app_assoc. apply IHmatches1.
    + apply IHmatches2.
  - apply in_or_app. left. apply IHmatches.
  - apply in_or_app. right. apply IHmatches.
  - apply in_map_iff. exists (s, g'). simpl. rewrite consumed_app.
    split; [reflexivity|apply IHmatches].
  - apply in_or_app. left. apply IHmatches.
  - apply in_or_app. right. now left.
  - apply in_map_iff. exists s. split; [reflexivity|].
    simpl in H. apply andb_true_iff in H. destruct H as [-> H].
    now apply star_greedy_intro.
  - apply in_map_iff. exists s. split; [reflexivity|].
    simpl in H. apply andb_true_iff in H. destruct H as [-> H].
    now apply star_lazy_intro.
  - apply in_map_iff. exists s. split; [reflexivity|].
    now apply star_greedy_intro.
Qed.

Lemma re_match_some r s g :
  re_match r s = Some g -> exists u s', s = u ++ s' /\ matches r u [] g.
Proof.
  unfold re_match. destruct (run r s []) as [|[s' g'] l] eqn:E;
    [discriminate|].
  intros H. inversion H; subst.
  destruct (@run_sound r s [] s' g) as (u & -> & M).
  { rewrite E. now left. }
  now exists u, s'.
Qed.

Lemma re_match_none r s :
  re_match r s = None ->
  forall u s' g, s = u ++ s' -> ~ matches r u [] g.
Proof.
  unfold re_match. destruct (run r s []) as [|[s1 g1] l] eqn:E;
    [|discriminate].
  intros _ u s' g -> M. apply run_complete with (s := s') in M.
  now rewrite E in M.
Qed.

Lemma re_search_some r : forall s g,
  re_search r s = Some g ->
  exists a u b, s = a ++ u ++ b /\ matches r u [] g.
Proof.
  induction s as [|x s IH]; intros g H; simpl in H.
  - destruct (re_match r []) eqn:E; [|discriminate].
    inversion H; subst. apply re_match_some in E.
    destruct E as (u & s' & E & M). now exists [], u, s'.
  - destruct (re_match r (x :: s)) eqn:E.
    + inversion H; subst. apply re_match_some in E.
      destruct E as (u & s' & E & M). now exists [], u, s'.
    + destruct (IH _ H) as (a & u & b & -> & M). now exists (x :: a), u, b.
Qed.

End ReFacts.

(** ** plot_eis.py: the pattern of [parse_filename] *)

Module EisFacts.
Import ReSpec ReFacts Eis EisSpec.

Lemma pattern_unfold :
  pattern = Seq (Group 1 (Plus Digit))
              (Seq (Lit (txt "_")) (Seq (Group 2 (PlusLazy Dot)) tail_re)).
Proof. reflexivity. Qed.

Lemma space_not_digit a : is_space a = true -> is_digit a = false.
Proof.
  destruct a as [[] [] [] [] [] [] [] []]; vm_compute; congruence.
Qed.

Ltac inv_matches :=
  repeat match goal with
  | H : matches (Seq _ _) _ _ _ |- _ => inversion H; subst; clear H
  | H : matches (Group _ _) _ _ _ |- _ => inversion H; subst; clear H
  | H : matches (Alt _ _) _ _ _ |- _ => inversion H; subst; clear H
  | H : matches (Opt _) _ _ _ |- _ => inversion H; subst; clear H
  | H : matches (Lit _) _ _ _ |- _ => inversion H; subst; clear H
  | H : matches (Cls _) _ _ _ |- _ => inversion H; subst; clear H
  | H : matches (Plus _) _ _ _ |- _ => inversion H; subst; clear H
  | H : matches (PlusLazy _) _ _ _ |- _ => inversion H; subst; clear H
  end.

Lemma conditions_matches u g g' :
  matches conditions u g g' -> In u cond_tokens /\ g' = g.
Proof.
  unfold conditions, cond_tokens. intros M. inv_matches; simpl; auto.
Qed.

Lemma plot_type_matches u g g' :
  matches plot_type u g g' -> In u plot_types /\ g' = g.
Proof.
  unfold plot_type, plot_types. intros M. inv_matches; simpl; auto.
Qed.

(** A match of the tail of the pattern is a tail of the written form, and
    groups 3 and 4 hold its pH field and its condition. *)
Lemma tail_matches_form u g g' s :
  matches tail_re u g g' -> group g 3 = None ->
  exists ph cond,
    tail_form (u ++ s) ph cond /\
    group g' 3 = ph /\ group g' 4 = Some cond /\
    group g' 1 = group g 1 /\ group g' 2 = group g 2.
Proof.
  unfold tail_re, seq. intros M G3.
  inv_matches;
    repeat match goal with
    | H : matches conditions _ _ _ |- _ =>
        apply conditions_matches in H; destruct H as [? ->]
    | H : matches plot_type _ _ _ |- _ =>
        apply plot_type_matches in H; destruct H as [? ->]
    end.
  - do 2 eexists. split; [|simpl; repeat split; reflexivity].
    simpl. repeat (rewrite <- app_assoc; simpl).
    match goal with
    | Hc : In ?c cond_tokens, Ht : In ?t plot_types |- _ =>
        eapply tail_with_ph with (ds := _ :: _) (type := t) (rest := s);
          [..|simpl; reflexivity]; try eassumption; try discriminate
    end.
  - do 2 eexists. split; [|simpl; rewrite ?G3; repeat split; reflexivity].
    simpl. repeat (rewrite <- app_assoc; simpl).
    match goal with
    | Hc : In ?c cond_tokens, Ht : In ?t plot_types |- _ =>
        eapply tail_without_ph with (type := t) (rest := s);
          [..|simpl; reflexivity]; eassumption
    end.
Qed.

(** Conversely a tail of the written form is matched. *)
Lemma form_matches tl ph cond g :
  tail_form tl ph cond ->
  exists u s g', tl = u ++ s /\ matches tail_re u g g'.
Proof.
  assert (C : forall c g0, In c cond_tokens -> matches conditions c g0 g0).
  { intros c g0 [<-|[<-|[<-|[]]]]; unfold conditions;
      [apply MAltL|apply MAltR, MAltL|apply MAltR, MAltR]; constructor. }
  assert (T : forall t g0, In t plot_types -> matches plot_type t g0 g0).
  { intros t g0 [<-|[<-|[<-|[]]]]; unfold plot_type;
      [apply MAltL|apply MAltR, MAltL|apply MAltR, MAltR]; constructor. }
  unfold tail_re, seq.
  intros [w1 w2 w3 w4 ds c t rest H1 H2 H3 H4 Hds Hd Hc Ht ->
         |w1 w4 c t rest H1 H4 Hc Ht ->].
  - destruct ds as [|d ds]; [contradiction|].
    exists ([w1] ++ ((txt "pH" ++ [w2] ++ d :: ds) ++ [w3]) ++ c ++ [w4]
            ++ txt "(" ++ t ++ txt ")"), rest. eexists. split.
    + simpl. repeat (rewrite <- app_assoc; simpl). reflexivity.
    + repeat first
        [ eapply MSeq | apply MGroup | apply MOptSome | apply MLit
        | apply MCls; assumption | apply MPlus; assumption
        | apply C; assumption | apply T; assumption ].
  - exists ([w1] ++ [] ++ c ++ [w4] ++ txt "(" ++ t ++ txt ")"), rest.
    eexists. split.
    + simpl. repeat (rewrite <- app_assoc; simpl). reflexivity.
    + repeat first
        [ eapply MSeq | apply MGroup | apply MOptNone | apply MLit
        | apply MCls; assumption
        | apply C; assumption | apply T; assumption ].
Qed.

Lemma token_prefix_unique c c' x x' :
  In c cond_tokens -> In c' cond_tokens -> c ++ x = c' ++ x' -> c = c'.
Proof.
  intros [<-|[<-|[<-|[]]]] [<-|[<-|[<-|[]]]]; simpl; intros E;
    first [reflexivity | discriminate E].
Qed.

Lemma digit_run_unique : forall ds ds' w w' x x',
  forallb is_digit ds = true -> forallb is_digit ds' = true ->
  is_digit w = false -> is_digit w' = false ->
  ds ++ w :: x = ds' ++ w' :: x' -> ds = ds' /\ x = x'.
Proof.
  induction ds as [|d ds IH]; intros [|d' ds'] w w' x x' H H' Hw Hw' E;
    simpl in *.
  - inversion E. auto.
  - inversion E; subst. apply andb_true_iff in H'. destruct H' as [H' _].
    congruence.
  - inversion E; subst. apply andb_true_iff in H. destruct H as [H _].
    congruence.
  - inversion E; subst.
    apply andb_true_iff in H. apply andb_true_iff in H'.
    destruct (IH ds' w w' x x') as [-> ->]; tauto.
Qed.

(** A text has at most one tail form: the fields are determined. *)
Lemma tail_form_unique tl ph cond ph' cond' :
  tail_form tl ph cond -> tail_form tl ph' cond' ->
  ph = ph' /\ cond = cond'.
Proof.
  intros [w1 w2 w3 w4 ds c t rest H1 H2 H3 H4 Hds Hd Hc Ht E
         |w1 w4 c t rest H1 H4 Hc Ht E]
         [v1 v2 v3 v4 es c' t' rest' K1 K2 K3 K4 Kes Kd Kc Kt E'
         |v1 v4 c' t' rest' K1 K4 Kc Kt E']; subst tl; simpl in E'.
  - inversion E' as [[E1 E2 E3]]; subst.
    apply digit_run_unique in E3; auto using space_not_digit.
    destruct E3 as [-> E3]. split; [reflexivity|].
    eapply token_prefix_unique; eassumption.
  - exfalso. destruct Kc as [<-|[<-|[<-|[]]]]; discriminate E'.
  - exfalso. destruct Hc as [<-|[<-|[<-|[]]]]; discriminate E'.
  - inversion E' as [[E1 E2]]. split; [reflexivity|].
    eapply token_prefix_unique; eassumption.
Qed.

Lemma star_greedy_head c : forall u s,
  forallb (in_cls c) u = true ->
  match s with [] => True | a :: _ => in_cls c a = false end ->
  exists l, star_greedy c (u ++ s) = s :: l.
Proof.
  induction u as [|a u IH]; intros s Hu Hs; simpl.
  - destruct s as [|b s]; simpl; [now exists []|]. rewrite Hs. now exists [].
  - simpl in Hu. apply andb_true_iff in Hu. destruct Hu as [-> Hu].
    destruct (IH s Hu Hs) as (l & ->). now exists (l ++ [a :: u ++ s]).
Qed.

Lemma star_lazy_split c : forall u s,
  forallb (in_cls c) u = true ->
  star_lazy c (u ++ s) = map (fun v => v ++ s) (suffixes u) ++ star_lazy c s.
Proof.
  induction u as [|a u IH]; intros s Hu; [reflexivity|].
  simpl in Hu. apply andb_true_iff in Hu. destruct Hu as [Ha Hu].
  change (star_lazy c ((a :: u) ++ s))
    with ((a :: u ++ s) :: if in_cls c a then star_lazy c (u ++ s) else []).
  rewrite Ha, IH by assumption. reflexivity.
Qed.

Lemma star_lazy_head c s : exists l, star_lazy c s = s :: l.
Proof. destruct s; simpl; eauto. Qed.

Lemma suffixes_inv : forall u v,
  In v (suffixes u) -> v <> [] /\ exists p, u = p ++ v.
Proof.
  induction u as [|a u IH]; intros v H; [destruct H|].
  destruct H as [<-|H].
  - split; [discriminate|now exists []].
  - destruct (IH _ H) as (Hv & p & ->). split; [assumption|].
    now exists (a :: p).
Qed.

Lemma flat_map_skip {A B} (f : A -> list B) l1 l2 :
  (forall x, In x l1 -> f x = []) ->
  flat_map f (l1 ++ l2) = flat_map f l2.
Proof.
  intros H. rewrite flat_map_app.
  replace (flat_map f l1) with (@nil B); [reflexivity|].
  induction l1 as [|x l1 IH]; [reflexivity|]. simpl.
  rewrite (H x) by now left. apply IH. intros y Hy. apply H. now right.
Qed.

(** Every way the tail of the pattern matches a tail of the written form
    yields that form's fields. *)
Lemma run_tail_fields tl ph cond g s' g' :
  tail_form tl ph cond -> group g 3 = None ->
  In (s', g') (run tail_re tl g) ->
  group g' 3 = ph /\ group g' 4 = Some cond /\
  group g' 1 = group g 1 /\ group g' 2 = group g 2.
Proof.
  intros F G3 H. apply run_sound in H. destruct H as (u & -> & M).
  destruct (tail_matches_form s' M G3) as (ph' & cond' & F' & E3 & E4 & E12).
  destruct (tail_form_unique F F') as [-> ->]. auto.
Qed.

Lemma run_tail_none tl g :
  (forall ph cond, ~ tail_form tl ph cond) -> group g 3 = None ->
  run tail_re tl g = [].
Proof.
  intros N G3. destruct (run tail_re tl g) as [|[s' g'] l] eqn:E;
    [reflexivity|].
  assert (H : In (s', g') (run tail_re tl g)) by (rewrite E; now left).
  apply run_sound in H. destruct H as (u & -> & M).
  destruct (tail_matches_form s' M G3) as (ph & cond & F & _).
  now destruct (N ph cond).
Qed.

(** The first match of the whole pattern on a name of the main form whose
    chemical field is the shortest possible one. *)
Lemma pattern_first idx chem tl ph cond :
  idx <> [] -> forallb is_digit idx = true ->
  chem <> [] -> forallb is_dot chem = true ->
  tail_form tl ph cond -> first_split chem tl ->
  exists g,
    re_match pattern (idx ++ txt "_" ++ chem ++ tl) = Some g /\
    group g 1 = Some idx /\ group g 2 = Some chem /\
    group g 3 = ph /\ group g 4 = Some cond.
Proof.
  intros Hi Hd Hc Hdot F Min.
  destruct idx as [|d ds]; [contradiction|].
  destruct chem as [|a chem']; [contradiction|].
  set (s := (d :: ds) ++ txt "_" ++ (a :: chem') ++ tl).
  set (g2 := [(2, a :: chem'); (1, d :: ds)]).
  (* the tail after the chemical field *)
  destruct (form_matches g2 F) as (u & s' & g' & Etl & M).
  assert (Hin : In (s', g') (run tail_re tl g2)).
  { rewrite Etl. now apply run_complete. }
  destruct (run tail_re tl g2) as [|[sx gx] lx] eqn:Erun; [destruct Hin|].
  assert (Hx : In (sx, gx) (run tail_re tl g2)) by (rewrite Erun; now left).
  destruct (@run_tail_fields tl ph cond g2 sx gx F eq_refl Hx)
    as (E3 & E4 & E1 & E2).
  exists gx. split; [|now repeat split].
  (* the index *)
  unfold re_match. rewrite pattern_unfold.
  assert (Hg : exists l, plus_greedy Digit s = (txt "_" ++ (a :: chem') ++ tl) :: l).
  { unfold s. simpl in Hd |- *. apply andb_true_iff in Hd.
    destruct Hd as [-> Hd]. apply star_greedy_head; [assumption|reflexivity]. }
  destruct Hg as (l & Hg).
  cbn [run]. rewrite Hg. cbn [map flat_map fst snd].
  replace (consumed s (txt "_" ++ (a :: chem') ++ tl)) with (d :: ds)
    by (symmetry; apply consumed_app).
  cbn [txt list_ascii_of_string app strip_prefix Ascii.eqb Bool.eqb
       map flat_map fst snd].
  (* the chemical field *)
  simpl in Hdot. apply andb_true_iff in Hdot. destruct Hdot as [Ha Hdot].
  unfold plus_lazy at 1. change (in_cls Dot a) with (is_dot a). rewrite Ha.
  rewrite star_lazy_split by assumption.
  rewrite !map_app, flat_map_skip.
  - destruct (star_lazy_head Dot tl) as (l' & ->).
    cbn [map flat_map fst snd].
    replace (consumed (a :: chem' ++ tl) tl) with (a :: chem')
      by (symmetry; apply (consumed_app (a :: chem') tl)).
    match goal with
    | |- context [run tail_re tl ?g] =>
        replace (run tail_re tl g) with ((sx, gx) :: lx)
          by (symmetry; exact Erun)
    end.
    reflexivity.
  - intros [sy gy] Hy.
    apply in_map_iff in Hy. destruct Hy as ([sy' gy'] & Ey & Hy).
    apply in_map_iff in Hy. destruct Hy as (sz & Ez & Hy).
    apply in_map_iff in Hy. destruct Hy as (v & Ev & Hy).
    inversion Ez; subst. inversion Ey; subst. cbn [fst snd].
    apply suffixes_inv in Hy. destruct Hy as (Hv & p & ->).
    apply run_tail_none; [|reflexivity].
    intros ph' cond'. apply (Min (a :: p) v); [reflexivity|discriminate|assumption].
Qed.

(** A match of the whole pattern is a name of the main form. *)
Lemma pattern_matches_form filename g :
  re_match pattern filename = Some g ->
  exists idx chem ph cond, main_form filename idx chem ph cond.
Proof.
  intros H. apply re_match_some in H. destruct H as (u & s' & -> & M).
  rewrite pattern_unfold in M. inv_matches.
  match goal with
  | H : matches tail_re ?t ?g0 _ |- _ =>
      destruct (@tail_matches_form t g0 _ s' H eq_refl)
        as (ph & cond & F & _)
  end.
  match goal with
  | Hd : forallb (in_cls Digit) ?i = true,
    Hc : forallb (in_cls Dot) ?c = true |- _ =>
      exists i, c, ph, cond; eexists; repeat split;
        [|discriminate|exact Hd|discriminate|exact Hc|exact F]
  end.
  repeat (rewrite <- app_assoc; simpl). reflexivity.
Qed.

Lemma proper_suffix c1 c2 :
  c1 <> [] -> c2 <> [] -> In c2 (suffixes (tl (c1 ++ c2))).
Proof.
  intros H1 H2. destruct c1 as [|a c1]; [contradiction|]. simpl.
  clear H1. induction c1 as [|b c1 IH]; simpl.
  - destruct c2; [contradiction|now left].
  - now right.
Qed.

Lemma first_splitb_sound chem rest :
  first_splitb chem rest = true -> first_split chem rest.
Proof.
  unfold first_splitb. intros H c1 c2 ph cond -> H1 H2 F.
  rewrite forallb_forall in H. specialize (H c2 (proper_suffix H1 H2)).
  destruct (form_matches [] F) as (u & s' & g' & E & M).
  apply run_complete with (s := s') in M. rewrite <- E in M.
  destruct (run tail_re (c2 ++ rest) []); [destruct M|discriminate].
Qed.

Lemma main_form_matched filename idx chem ph cond :
  main_form filename idx chem ph cond -> re_match pattern filename <> None.
Proof.
  intros (rest & -> & Hi & Hd & Hc & Hdot & F) N.
  destruct (form_matches [(2, chem); (1, idx)] F) as (u & s' & g' & -> & M).
  destruct idx as [|d ds]; [contradiction|].
  destruct chem as [|a cs]; [contradiction|].
  refine (@re_match_none _ _ N
            ((d :: ds) ++ txt "_" ++ (a :: cs) ++ u) s' g' _ _).
  - repeat (rewrite <- app_assoc; simpl). reflexivity.
  - rewrite pattern_unfold.
    apply MSeq with (g1 := [(1, d :: ds)]); [now apply MGroup, MPlus|].
    apply MSeq with (g1 := [(1, d :: ds)]); [apply MLit|].
    apply MSeq with (g1 := [(2, a :: cs); (1, d :: ds)]); [|exact M].
    now apply MGroup, MPlusLazy.
Qed.

Lemma recognisedb_complete filename :
  recognised filename -> recognisedb filename = true.
Proof.
  assert (C : has_condition filename ->
              existsb (fun c => contains c filename) cond_tokens = true).
  { intros (c & Hc & a & b & ->). apply existsb_exists. exists c.
    split; [assumption|apply contains_intro]. }
  unfold recognisedb.
  intros [(idx & chem & ph & cond & F)|[[(a & b & ->) H]|[(a & b & ->) H]]].
  - apply main_form_matched in F.
    destruct (re_match pattern filename); [reflexivity|contradiction].
  - rewrite contains_intro, (C H). simpl.
    now rewrite orb_true_r.
  - rewrite (contains_intro (txt "KReO4 + Na2SO4")), (C H). simpl.
    now rewrite !orb_true_r.
Qed.

Lemma part_some g n t : group g n = Some t -> part g n = t.
Proof. unfold part. now intros ->. Qed.

(** C1 (as amended).  A path whose last component is
    [<index>_<chemical><white space>[pH <digits> ]<OCP|CAP|FAR> (<type>)...],
    with a non-empty index of digits and a non-empty chemical field free of
    line feeds that is the shortest field the rest of the pattern can follow,
    is parsed into the stripped chemical field, the pH field (or N/A) and the
    condition; a path whose last component has none of the three recognised
    forms is parsed into nothing. *)
Theorem parse_filename_spec :
  (forall filepath idx chem rest ph cond,
      OsPath.basename filepath = idx ++ txt "_" ++ chem ++ rest ->
      idx <> [] -> forallb is_digit idx = true ->
      chem <> [] -> forallb is_dot chem = true ->
      tail_form rest ph cond -> first_split chem rest ->
      parse_filename filepath
      = Some {| id := idx ++ txt "_" ++ chem ++ txt " " ++ fmt ph
                      ++ txt " " ++ cond;
                chemical := strip chem;
                Eis.ph := ph_field ph;
                condition := cond |})
  /\ (forall filepath,
        ~ recognised (OsPath.basename filepath) ->
        parse_filename filepath = None).
Proof.
  split.
  - intros filepath idx chem rest ph cond E Hi Hd Hc Hdot F Min.
    destruct (pattern_first Hi Hd Hc Hdot F Min)
      as (g & Hm & G1 & G2 & G3 & G4).
    unfold parse_filename. rewrite E, Hm.
    rewrite (part_some _ _ G1), (part_some _ _ G2), (part_some _ _ G4), G3.
    destruct ph; reflexivity.
  - intros filepath N. unfold parse_filename.
    destruct (re_match pattern (OsPath.basename filepath)) as [g|] eqn:Em.
    { exfalso. apply N. left. eapply pattern_matches_form; eassumption. }
    assert (C : forall m, re_search condition_pattern
                  (OsPath.basename filepath) = Some m ->
                has_condition (OsPath.basename filepath)).
    { intros m Hs. apply re_search_some in Hs.
      destruct Hs as (a & u & b & E & M). unfold condition_pattern in M.
      inversion M; subst.
      match goal with
      | H : matches conditions _ _ _ |- _ =>
          apply conditions_matches in H; destruct H as [H _]
      end.
      exists u. split; [assumption|now exists a, b]. }
    destruct (contains (txt "Cu") (OsPath.basename filepath)) eqn:Ecu.
    + apply contains_inv in Ecu.
      destruct (re_search condition_pattern (OsPath.basename filepath))
        as [m|] eqn:Es.
      * exfalso. apply N. right. left. split; [exact Ecu|eauto].
      * destruct (contains (txt "KReO4 + Na2SO4") (OsPath.basename filepath));
          reflexivity.
    + destruct (contains (txt "KReO4 + Na2SO4") (OsPath.basename filepath))
        eqn:Ek; [|reflexivity].
      apply contains_inv in Ek.
      destruct (re_search condition_pattern (OsPath.basename filepath))
        as [m|] eqn:Es; [|reflexivity].
      exfalso. apply N. right. right. split; [exact Ek|eauto].
Qed.

Lemma parse_filename_spec_witness :
  parse_filename
    (txt "EIS/12_KReO4 + Na2SO4 pH 4 CAP (Nyquist and Bode).txt")
  = Some {| id := txt "12_KReO4 + Na2SO4 pH 4 CAP";
            chemical := txt "KReO4 + Na2SO4";
            Eis.ph := txt "pH 4";
            condition := txt "CAP" |}
  /\ parse_filename (txt "EIS/1_K2ReCl6 pH 4 (Bode).txt") = None.
Proof.
  split.
  - apply (proj1 parse_filename_spec
             (txt "EIS/12_KReO4 + Na2SO4 pH 4 CAP (Nyquist and Bode).txt")
             (txt "12") (txt "KReO4 + Na2SO4")
             (txt " pH 4 CAP (Nyquist and Bode).txt")
             (Some (txt "pH 4")) (txt "CAP")).
    + reflexivity.
    + discriminate.
    + reflexivity.
    + discriminate.
    + reflexivity.
    + apply (@tail_with_ph _ " " " " " " " " (txt "4") (txt "CAP")
               (txt "Nyquist and Bode") (txt ".txt"));
        first [reflexivity | discriminate | simpl; tauto].
    + apply first_splitb_sound. reflexivity.
  - apply (proj2 parse_filename_spec). intros R.
    apply recognisedb_complete in R. vm_compute in R. discriminate R.
Defined.

(** C1 as stated fails: this name is of the stated form with chemical field
    [A OCP (Bode)] and condition [CAP], and it is parsed into chemical [A]
    and condition [OCP], the split with the shorter chemical field. *)
Lemma parse_filename_longer_split :
  let filename := txt "1_A OCP (Bode) CAP (Nyquist).txt" in
  main_form filename (txt "1") (txt "A OCP (Bode)") None (txt "CAP")
  /\ option_map chemical (parse_filename filename) = Some (txt "A")
  /\ option_map condition (parse_filename filename) = Some (txt "OCP")
  /\ option_map chemical (parse_filename filename)
     <> Some (strip (txt "A OCP (Bode)"))
  /\ option_map condition (parse_filename filename) <> Some (txt "CAP").
Proof.
  repeat split; try (vm_compute; congruence).
  exists (txt " CAP (Nyquist).txt"). repeat split; try discriminate.
  apply (@tail_without_ph _ " " " " (txt "CAP") (txt "Nyquist") (txt ".txt"));
    first [reflexivity | simpl; tauto].
Qed.

End EisFacts.

(** ** Traces *)

Module IoFacts.

Lemma trace_bind {A B} (m : io A) (k : A -> io B) :
  trace (bind m k)
  = trace m ++ match outcome m with
               | Ok a => trace (k a)
               | Raise _ => []
               end.
Proof.
  destruct m as [t [a|e]]; simpl.
  - now destruct (k a).
  - now rewrite app_nil_r.
Qed.

Lemma outcome_bind {A B} (m : io A) (k : A -> io B) :
  outcome (bind m k)
  = match outcome m with
    | Ok a => outcome (k a)
    | Raise e => Raise e
    end.
Proof. destruct m as [t [a|e]]; simpl; [now destruct (k a)|reflexivity]. Qed.

Lemma trace_try {A} (m : io A) (h : exn -> io A) :
  trace (try_except m h)
  = trace m ++ match outcome m with
               | Ok _ => []
               | Raise e => trace (h e)
               end.
Proof.
  destruct m as [t [a|e]]; simpl.
  - now rewrite app_nil_r.
  - now destruct (h e).
Qed.

Lemma outcome_try {A} (m : io A) (h : exn -> io A) :
  outcome (try_except m h)
  = match outcome m with
    | Ok a => Ok a
    | Raise e => outcome (h e)
    end.
Proof. destruct m as [t [a|e]]; simpl; [reflexivity|now destruct (h e)]. Qed.

Section Always.

Variable P : event -> Prop.

Local Abbreviation always := (IoSpec.always P).

Lemma always_ret {A} (a : A) : always (ret a).
Proof. constructor. Qed.

Lemma always_raise {A} e : always (@raise A e).
Proof. constructor. Qed.

Lemma always_lift {A} (r : result A) : always (lift r).
Proof. constructor. Qed.

Lemma always_emit e : P e -> always (emit e).
Proof. intros H. now repeat constructor. Qed.

Lemma always_bind {A B} (m : io A) (k : A -> io B) :
  always m -> (forall a, outcome m = Ok a -> always (k a)) ->
  always (bind m k).
Proof.
  unfold IoSpec.always. intros Hm Hk. rewrite trace_bind. apply Forall_app.
  split; [assumption|]. destruct (outcome m); [now apply Hk|constructor].
Qed.

Lemma always_try {A} (m : io A) (h : exn -> io A) :
  always m -> (forall e, outcome m = Raise e -> always (h e)) ->
  always (try_except m h).
Proof.
  unfold IoSpec.always. intros Hm Hh. rewrite trace_try. apply Forall_app.
  split; [assumption|]. destruct (outcome m); [constructor|now apply Hh].
Qed.

Lemma always_for_each {A} (xs : list A) (body : A -> io unit) :
  (forall x, In x xs -> always (body x)) -> always (for_each xs body).
Proof.
  induction xs as [|x xs IH]; intros H; simpl.
  - constructor.
  - apply always_bind; [apply H; now left|].
    intros _ _. apply IH. intros y Hy. apply H. now right.
Qed.

End Always.

(** One step of a proof that every event of a script satisfies a
    property: follow the structure of the computation. *)
Ltac always_step :=
  first
    [ apply always_ret | apply always_raise | apply always_lift
    | apply always_emit; simpl; auto
    | apply always_bind; [|intros ? ?]
    | apply always_try; [|intros ? ?]
    | apply always_for_each; intros ? ?
    | match goal with
      | |- IoSpec.always _ (match ?x with _ => _ end) => destruct x
      | |- IoSpec.always _ (if ?x then _ else _) => destruct x
      | |- IoSpec.always _ (let (_, _) := ?x in _) => destruct x
      end ].

End IoFacts.

(** ** The delimiter of every read *)

Module Delimiters.
Import IoSpec IoFacts.

Lemma read_with w path sep : always (reads_with sep) (pd_read_csv w path sep).
Proof. unfold pd_read_csv. repeat always_step. Qed.

#[local] Hint Resolve read_with : core.

Lemma ca_loop w dir files : forall i,
  always (reads_with tab) (Ca.loop w dir files i).
Proof.
  induction files as [|f files IH]; intros i; cbn [Ca.loop].
  - always_step.
  - always_step; [|apply IH]. unfold Ca.step. repeat always_step.
Qed.

Lemma ca_save w out : always (reads_with tab) (Ca.save w out).
Proof. unfold Ca.save. repeat always_step. Qed.

Lemma ca w dir out :
  always (reads_with tab) (Ca.generate_styled_plot w dir out).
Proof.
  unfold Ca.generate_styled_plot, Ca.configure.
  repeat first [apply ca_loop | apply ca_save | always_step].
Qed.

Lemma caj_systems w ax paths : forall i,
  always (reads_with tab) (CaJ.plot_systems w ax paths i).
Proof.
  induction paths as [|p paths IH]; intros i; cbn [CaJ.plot_systems].
  - always_step.
  - always_step; [|apply IH]. unfold CaJ.plot_system. repeat always_step.
Qed.

Lemma caj_panels w a g cu keys : forall i,
  always (reads_with tab) (CaJ.panels w a g cu i keys).
Proof.
  induction keys as [|k keys IH]; intros i; cbn [CaJ.panels].
  - always_step.
  - unfold subscript, CaJ.plot_reference.
    repeat first [apply caj_systems | apply IH | always_step].
Qed.

Lemma caj w dir out :
  always (reads_with tab) (CaJ.generate_ca_subplots w dir out).
Proof.
  unfold CaJ.generate_ca_subplots, subplots, subscript_last.
  repeat first [apply caj_panels | apply ca_save | always_step].
Qed.

Lemma lsv_curve w ax path label st :
  always (reads_with tab) (Lsv.plot_curve w ax path label st).
Proof. unfold Lsv.plot_curve. repeat always_step. Qed.

Lemma lsv w : always (reads_with tab) (Lsv.plot_lsv_data w).
Proof.
  unfold Lsv.plot_lsv_data, Lsv.panel.
  repeat first [apply lsv_curve | always_step].
Qed.

Lemma eis_load w files :
  always (reads_with Eis.semicolon) (Eis.load_eis_data w files).
Proof.
  unfold Eis.load_eis_data.
  repeat first [apply read_with | always_step].
Qed.

Lemma eis w : always (reads_with Eis.semicolon) (Eis.plot_eis_data w).
Proof.
  unfold Eis.plot_eis_data, Eis.cell, Eis.plot_experiment, Eis.save_figure.
  repeat first [apply eis_load | always_step].
Qed.

(** C4.  Every [read_csv] of the CA and LSV scripts uses the tab as
    separator, every [read_csv] of the EIS script the semicolon. *)
Theorem delimiters (w : World) (dir out : text) :
  always (reads_with ["009"%char]) (Ca.generate_styled_plot w dir out)
  /\ always (reads_with ["009"%char])
       (CaJ.generate_ca_subplots w dir out)
  /\ always (reads_with ["009"%char])
       (Lsv.plot_lsv_data w)
  /\ always (reads_with [";"%char]) (Eis.plot_eis_data w)
  /\ (forall files,
        always (reads_with [";"%char]) (Eis.load_eis_data w files)).
Proof.
  repeat split; [apply ca|apply caj|apply lsv|apply eis|].
  intros files. apply eis_load.
Qed.

End Delimiters.

(** ** A directory that does not exist *)

Module MissingDirectory.
Import IoSpec.

(** C6.  When the directory does not exist both CA scripts print the
    error and return: nothing is read, nothing is saved. *)
Theorem no_directory_no_output (w : World) (dir out : text) :
  listdir w dir = Raise FileNotFoundError ->
  Ca.generate_styled_plot w dir out
  = ([Subplots 0 1 1; Printed (DirNotFound dir)], Ok tt)
  /\ CaJ.generate_ca_subplots w dir out = ([Printed (DirNotFound dir)], Ok tt)
  /\ existsb is_read (trace (Ca.generate_styled_plot w dir out)) = false
  /\ existsb is_save (trace (Ca.generate_styled_plot w dir out)) = false
  /\ existsb is_read (trace (CaJ.generate_ca_subplots w dir out)) = false
  /\ existsb is_save (trace (CaJ.generate_ca_subplots w dir out)) = false.
Proof.
  intros H. unfold Ca.generate_styled_plot, CaJ.generate_ca_subplots.
  rewrite H. repeat split.
Qed.

Lemma no_directory_no_output_witness :
  Ca.generate_styled_plot Demo.nothing (txt "CAs/") (txt "ca.tiff")
  = ([Subplots 0 1 1; Printed (DirNotFound (txt "CAs/"))], Ok tt)
  /\ CaJ.generate_ca_subplots Demo.nothing (txt "CAs/") (txt "ca.tiff")
     = ([Printed (DirNotFound (txt "CAs/"))], Ok tt).
Proof.
  destruct (@no_directory_no_output Demo.nothing (txt "CAs/")
              (txt "ca.tiff") eq_refl) as (H1 & H2 & _).
  split; [exact H1|exact H2].
Defined.

End MissingDirectory.

(** ** plot_eis.py: [load_eis_data] *)

Module EisLoad.
Import Eis IoFacts.

Lemma drop_suffixed_labels df suffix name col :
  In (name, col) (drop_suffixed df suffix) -> endswith name suffix = false.
Proof.
  unfold drop_suffixed. intros H. apply filter_In in H.
  destruct H as [_ H]. simpl in H. now apply negb_true_iff in H.
Qed.

(** C10.  [load_eis_data] never lets an exception out; it returns [None]
    for a list of neither one nor two files and whenever a read or the merge
    raises; the frame it returns for two files has no label ending in
    [_y]. *)
Theorem load_eis_data_spec (w : World) :
  (forall files,
      List.length files <> 1 -> List.length files <> 2 ->
      load_eis_data w files = ([], Ok None))
  /\ (forall files, exists o, outcome (load_eis_data w files) = Ok o)
  /\ (forall f e,
        read_csv w f (txt ";") = Raise e ->
        outcome (load_eis_data w [f]) = Ok None)
  /\ (forall f1 f2 e,
        read_csv w f1 (txt ";") = Raise e
        \/ read_csv w f2 (txt ";") = Raise e ->
        outcome (load_eis_data w [f1; f2]) = Ok None)
  /\ (forall f1 f2 df1 df2 e,
        read_csv w f1 (txt ";") = Ok df1 ->
        read_csv w f2 (txt ";") = Ok df2 ->
        (if negb (has_column df2 (txt "Z' (Ω)")) then merge w df1 df2
         else merge w df2 df1) = Raise e ->
        outcome (load_eis_data w [f1; f2]) = Ok None)
  /\ (forall f1 f2 df,
        outcome (load_eis_data w [f1; f2]) = Ok (Some df) ->
        forall name col, In (name, col) df -> endswith name (txt "_y") = false).
Proof.
  repeat split.
  - intros [|f1 [|f2 [|f3 files]]] H1 H2; simpl in *;
      first [reflexivity | contradiction].
  - intros [|f1 [|f2 [|f3 files]]]; unfold load_eis_data, pd_read_csv;
      simpl; eauto.
    + destruct (read_csv w f1 semicolon); simpl; eauto.
    + destruct (read_csv w f1 semicolon) as [df1|]; simpl; eauto.
      destruct (read_csv w f2 semicolon) as [df2|]; simpl; eauto.
      destruct (negb (has_column df2 z_real)); simpl.
      * destruct (merge w df1 df2); simpl; eauto.
      * destruct (merge w df2 df1); simpl; eauto.
  - intros f e H. change (txt ";") with semicolon in H.
    unfold load_eis_data, pd_read_csv. simpl. now rewrite H.
  - intros f1 f2 e H. change (txt ";") with semicolon in H.
    unfold load_eis_data, pd_read_csv. simpl.
    destruct H as [H|H].
    + now rewrite H.
    + destruct (read_csv w f1 semicolon); [|reflexivity]. simpl.
      now rewrite H.
  - intros f1 f2 df1 df2 e H1 H2 H.
    change (txt ";") with semicolon in H1, H2.
    change (txt "Z' (Ω)") with z_real in H.
    unfold load_eis_data, pd_read_csv. simpl.
    rewrite H1. simpl. rewrite H2. simpl.
    destruct (negb (has_column df2 z_real)); now rewrite H.
  - intros f1 f2 df H name col Hin.
    unfold load_eis_data, pd_read_csv in H. simpl in H.
    destruct (read_csv w f1 semicolon) as [df1|]; simpl in H;
      [|discriminate].
    destruct (read_csv w f2 semicolon) as [df2|]; simpl in H;
      [|discriminate].
    destruct (negb (has_column df2 z_real)); simpl in H.
    + destruct (merge w df1 df2); simpl in H; [|discriminate].
      inversion H; subst. eapply drop_suffixed_labels; eassumption.
    + destruct (merge w df2 df1); simpl in H; [|discriminate].
      inversion H; subst. eapply drop_suffixed_labels; eassumption.
Qed.

Lemma load_eis_data_spec_witness :
  load_eis_data Demo.eis_files [txt "a"; txt "b"; txt "c"] = ([], Ok None)
  /\ outcome (load_eis_data Demo.eis_files [txt "EIS/none.txt"]) = Ok None
  /\ outcome (load_eis_data Demo.eis_files
                [txt "EIS/none.txt"; txt "EIS/1_KReO4 pH 1 OCP (Bode).txt"])
     = Ok None
  /\ exists df,
       outcome (load_eis_data Demo.eis_files
                  [txt "EIS/1_KReO4 pH 1 OCP (Nyquist).txt";
                   txt "EIS/1_KReO4 pH 1 OCP (Bode).txt"]) = Ok (Some df)
       /\ map fst df = [frequency; z_abs; phase; z_real; z_imag]
       /\ forall name col,
            In (name, col) df -> endswith name (txt "_y") = false.
Proof.
  destruct (load_eis_data_spec Demo.eis_files)
    as (H1 & _ & H3 & H4 & _ & H6).
  split; [apply H1; simpl; lia|].
  split; [apply (H3 _ FileNotFoundError); reflexivity|].
  split; [apply (H4 _ _ FileNotFoundError); left; reflexivity|].
  eexists. split; [vm_compute; reflexivity|].
  split; [reflexivity|].
  apply (H6 (txt "EIS/1_KReO4 pH 1 OCP (Nyquist).txt")
            (txt "EIS/1_KReO4 pH 1 OCP (Bode).txt")).
  vm_compute. reflexivity.
Defined.

End EisLoad.

(** ** Frames *)

Module PandasFacts.

Lemma text_eqb_eq s t : text_eqb s t = true <-> s = t.
Proof.
  unfold text_eqb. destruct (list_eq_dec ascii_dec s t); split;
    congruence.
Qed.

Lemma text_eqb_refl s : text_eqb s s = true.
Proof. now apply text_eqb_eq. Qed.

Lemma text_eqb_neq s t : s <> t -> text_eqb s t = false.
Proof.
  intros H. destruct (text_eqb s t) eqn:E; [|reflexivity].
  now apply text_eqb_eq in E.
Qed.

Lemma has_column_getitem df name c :
  getitem df name = Ok c -> has_column df name = true.
Proof.
  induction df as [|[n c'] df IH]; simpl; [discriminate|].
  destruct (text_eqb n name); [reflexivity|]. exact IH.
Qed.

Lemma getitem_has_column df name :
  has_column df name = true -> exists c, getitem df name = Ok c.
Proof.
  induction df as [|[n c'] df IH]; simpl; [discriminate|].
  destruct (text_eqb n name); simpl; eauto.
Qed.

Lemma getitem_setitem_same df name c :
  getitem (setitem df name c) name = Ok c.
Proof.
  induction df as [|[n c'] df IH]; simpl.
  - now rewrite text_eqb_refl.
  - destruct (text_eqb n name) eqn:E; simpl; rewrite E; auto.
Qed.

Lemma getitem_setitem_other df name other c :
  name <> other ->
  getitem (setitem df name c) other = getitem df other.
Proof.
  intros N. induction df as [|[n c'] df IH]; simpl.
  - now rewrite (text_eqb_neq N).
  - destruct (text_eqb n name) eqn:E; simpl.
    + apply text_eqb_eq in E. subst n. now rewrite (text_eqb_neq N).
    + now rewrite IH.
Qed.

End PandasFacts.

(** ** Minutes and current density *)

Module UnitsFacts.
Import PandasFacts Units IoSpec IoFacts.

Ltac distinct := vm_compute; discriminate.

(** What the two steps of the time normalisation give. *)
Lemma shifted_minutes t :
  (t0 <-- iloc0 t ;; shifted <-- sub t t0 ;; div shifted 60%Z)
  = match minutes_from_first t with
    | Some x => Ok x
    | None =>
        match t with
        | ObjCol (_ :: _) => Raise TypeError
        | _ => Raise IndexError
        end
    end.
Proof.
  destruct t as [[|t0 ts]|[|t0 ts]|[|t0 ts]]; try reflexivity.
  - cbn [and_then iloc0 sub div minutes_from_first]. now rewrite map_map.
  - cbn [and_then iloc0 sub div minutes_from_first]. now rewrite map_map.
Qed.

Lemma mul_div_density i area :
  mul_div i 1000%Z area
  = match density_of area i with
    | Some j => Ok j
    | None => Raise TypeError
    end.
Proof. destruct i as [v|v|[|s ss]]; reflexivity. Qed.

Lemma ca_curve_unfold data t :
  getitem data Ca.time_col_s = Ok t ->
  has_column data Ca.charge_col = true ->
  Ca.curve data
  = (x <-- (t0 <-- iloc0 t ;; shifted <-- sub t t0 ;; div shifted 60%Z) ;;
     y <-- getitem data Ca.charge_col ;;
     Ok (Some (x, y))).
Proof.
  intros Ht Hc. unfold Ca.curve.
  rewrite (has_column_getitem _ _ Ht), Hc, Ht. cbn [andb and_then].
  destruct (iloc0 t) as [t0|e]; [|reflexivity]. cbn [and_then].
  destruct (sub t t0) as [shifted|e]; [|reflexivity]. cbn [and_then].
  rewrite getitem_setitem_same. cbn [and_then].
  destruct (div shifted 60%Z) as [minutes|e]; [|reflexivity].
  cbn [and_then]. rewrite getitem_setitem_same. cbn [and_then].
  now rewrite !getitem_setitem_other by distinct.
Qed.

Lemma ca_curve_minutes data t x y :
  getitem data Ca.time_col_s = Ok t ->
  minutes_from_first t = Some x ->
  getitem data Ca.charge_col = Ok y ->
  Ca.curve data = Ok (Some (x, y)).
Proof.
  intros Ht Hx Hy.
  rewrite (ca_curve_unfold _ Ht (has_column_getitem _ _ Hy)).
  now rewrite shifted_minutes, Hx, Hy.
Qed.

Lemma ca_curve_inv data x y :
  Ca.curve data = Ok (Some (x, y)) ->
  exists t,
    getitem data Ca.time_col_s = Ok t /\
    minutes_from_first t = Some x /\
    getitem data Ca.charge_col = Ok y.
Proof.
  intros H. pose proof H as H0. unfold Ca.curve in H0.
  destruct (has_column data Ca.time_col_s) eqn:E1; [|discriminate].
  destruct (has_column data Ca.charge_col) eqn:E2; [|discriminate].
  clear H0. apply getitem_has_column in E1. destruct E1 as (t & Ht).
  rewrite (ca_curve_unfold _ Ht E2), shifted_minutes in H.
  exists t. split; [exact Ht|].
  destruct (minutes_from_first t) as [x'|];
    [|destruct t as [?|?|[|? ?]]; discriminate].
  cbn [and_then] in H.
  destruct (getitem data Ca.charge_col) as [y'|e]; [|discriminate].
  inversion H; subst. auto.
Qed.

Lemma caj_curve_unfold data t i :
  getitem data CaJ.time_col_s = Ok t ->
  getitem data CaJ.current_col = Ok i ->
  CaJ.curve data
  = (x <-- (t0 <-- iloc0 t ;; shifted <-- sub t t0 ;; div shifted 60%Z) ;;
     y <-- mul_div i 1000%Z CaJ.ELECTRODE_AREA_CM2 ;;
     Ok (Some (x, y))).
Proof.
  intros Ht Hi. unfold CaJ.curve.
  rewrite (has_column_getitem _ _ Ht), (has_column_getitem _ _ Hi), Ht.
  cbn [andb and_then].
  destruct (iloc0 t) as [t0|e]; [|reflexivity]. cbn [and_then].
  destruct (sub t t0) as [shifted|e]; [|reflexivity]. cbn [and_then].
  destruct (div shifted 60%Z) as [minutes|e]; [|reflexivity].
  cbn [and_then]. rewrite getitem_setitem_other, Hi by distinct.
  cbn [and_then].
  destruct (mul_div i 1000%Z CaJ.ELECTRODE_AREA_CM2) as [j|e];
    [|reflexivity].
  cbn [and_then].
  rewrite getitem_setitem_other, getitem_setitem_same by distinct.
  cbn [and_then]. now rewrite getitem_setitem_same.
Qed.

Lemma caj_curve_minutes data t x i y :
  getitem data CaJ.time_col_s = Ok t ->
  minutes_from_first t = Some x ->
  getitem data CaJ.current_col = Ok i ->
  density_of CaJ.ELECTRODE_AREA_CM2 i = Some y ->
  CaJ.curve data = Ok (Some (x, y)).
Proof.
  intros Ht Hx Hi Hy. rewrite (caj_curve_unfold _ Ht Hi).
  now rewrite shifted_minutes, Hx, mul_div_density, Hy.
Qed.

Lemma caj_curve_inv data x y :
  CaJ.curve data = Ok (Some (x, y)) ->
  in_minutes data x y /\ as_density CaJ.ELECTRODE_AREA_CM2 data x y.
Proof.
  intros H. pose proof H as H0. unfold CaJ.curve in H0.
  destruct (has_column data CaJ.time_col_s) eqn:E1; [|discriminate].
  destruct (has_column data CaJ.current_col) eqn:E2; [|discriminate].
  clear H0. apply getitem_has_column in E1, E2.
  destruct E1 as (t & Ht). destruct E2 as (i & Hi).
  rewrite (caj_curve_unfold _ Ht Hi), shifted_minutes, mul_div_density in H.
  destruct (minutes_from_first t) as [x'|] eqn:Hx;
    [|destruct t as [?|?|[|? ?]]; discriminate].
  cbn [and_then] in H.
  destruct (density_of CaJ.ELECTRODE_AREA_CM2 i) as [y'|] eqn:Hy;
    [|discriminate].
  inversion H; subst. split; [now exists t|now exists i].
Qed.

Lemma outcome_read w path sep data :
  outcome (pd_read_csv w path sep) = Ok data -> read_csv w path sep = Ok data.
Proof. unfold pd_read_csv. rewrite outcome_bind. simpl. auto. Qed.

Lemma outcome_lift {A} (r : result A) a : outcome (lift r) = Ok a -> r = Ok a.
Proof. auto. Qed.

End UnitsFacts.

(** ** plot_ca.py: the loop over the files *)

Module CaFacts.
Import PandasFacts IoSpec IoFacts.

Lemma step_ok w dir f i : exists j, outcome (Ca.step w dir f i) = Ok j.
Proof.
  unfold Ca.step, pd_read_csv. destruct (Ca.plot_label f) as [label|];
    [|simpl; eauto].
  cbv zeta. destruct (read_csv w (OsPath.join dir f) tab) as [data|e];
    [|simpl; eauto].
  simpl. destruct (Ca.curve data) as [[[x y]|]|e]; simpl; eauto.
Qed.

Lemma loop_ok w dir files : forall i,
  exists k, outcome (Ca.loop w dir files i) = Ok k.
Proof.
  induction files as [|f files IH]; intros i; cbn [Ca.loop].
  - simpl. eauto.
  - rewrite outcome_bind. destruct (step_ok w dir f i) as (j & ->).
    apply IH.
Qed.

Lemma loop_app w dir l1 l2 : forall i,
  Ca.loop w dir (l1 ++ l2) i
  = bind (Ca.loop w dir l1 i) (fun j => Ca.loop w dir l2 j).
Proof.
  induction l1 as [|f l1 IH]; intros i; cbn [Ca.loop app].
  - simpl. now destruct (Ca.loop w dir l2 i).
  - destruct (Ca.step w dir f i) as [t [j|e]]; simpl; [|reflexivity].
    rewrite IH. destruct (Ca.loop w dir l1 j) as [t1 [k|e]]; simpl.
    + destruct (Ca.loop w dir l2 k). now rewrite app_assoc.
    + reflexivity.
Qed.

Lemma io_eta {A} (m : io A) : m = (trace m, outcome m).
Proof. now destruct m. Qed.

(** Every file of the list gets its turn, whatever happened before. *)
Lemma loop_split w dir before f after :
  exists i j k,
    outcome (Ca.loop w dir before 0) = Ok i /\
    outcome (Ca.step w dir f i) = Ok j /\
    Ca.loop w dir (before ++ f :: after) 0
    = (trace (Ca.loop w dir before 0) ++ trace (Ca.step w dir f i)
         ++ trace (Ca.loop w dir after j), Ok k).
Proof.
  destruct (loop_ok w dir before 0) as (i & Hi).
  destruct (step_ok w dir f i) as (j & Hj).
  destruct (loop_ok w dir after j) as (k & Hk).
  exists i, j, k. repeat split; try assumption.
  rewrite loop_app. cbn [Ca.loop].
  etransitivity; [apply io_eta|].
  rewrite !trace_bind, !outcome_bind, Hi, !trace_bind, !outcome_bind, Hj, Hk.
  reflexivity.
Qed.

Lemma save_trace w out :
  exists m, Ca.save w out = ([SaveFig 0 out; Printed m], Ok tt).
Proof.
  unfold Ca.save. destruct (savefig w out) as [[]|e]; simpl; eauto.
Qed.

(** The shape of a whole run on a directory that exists. *)
Lemma run_shape w dir out names :
  listdir w dir = Ok names ->
  exists m,
    Ca.generate_styled_plot w dir out
    = (Subplots 0 1 1
         :: trace (Ca.loop w dir (sorted (filter Ca.is_txt names)) 0)
         ++ trace Ca.configure ++ [SaveFig 0 out; Printed m], Ok tt).
Proof.
  intros Hl. destruct (save_trace w out) as (m & Hs). exists m.
  destruct (loop_ok w dir (sorted (filter Ca.is_txt names)) 0) as (k & Hk).
  unfold Ca.generate_styled_plot. rewrite Hl.
  etransitivity; [apply io_eta|].
  rewrite !trace_bind, !outcome_bind, Hk, Hs. reflexivity.
Qed.

(** C5.  In [generate_styled_plot] a recognised file whose read or
    processing raises, or which lacks a required column, leaves its read and
    one message and no curve; every file of the directory has its turn; and
    after the files the title, the two axis labels, the legend and the grid
    are set, [savefig] is called and its outcome printed. *)
Theorem a_bad_file_is_only_reported (w : World) (dir out : text)
    (names : list text) :
  listdir w dir = Ok names ->
  let files := sorted (filter Ca.is_txt names) in
  (forall f label i,
      Ca.plot_label f = Some label ->
      let path := OsPath.join dir f in
      (forall e,
          read_csv w path tab = Raise e ->
          Ca.step w dir f i
          = ([ReadCsv path tab; Printed (ProcessingError f e)], Ok i))
      /\ (forall data e,
            read_csv w path tab = Ok data -> Ca.curve data = Raise e ->
            Ca.step w dir f i
            = ([ReadCsv path tab; Printed (ProcessingError f e)], Ok i))
      /\ (forall data,
            read_csv w path tab = Ok data ->
            has_column data (txt "Time (s)")
            && has_column data (txt "WE(1).Charge (C)") = false ->
            Ca.step w dir f i
            = ([ReadCsv path tab; Printed (MissingColumns f)], Ok i)))
  /\ (forall before f after,
        files = before ++ f :: after ->
        exists i j k,
          outcome (Ca.loop w dir before 0) = Ok i /\
          outcome (Ca.step w dir f i) = Ok j /\
          Ca.loop w dir files 0
          = (trace (Ca.loop w dir before 0) ++ trace (Ca.step w dir f i)
               ++ trace (Ca.loop w dir after j), Ok k))
  /\ Ca.generate_styled_plot w dir out
     = (Subplots 0 1 1 :: trace (Ca.loop w dir files 0)
          ++ [AxCall 0 0 (txt "set_title")
                (txt "Combined Chronoamperometry Analysis (Time Normalised)");
              AxCall 0 0 (txt "set_xlabel") (txt "Time (min)");
              AxCall 0 0 (txt "set_ylabel") (txt "Charge ($C$)");
              AxCall 0 0 (txt "legend") (txt "System");
              AxCall 0 0 (txt "grid") (txt "--");
              SaveFig 0 out;
              Printed match savefig w out with
                      | Ok _ => Saved out
                      | Raise e => SaveError e
                      end], Ok tt).
Proof.
  intros Hl files. split; [|split].
  - intros f label i Hlab path. unfold Ca.step, pd_read_csv. cbv zeta.
    rewrite Hlab. fold path. repeat split.
    + intros e Hr. rewrite Hr. reflexivity.
    + intros data e Hr Hc. rewrite Hr. simpl. rewrite Hc. reflexivity.
    + intros data Hr Hc. rewrite Hr. simpl.
      unfold Ca.curve. change Ca.time_col_s with (txt "Time (s)").
      change Ca.charge_col with (txt "WE(1).Charge (C)").
      rewrite Hc. reflexivity.
  - intros before f after ->. apply loop_split.
  - destruct (loop_ok w dir files 0) as (k & Hk).
    unfold Ca.generate_styled_plot. rewrite Hl. fold files.
    etransitivity; [apply io_eta|].
    rewrite !trace_bind, !outcome_bind, Hk.
    unfold Ca.save. destruct (savefig w out) as [[]|e]; reflexivity.
Qed.

End CaFacts.

(** ** [sorted] *)

Module SortedFacts.
Import IoSpec.

Lemma code_inj a b : code a = code b -> a = b.
Proof.
  unfold code. intros H.
  rewrite <- (ascii_nat_embedding a), <- (ascii_nat_embedding b).
  now rewrite H.
Qed.

Lemma text_leb_total : forall s t, text_leb s t = true \/ text_leb t s = true.
Proof.
  induction s as [|a s IH]; intros [|b t]; simpl; auto.
  destruct (Nat.ltb_spec (code a) (code b)); auto.
  destruct (Nat.ltb_spec (code b) (code a)); auto.
Qed.

Lemma text_leb_antisym : forall s t,
  text_leb s t = true -> text_leb t s = true -> s = t.
Proof.
  induction s as [|a s IH]; intros [|b t]; simpl; try discriminate; auto.
  destruct (Nat.ltb_spec (code a) (code b));
    destruct (Nat.ltb_spec (code b) (code a));
    try discriminate; try lia.
  intros H1 H2. f_equal; [apply code_inj; lia|now apply IH].
Qed.

Lemma text_leb_trans : forall s t u,
  text_leb s t = true -> text_leb t u = true -> text_leb s u = true.
Proof.
  induction s as [|a s IH]; intros [|b t] [|c u]; simpl;
    try discriminate; auto.
  destruct (Nat.ltb_spec (code a) (code b));
    destruct (Nat.ltb_spec (code b) (code a));
    destruct (Nat.ltb_spec (code b) (code c));
    destruct (Nat.ltb_spec (code c) (code b));
    destruct (Nat.ltb_spec (code a) (code c));
    destruct (Nat.ltb_spec (code c) (code a));
    try discriminate; try lia; auto.
  apply IH.
Qed.

Lemma text_leb_false s t : text_leb s t = false -> text_leb t s = true.
Proof. destruct (text_leb_total s t); congruence. Qed.

Lemma insert_comm x y : forall l,
  insert x (insert y l) = insert y (insert x l).
Proof.
  induction l as [|h l IH]; simpl.
  - destruct (text_leb x y) eqn:Exy, (text_leb y x) eqn:Eyx; trivial.
    + now rewrite (text_leb_antisym _ _ Exy Eyx).
    + apply text_leb_false in Exy. congruence.
  - destruct (text_leb y h) eqn:Eyh, (text_leb x h) eqn:Exh; simpl.
    + destruct (text_leb x y) eqn:Exy, (text_leb y x) eqn:Eyx;
        rewrite ?Eyh, ?Exh; trivial.
      * now rewrite (text_leb_antisym _ _ Exy Eyx).
      * apply text_leb_false in Exy. congruence.
    + destruct (text_leb x y) eqn:Exy; rewrite ?Eyh, ?Exh; trivial.
      rewrite (text_leb_trans _ _ _ Exy Eyh) in Exh. discriminate.
    + destruct (text_leb y x) eqn:Eyx; rewrite ?Eyh, ?Exh; trivial.
      rewrite (text_leb_trans _ _ _ Eyx Exh) in Eyh. discriminate.
    + rewrite Eyh, Exh. now rewrite IH.
Qed.

(** The result of [sorted] depends on the names only, not on their order. *)
Lemma sorted_permutation l1 l2 : Permutation l1 l2 -> sorted l1 = sorted l2.
Proof.
  induction 1; simpl.
  - reflexivity.
  - now rewrite IHPermutation.
  - apply insert_comm.
  - congruence.
Qed.

Lemma insert_perm x : forall l, Permutation (x :: l) (insert x l).
Proof.
  induction l as [|h l IH]; simpl; [reflexivity|].
  destruct (text_leb x h); [reflexivity|].
  rewrite perm_swap. now apply perm_skip.
Qed.

Lemma sorted_perm l : Permutation l (sorted l).
Proof.
  induction l as [|x l IH]; simpl; [reflexivity|].
  rewrite <- insert_perm. now apply perm_skip.
Qed.

Lemma insert_sorted x : forall l,
  StronglySorted text_le l -> StronglySorted text_le (insert x l).
Proof.
  induction l as [|h l IH]; intros S; simpl.
  - repeat constructor.
  - inversion S as [|? ? S' F]; subst.
    destruct (text_leb x h) eqn:E.
    + constructor; [assumption|]. constructor; [exact E|].
      eapply Forall_impl; [|exact F]. intros z Hz.
      exact (text_leb_trans _ _ _ E Hz).
    + constructor; [now apply IH|].
      eapply Permutation_Forall; [apply insert_perm|].
      constructor; [now apply text_leb_false|assumption].
Qed.

Lemma sorted_sorted l : StronglySorted text_le (sorted l).
Proof.
  induction l as [|x l IH]; simpl; [constructor|now apply insert_sorted].
Qed.

Lemma filter_permutation {A} (f : A -> bool) l1 l2 :
  Permutation l1 l2 -> Permutation (filter f l1) (filter f l2).
Proof.
  induction 1; simpl.
  - reflexivity.
  - destruct (f x); [now apply perm_skip|assumption].
  - destruct (f x), (f y); try reflexivity. apply perm_swap.
  - etransitivity; eassumption.
Qed.

End SortedFacts.

(** ** plot_ca.py: order and styles *)

Module CaOrder.
Import IoSpec IoFacts SortedFacts CaFacts.

Section TwoWorlds.

Variables w1 w2 : World.
Hypothesis same_files : forall p s, read_csv w1 p s = read_csv w2 p s.
Hypothesis same_disk : forall o, savefig w1 o = savefig w2 o.

Lemma step_ext dir f i : Ca.step w1 dir f i = Ca.step w2 dir f i.
Proof. unfold Ca.step, pd_read_csv. now rewrite same_files. Qed.

Lemma loop_ext dir files : forall i,
  Ca.loop w1 dir files i = Ca.loop w2 dir files i.
Proof.
  induction files as [|f files IH]; intros i; cbn [Ca.loop]; [reflexivity|].
  rewrite step_ext. destruct (Ca.step w2 dir f i) as [t [j|e]]; simpl;
    [now rewrite IH|reflexivity].
Qed.

Lemma save_ext out : Ca.save w1 out = Ca.save w2 out.
Proof. unfold Ca.save. now rewrite same_disk. Qed.

End TwoWorlds.

(** The style of the curve drawn with [plot_index = k]. *)
Lemma step_plots w dir f i :
  (plots (trace (Ca.step w dir f i)) = [] /\
   outcome (Ca.step w dir f i) = Ok i)
  \/ (exists x y label,
        plots (trace (Ca.step w dir f i))
        = [Plot 0 0 x y label
             {| color := None;
                marker := cycle Ca.markers i;
                linestyle := cycle Ca.linestyles i |}] /\
        outcome (Ca.step w dir f i) = Ok (S i)).
Proof.
  unfold Ca.step, pd_read_csv. destruct (Ca.plot_label f) as [label|];
    [|left; split; reflexivity].
  cbv zeta. destruct (read_csv w (OsPath.join dir f) tab) as [data|e];
    [|left; split; reflexivity].
  simpl. destruct (Ca.curve data) as [[[x y]|]|e]; simpl.
  - right. exists x, y, label. split; reflexivity.
  - left. split; reflexivity.
  - left. split; reflexivity.
Qed.

Lemma plots_app t1 t2 : plots (t1 ++ t2) = plots t1 ++ plots t2.
Proof. apply filter_app. Qed.

Lemma loop_plots w dir files : forall i n e,
  nth_error (plots (trace (Ca.loop w dir files i))) n = Some e ->
  exists x y label,
    e = Plot 0 0 x y label
          {| color := None;
             marker := cycle Ca.markers (i + n);
             linestyle := cycle Ca.linestyles (i + n) |}.
Proof.
  induction files as [|f files IH]; intros i n e; cbn [Ca.loop].
  - simpl. destruct n; discriminate.
  - rewrite trace_bind, plots_app.
    destruct (step_plots w dir f i) as [[-> ->]|(x & y & label & -> & ->)].
    + simpl. apply IH.
    + destruct n as [|n]; simpl.
      * intros H. inversion H; subst. rewrite Nat.add_0_r. eauto.
      * intros H. apply IH in H. now rewrite Nat.add_succ_r.
Qed.

Lemma step_reads w dir f i :
  reads (trace (Ca.step w dir f i))
  = if labelled f then [OsPath.join dir f] else [].
Proof.
  unfold Ca.step, pd_read_csv, labelled.
  destruct (Ca.plot_label f) as [label|]; [|reflexivity].
  cbv zeta. destruct (read_csv w (OsPath.join dir f) tab) as [data|e];
    [|reflexivity].
  simpl. destruct (Ca.curve data) as [[[x y]|]|e]; reflexivity.
Qed.

Lemma reads_app t1 t2 : reads (t1 ++ t2) = reads t1 ++ reads t2.
Proof. apply flat_map_app. Qed.

Lemma loop_reads w dir files : forall i,
  reads (trace (Ca.loop w dir files i))
  = map (OsPath.join dir) (filter labelled files).
Proof.
  induction files as [|f files IH]; intros i; cbn [Ca.loop];
    [reflexivity|].
  rewrite trace_bind, reads_app, step_reads.
  destruct (step_ok w dir f i) as (j & ->). rewrite IH. simpl.
  now destruct (labelled f).
Qed.

(** C7.  The names ending in [.txt] are processed in code point order
    whatever order the directory lists them in; two runs on the same names
    and contents do the same; the n-th curve drawn (from 0) has marker
    [n mod 10] and line style [n mod 4] of the two lists. *)
Theorem sorted_and_reproducible (w1 w2 : World) (dir out : text)
    (names1 names2 : list text) :
  listdir w1 dir = Ok names1 ->
  listdir w2 dir = Ok names2 ->
  Permutation names1 names2 ->
  (forall p s, read_csv w1 p s = read_csv w2 p s) ->
  (forall o, savefig w1 o = savefig w2 o) ->
  let files := sorted (filter Ca.is_txt names1) in
  StronglySorted text_le files
  /\ Permutation (filter Ca.is_txt names1) files
  /\ reads (trace (Ca.generate_styled_plot w1 dir out))
     = map (OsPath.join dir) (filter labelled files)
  /\ Ca.generate_styled_plot w1 dir out = Ca.generate_styled_plot w2 dir out
  /\ (forall n e,
        nth_error (plots (trace (Ca.generate_styled_plot w1 dir out))) n
        = Some e ->
        exists x y label,
          e = Plot 0 0 x y label
                {| color := None;
                   marker := nth_error Ca.markers (n mod 10);
                   linestyle := nth_error Ca.linestyles (n mod 4) |}).
Proof.
  intros L1 L2 P R S files.
  destruct (run_shape w1 dir out L1) as (m & T0).
  assert (T : trace (Ca.generate_styled_plot w1 dir out)
              = Subplots 0 1 1 :: trace (Ca.loop w1 dir files 0)
                  ++ trace Ca.configure ++ [SaveFig 0 out; Printed m])
    by now rewrite T0.
  split; [apply sorted_sorted|].
  split; [apply sorted_perm|].
  split; [|split].
  - rewrite T. cbn [reads flat_map app]. fold (reads).
    change (flat_map _ ?t) with (reads t).
    rewrite reads_app, loop_reads. simpl. apply app_nil_r.
  - unfold Ca.generate_styled_plot. rewrite L1, L2.
    rewrite (sorted_permutation (filter_permutation Ca.is_txt P)).
    now rewrite (loop_ext _ _ R), (save_ext _ _ S).
  - intros n e. rewrite T. cbn [plots filter is_plot].
    change (filter is_plot ?t) with (plots t).
    rewrite plots_app, (plots_app (trace Ca.configure)).
    change (plots (trace Ca.configure)) with (@nil event).
    change (plots [SaveFig 0 out; Printed m]) with (@nil event).
    rewrite !app_nil_r. intros H. apply loop_plots in H. exact H.
Qed.

End CaOrder.

(** ** plot_ca_j.py: the copper reference and the pH groups *)

Module CaJFacts.
Import PandasFacts IoSpec IoFacts SortedFacts.

Lemma lookup_append_to g k v key p :
  In p (CaJ.lookup (CaJ.append_to g k v) key) ->
  In p (CaJ.lookup g key) \/ (key = k /\ p = v).
Proof.
  induction g as [|[k' vs] g IH]; simpl.
  - destruct (text_eqb k key) eqn:E; [|intros []].
    apply text_eqb_eq in E. intros [<-|[]]. auto.
  - destruct (text_eqb k' k) eqn:E; simpl.
    + apply text_eqb_eq in E. subst k'.
      destruct (text_eqb k key) eqn:E'; [|auto].
      apply text_eqb_eq in E'. intros H. apply in_app_or in H.
      destruct H as [H|[<-|[]]]; auto.
    + destruct (text_eqb k' key); auto.
Qed.

(** Every path of a pH group is a file without [Cu] in its name. *)
Lemma classify_groups dir files : forall g cu key p,
  In p (CaJ.lookup (fst (CaJ.classify dir files g cu)) key) ->
  In p (CaJ.lookup g key)
  \/ exists f, In f files /\ contains (txt "Cu") f = false /\
               contains (txt "pH") f = true /\ p = OsPath.join dir f.
Proof.
  induction files as [|f files IH]; intros g cu key p; cbn [CaJ.classify].
  - auto.
  - destruct (contains (txt "Cu") f) eqn:Ecu.
    + intros H. apply IH in H. destruct H as [H|(f' & Hf & H)]; [auto|].
      right. exists f'. split; [now right|exact H].
    + destruct (contains (txt "pH") f) eqn:Eph.
      * destruct (re_search Ca.ph_pattern f) as [m|].
        -- intros H. apply IH in H. destruct H as [H|(f' & Hf & H)].
           ++ apply lookup_append_to in H. destruct H as [H|[_ ->]];
                [auto|]. right. exists f. repeat split; auto. now left.
           ++ right. exists f'. split; [now right|exact H].
        -- intros H. apply IH in H. destruct H as [H|(f' & Hf & H)];
             [auto|]. right. exists f'. split; [now right|exact H].
      * intros H. apply IH in H. destruct H as [H|(f' & Hf & H)]; [auto|].
        right. exists f'. split; [now right|exact H].
Qed.

Lemma append_to_keys g k v :
  map fst (CaJ.append_to g k v)
  = if existsb (text_eqb k) (map fst g) then map fst g
    else map fst g ++ [k].
Proof.
  induction g as [|[k' vs] g IH]; simpl; [reflexivity|].
  destruct (text_eqb k' k) eqn:E.
  - apply text_eqb_eq in E. subst k'. now rewrite text_eqb_refl.
  - simpl. rewrite IH.
    destruct (text_eqb k k') eqn:E'.
    + apply text_eqb_eq in E'. subst k'. now rewrite text_eqb_refl in E.
    + simpl. now destruct (existsb (text_eqb k) (map fst g)).
Qed.

Lemma NoDup_snoc {A} (l : list A) k :
  NoDup l -> ~ In k l -> NoDup (l ++ [k]).
Proof.
  induction 1 as [|x l Hx H IH]; intros N; simpl.
  - repeat constructor. intros [].
  - constructor.
    + intros Hin. apply in_app_or in Hin. destruct Hin as [Hin|[<-|[]]].
      * contradiction.
      * apply N. now left.
    + apply IH. intros Hin. apply N. now right.
Qed.

Lemma append_to_distinct g k v :
  NoDup (map fst g) -> NoDup (map fst (CaJ.append_to g k v)).
Proof.
  intros H. rewrite append_to_keys.
  destruct (existsb (text_eqb k) (map fst g)) eqn:E; [assumption|].
  apply NoDup_snoc; [assumption|]. intros Hin.
  assert (existsb (text_eqb k) (map fst g) = true); [|congruence].
  apply existsb_exists. exists k. split; [assumption|apply text_eqb_refl].
Qed.

(** The keys of the groups are distinct. *)
Lemma classify_distinct dir files : forall g cu,
  NoDup (map fst g) ->
  NoDup (map fst (fst (CaJ.classify dir files g cu))).
Proof.
  induction files as [|f files IH]; intros g cu H; cbn [CaJ.classify].
  - assumption.
  - destruct (contains (txt "Cu") f); [now apply IH|].
    destruct (contains (txt "pH") f); [|now apply IH].
    destruct (re_search Ca.ph_pattern f); [|now apply IH].
    apply IH. now apply append_to_distinct.
Qed.

(** The reference is the last file with [Cu] in its name. *)
Lemma classify_reference dir files : forall g cu,
  snd (CaJ.classify dir files g cu)
  = match rev (filter (contains (txt "Cu")) files) with
    | [] => cu
    | f :: _ => Some (OsPath.join dir f)
    end.
Proof.
  induction files as [|f files IH]; intros g cu; cbn [CaJ.classify filter].
  - reflexivity.
  - destruct (contains (txt "Cu") f) eqn:Ecu.
    + rewrite IH. cbn [rev].
      destruct (rev (filter (contains (txt "Cu")) files)); reflexivity.
    + destruct (contains (txt "pH") f);
        [destruct (re_search Ca.ph_pattern f)|]; apply IH.
Qed.

Lemma sorted_last_greatest l :
  StronglySorted text_le l ->
  forall m r, rev l = m :: r -> forall x, In x l -> text_le x m.
Proof.
  induction 1 as [|a l S IH F]; intros m r E x Hx; [destruct Hx|].
  simpl in E. destruct (rev l) as [|m' r'] eqn:El.
  - simpl in E. inversion E; subst.
    assert (l = []) by (apply (f_equal (@rev _)) in El;
                        now rewrite rev_involutive in El).
    subst l. destruct Hx as [<-|[]].
    unfold text_le. destruct (text_leb_total m m); assumption.
  - simpl in E. inversion E; subst.
    assert (Hm : In m l).
    { apply in_rev. rewrite El. now left. }
    destruct Hx as [<-|Hx].
    + rewrite Forall_forall in F. now apply F.
    + eapply IH; [reflexivity|assumption].
Qed.

Lemma filter_sorted (f : text -> bool) l :
  StronglySorted text_le l -> StronglySorted text_le (filter f l).
Proof.
  induction 1 as [|a l S IH F]; simpl; [constructor|].
  destruct (f a); [|assumption]. constructor; [assumption|].
  rewrite Forall_forall in *. intros x Hx. apply filter_In in Hx.
  now apply F.
Qed.

Lemma basename_no_slash f :
  contains [OsPath.sep] f = false -> OsPath.basename f = f.
Proof. destruct f; [reflexivity|]. intros H. cbn [OsPath.basename]. now rewrite H. Qed.

Lemma basename_after_slash f : forall a,
  contains [OsPath.sep] f = false ->
  OsPath.basename (a ++ OsPath.sep :: f) = f.
Proof.
  intros a H. induction a as [|x a IH].
  - pose proof (contains_intro [OsPath.sep] [] f) as C.
    cbn [app] in *. cbn [OsPath.basename]. rewrite C.
    now apply basename_no_slash.
  - pose proof (contains_intro [OsPath.sep] (x :: a) f) as C.
    cbn [app] in *. cbn [OsPath.basename]. now rewrite C.
Qed.

Lemma startswith_inv s p : startswith s p = true -> exists r, s = p ++ r.
Proof.
  unfold startswith. destruct (strip_prefix p s) eqn:E; [|discriminate].
  apply strip_prefix_inv in E. eauto.
Qed.

(** [os.path.join] leaves a name without slash as the last component. *)
Lemma basename_join dir f :
  contains [OsPath.sep] f = false -> OsPath.basename (OsPath.join dir f) = f.
Proof.
  intros H. unfold OsPath.join.
  destruct (startswith f [OsPath.sep]) eqn:E.
  - apply startswith_inv in E. destruct E as (r & ->).
    pose proof (contains_intro [OsPath.sep] [] r) as C.
    cbn [app] in *. congruence.
  - destruct dir as [|d dir]; [now apply basename_no_slash|].
    destruct (endswith (d :: dir) [OsPath.sep]) eqn:E'.
    + unfold endswith in E'. apply startswith_inv in E'.
      destruct E' as (r & E'). apply (f_equal (@rev _)) in E'.
      rewrite rev_involutive, rev_app_distr in E'. simpl in E'.
      rewrite E', <- app_assoc. now apply basename_after_slash.
    + now apply basename_after_slash.
Qed.

Lemma filter_none {A} (f : A -> bool) l :
  (forall x, In x l -> f x = false) -> filter f l = [].
Proof.
  induction l as [|a l IH]; intros H; simpl; [reflexivity|].
  rewrite (H a) by now left. apply IH. intros x Hx. apply H. now right.
Qed.

Lemma in_sorted x l : In x (sorted l) -> In x l.
Proof. apply Permutation_in. symmetry. apply sorted_perm. Qed.

(** C8.  In [generate_ca_subplots] a name with [Cu] in it is the copper
    reference and enters no pH group, pH tag or not; of several such names
    the last in code point order is the reference.  [generate_styled_plot]
    of plot_ca.py looks for [pH] first: there such a name is labelled by its
    pH, or skipped. *)
Theorem cu_before_ph (dir : text) (names : list text) :
  Forall (fun f => contains (txt "/") f = false) names ->
  let files := sorted (filter Ca.is_txt names) in
  let grouped := fst (CaJ.classify dir files [] None) in
  let cu_ref_path := snd (CaJ.classify dir files [] None) in
  (forall f key,
      In f files -> contains (txt "Cu") f = true ->
      ~ In (OsPath.join dir f) (CaJ.lookup grouped key))
  /\ (forall f,
        In f files -> contains (txt "Cu") f = true ->
        exists last,
          cu_ref_path = Some (OsPath.join dir last) /\
          In last files /\ contains (txt "Cu") last = true /\
          forall f', In f' files -> contains (txt "Cu") f' = true ->
                     text_le f' last)
  /\ ((forall f, In f files -> contains (txt "Cu") f = false) ->
      cu_ref_path = None)
  /\ (forall f,
        contains (txt "pH") f = true -> contains (txt "Cu") f = true ->
        (Ca.plot_label f = None
         \/ exists base ph,
              Ca.plot_label f = Some (base ++ txt " (pH " ++ ph ++ txt ")"))
        /\ CaJ.classify dir [f] [] None = ([], Some (OsPath.join dir f))).
Proof.
  intros Hn files grouped cu_ref_path.
  assert (Hslash : forall f, In f files -> contains [OsPath.sep] f = false).
  { intros f Hf. apply in_sorted in Hf. apply filter_In in Hf.
    rewrite Forall_forall in Hn. now apply Hn. }
  split; [|split; [|split]].
  - intros f key Hf Hcu Hin. apply classify_groups in Hin.
    destruct Hin as [[]|(f' & Hf' & Hcu' & _ & E)].
    apply (f_equal OsPath.basename) in E.
    rewrite !basename_join in E by auto. congruence.
  - intros f Hf Hcu. unfold cu_ref_path. rewrite classify_reference.
    assert (Hin : In f (filter (contains (txt "Cu")) files))
      by (apply filter_In; auto).
    destruct (rev (filter (contains (txt "Cu")) files)) as [|m r] eqn:E.
    { apply in_rev in Hin. rewrite E in Hin. destruct Hin. }
    assert (Hm : In m (filter (contains (txt "Cu")) files)).
    { apply in_rev. rewrite E. now left. }
    apply filter_In in Hm. destruct Hm as [Hm Hm'].
    exists m. repeat split; try assumption.
    intros f' Hf' Hcu'.
    apply (sorted_last_greatest
             (filter_sorted (contains (txt "Cu")) (sorted_sorted _)) E).
    apply filter_In. auto.
  - intros H. unfold cu_ref_path. rewrite classify_reference.
    now rewrite (filter_none _ _ H).
  - intros f Hph Hcu. split.
    + unfold Ca.plot_label. rewrite Hph.
      destruct (re_search Ca.ph_pattern f); [|now left].
      destruct (re_search Ca.label_pattern f); [|now left].
      right. eauto.
    + cbn [CaJ.classify]. now rewrite Hcu.
Qed.

Lemma reference_ok w ax cu : outcome (CaJ.plot_reference w ax cu) = Ok tt.
Proof.
  unfold CaJ.plot_reference, pd_read_csv. destruct cu as [path|];
    [|reflexivity].
  destruct (read_csv w path tab) as [data|e]; [|reflexivity].
  simpl. destruct (CaJ.curve data) as [[[x y]|]|e]; reflexivity.
Qed.

Lemma system_ok w ax path i :
  exists j, outcome (CaJ.plot_system w ax path i) = Ok j.
Proof.
  unfold CaJ.plot_system, pd_read_csv. cbv zeta.
  destruct (read_csv w path tab) as [data|e]; [|simpl; eauto].
  simpl. destruct (CaJ.curve data) as [[[x y]|]|e]; simpl; eauto.
Qed.

Lemma systems_ok w ax paths : forall i,
  exists j, outcome (CaJ.plot_systems w ax paths i) = Ok j.
Proof.
  induction paths as [|p paths IH]; intros i; cbn [CaJ.plot_systems].
  - simpl. eauto.
  - rewrite outcome_bind. destruct (system_ok w ax p i) as (j & ->).
    apply IH.
Qed.

(** With an array of [n] axes the panels of at most [n] keys are all
    drawn. *)
Lemma panels_ok w n g cu keys : forall i,
  i + List.length keys <= n ->
  outcome (CaJ.panels w (AxesArray n) g cu i keys) = Ok tt.
Proof.
  induction keys as [|k keys IH]; intros i H; cbn [CaJ.panels].
  - reflexivity.
  - simpl in H. unfold subscript.
    destruct (Nat.ltb_spec i n); [|lia].
    rewrite outcome_bind. cbn [outcome ret snd].
    rewrite outcome_bind, reference_ok, outcome_bind.
    destruct (systems_ok w i (CaJ.lookup g k) 0) as (j & ->).
    repeat (rewrite outcome_bind; cbn [outcome emit snd]).
    apply IH. lia.
Qed.

Ltac run_io :=
  repeat first
    [ rewrite outcome_bind | rewrite trace_bind
    | progress cbn [outcome trace fst snd emit ret subscript_last] ].

Lemma sorted_length l : List.length (sorted l) = List.length l.
Proof. symmetry. apply Permutation_length, sorted_perm. Qed.

(** C9 (as amended).  [generate_ca_subplots] reaches [savefig] exactly
    when the directory yields two pH groups (distinct keys) or more.  With one group the
    single Axes cannot be subscripted and TypeError escapes before any file
    is read.  With no group an exception escapes as well: from
    [plt.subplots(0, 1)] where the library rejects zero rows, else from the
    final [axes[-1]]. *)
Theorem needs_two_groups (w : World) (dir out : text) (names : list text) :
  listdir w dir = Ok names ->
  let files := sorted (filter Ca.is_txt names) in
  let groups := List.length (fst (CaJ.classify dir files [] None)) in
  let run := CaJ.generate_ca_subplots w dir out in
  NoDup (map fst (fst (CaJ.classify dir files [] None)))
  /\ (2 <= groups -> outcome run = Ok tt /\ In (SaveFig 0 out) (trace run))
  /\ (groups = 1 ->
      run = ([Subplots 0 1 1;
              FigCall 0 (txt "suptitle")
                (txt "Chronoamperometry Analysis: Current Density vs. Time")],
             Raise TypeError))
  /\ (groups = 0 ->
      run = if zero_rows_rejected w
            then ([Subplots 0 0 1], Raise ValueError)
            else ([Subplots 0 0 1;
                   FigCall 0 (txt "suptitle")
                     (txt "Chronoamperometry Analysis: Current Density vs. Time")],
                  Raise IndexError))
  /\ (groups < 2 ->
      existsb is_save (trace run) = false /\
      existsb is_read (trace run) = false).
Proof.
  intros Hl files groups run.
  split; [apply classify_distinct; constructor|].
  assert (Hrun : run = CaJ.generate_ca_subplots w dir out) by reflexivity.
  unfold CaJ.generate_ca_subplots in Hrun. rewrite Hl in Hrun.
  fold files in Hrun. unfold groups.
  destruct (CaJ.classify dir files [] None) as [g cu]. cbn [fst].
  rewrite <- (length_map fst g), <- sorted_length.
  destruct (sorted (map fst g)) as [|k1 [|k2 keys]] eqn:Ek.
  - (* no group *)
    assert (H0 : run = if zero_rows_rejected w
                       then ([Subplots 0 0 1], Raise ValueError)
                       else ([Subplots 0 0 1;
                              FigCall 0 (txt "suptitle")
                                (txt "Chronoamperometry Analysis: Current Density vs. Time")],
                             Raise IndexError)).
    { rewrite Hrun. unfold subplots. cbn [List.length].
      destruct (zero_rows_rejected w); reflexivity. }
    split; [simpl; intros; lia|]. split; [simpl; intros; lia|].
    split; [intros _; exact H0|].
    intros _. rewrite H0. destruct (zero_rows_rejected w); split; reflexivity.
  - (* one group *)
    assert (H1 : run = ([Subplots 0 1 1;
                         FigCall 0 (txt "suptitle")
                           (txt "Chronoamperometry Analysis: Current Density vs. Time")],
                        Raise TypeError)) by (rewrite Hrun; reflexivity).
    split; [simpl; intros; lia|]. split; [intros _; exact H1|].
    split; [simpl; intros; lia|].
    intros _. rewrite H1. split; reflexivity.
  - (* two groups or more *)
    split; [|split; [|split]; simpl; intros; lia].
    intros _. destruct (CaFacts.save_trace w out) as (m & Hs).
    assert (Hp : outcome (CaJ.panels w (AxesArray (S (S (List.length keys))))
                            g cu 0 (k1 :: k2 :: keys)) = Ok tt)
      by (apply panels_ok; simpl; lia).
    rewrite Hrun. unfold subplots. cbn [List.length]. split.
    + run_io. rewrite Hp. run_io. now rewrite Hs.
    + run_io. rewrite Hp. run_io. rewrite Hs.
      apply in_or_app. right. apply in_or_app. right.
      apply in_or_app. right. cbn. auto 10.
Qed.

End CaJFacts.

(** ** The scripts, run *)

Module Runs.
Import IoSpec Units.

Example ca_labels :
  map Ca.plot_label (sorted (filter Ca.is_txt Demo.ca_names))
  = [Some (txt "Cu"); Some (txt "K2ReCl6 (pH 1)"); Some (txt "broken (pH 1)");
     Some (txt "Cu (pH 4)"); Some (txt "KReO4 (pH 4)");
     Some (txt "other (pH 4)"); None].
Proof. vm_compute. reflexivity. Qed.

Example label_greedy :
  Ca.plot_label (txt "x_pH12_a.txt pH3_b.txt") = Some (txt "a.txt pH3_b (pH 12)").
Proof. vm_compute. reflexivity. Qed.

Example label_needs_digits : Ca.plot_label (txt "pH_KReO4.txt") = None.
Proof. vm_compute. reflexivity. Qed.

Example ca_run_reads :
  reads (trace (Ca.generate_styled_plot Demo.ca_dir (txt "CAs/")
                  (txt "ca.tiff")))
  = map txt ["CAs/Cu_ref.txt"; "CAs/pH1_K2ReCl6.txt"; "CAs/pH1_broken.txt";
             "CAs/pH4_Cu.txt"; "CAs/pH4_KReO4.txt";
             "CAs/pH4_other.txt"]%string.
Proof. vm_compute. reflexivity. Qed.

Example ca_run_markers :
  map (fun e => match e with
                | Plot _ _ _ _ label st => (label, marker st, linestyle st)
                | _ => ([], None, None)
                end)
      (plots (trace (Ca.generate_styled_plot Demo.ca_dir (txt "CAs/")
                       (txt "ca.tiff"))))
  = [ (txt "Cu", Some (txt "o"), Some (txt "-"));
      (txt "K2ReCl6 (pH 1)", Some (txt "s"), Some (txt "--"));
      (txt "Cu (pH 4)", Some (txt "^"), Some (txt "-."));
      (txt "KReO4 (pH 4)", Some (txt "D"), Some (txt ":")) ].
Proof. vm_compute. reflexivity. Qed.

Example caj_run :
  outcome (CaJ.generate_ca_subplots Demo.ca_dir (txt "CAs/") (txt "j.tiff"))
  = Ok tt
  /\ reads (trace (CaJ.generate_ca_subplots Demo.ca_dir (txt "CAs/")
                     (txt "j.tiff")))
     = map txt ["CAs/pH4_Cu.txt"; "CAs/pH1_K2ReCl6.txt";
                "CAs/pH1_broken.txt"; "CAs/pH4_Cu.txt";
                "CAs/pH4_KReO4.txt"; "CAs/pH4_other.txt"]%string.
Proof. split; vm_compute; reflexivity. Qed.

Example caj_classes :
  CaJ.classify (txt "CAs/") (sorted (filter Ca.is_txt Demo.ca_names)) [] None
  = ([ (txt "pH 1", [txt "CAs/pH1_K2ReCl6.txt"; txt "CAs/pH1_broken.txt"]);
       (txt "pH 4", [txt "CAs/pH4_KReO4.txt"; txt "CAs/pH4_other.txt"]) ],
     Some (txt "CAs/pH4_Cu.txt")).
Proof. vm_compute. reflexivity. Qed.

Example lsv_run :
  outcome (Lsv.plot_lsv_data Demo.lsv_dir) = Ok tt
  /\ map (fun e => match e with
                   | Plot _ ax _ y label _ => (ax, label, y)
                   | _ => (0, [], ObjCol [])
                   end)
        (plots (trace (Lsv.plot_lsv_data Demo.lsv_dir)))
     = let j := FloatCol [of_int 0; of_int (-1); of_int (-4)] in
       [ (0, txt "Reference Cu", j); (0, txt "pH 1", j); (0, txt "pH 4", j);
         (1, txt "Reference Cu", j); (2, txt "Reference Cu", j) ].
Proof. split; vm_compute; reflexivity. Qed.

Example eis_groups :
  Eis.group_files_by_experiment Demo.eis_files (txt "EIS/")
  = [ (txt "pH 1",
       [ (txt "OCP",
          [ (txt "KReO4",
             [txt "EIS/1_KReO4 pH 1 OCP (Nyquist).txt";
              txt "EIS/1_KReO4 pH 1 OCP (Bode).txt"]) ]) ]) ].
Proof. vm_compute. reflexivity. Qed.

Example eis_run :
  outcome (Eis.plot_eis_data Demo.eis_files) = Ok tt
  /\ reads (trace (Eis.plot_eis_data Demo.eis_files))
     = [txt "EIS/1_KReO4 pH 1 OCP (Nyquist).txt";
        txt "EIS/1_KReO4 pH 1 OCP (Bode).txt"]
  /\ List.length (plots (trace (Eis.plot_eis_data Demo.eis_files))) = 3
  /\ map (fun e => match e with SaveFig _ out => out | _ => [] end)
        (filter is_save (trace (Eis.plot_eis_data Demo.eis_files)))
     = map txt ["eis_nyquist_plots.tiff"; "eis_bode1_plots.tiff";
                "eis_bode2_plots.tiff"]%string.
Proof. repeat split; vm_compute; reflexivity. Qed.

End Runs.

(** ** The theorems at work on the example directory *)

Module Witnesses.
Import IoSpec Units.

Lemma a_bad_file_is_only_reported_witness :
  Ca.step Demo.ca_dir (txt "CAs/") (txt "pH1_broken.txt") 2
  = ([ReadCsv (txt "CAs/pH1_broken.txt") tab;
      Printed (ProcessingError (txt "pH1_broken.txt") (OtherError 1))], Ok 2)
  /\ Ca.step Demo.ca_dir (txt "CAs/") (txt "pH4_other.txt") 4
     = ([ReadCsv (txt "CAs/pH4_other.txt") tab;
         Printed (MissingColumns (txt "pH4_other.txt"))], Ok 4)
  /\ Ca.generate_styled_plot Demo.ca_dir (txt "CAs/") (txt "ca.tiff")
     = (Subplots 0 1 1
          :: trace (Ca.loop Demo.ca_dir (txt "CAs/")
                      (sorted (filter Ca.is_txt Demo.ca_names)) 0)
          ++ [AxCall 0 0 (txt "set_title")
                (txt "Combined Chronoamperometry Analysis (Time Normalised)");
              AxCall 0 0 (txt "set_xlabel") (txt "Time (min)");
              AxCall 0 0 (txt "set_ylabel") (txt "Charge ($C$)");
              AxCall 0 0 (txt "legend") (txt "System");
              AxCall 0 0 (txt "grid") (txt "--");
              SaveFig 0 (txt "ca.tiff");
              Printed (Saved (txt "ca.tiff"))], Ok tt).
Proof.
  destruct (@CaFacts.a_bad_file_is_only_reported Demo.ca_dir (txt "CAs/")
              (txt "ca.tiff") Demo.ca_names eq_refl) as (H1 & _ & H3).
  split; [|split; [|exact H3]].
  - apply (proj1 (H1 (txt "pH1_broken.txt") (txt "broken (pH 1)") 2
                     eq_refl)).
    reflexivity.
  - apply (proj2 (proj2 (H1 (txt "pH4_other.txt") (txt "other (pH 4)") 4
                            eq_refl)) Demo.other_table); reflexivity.
Defined.

Lemma sorted_and_reproducible_witness :
  Ca.generate_styled_plot Demo.ca_dir (txt "CAs/") (txt "ca.tiff")
  = Ca.generate_styled_plot Demo.ca_dir_reversed (txt "CAs/") (txt "ca.tiff")
  /\ reads (trace (Ca.generate_styled_plot Demo.ca_dir (txt "CAs/")
                     (txt "ca.tiff")))
     = map (OsPath.join (txt "CAs/"))
         (filter labelled (sorted (filter Ca.is_txt Demo.ca_names))).
Proof.
  destruct (@CaOrder.sorted_and_reproducible Demo.ca_dir
              Demo.ca_dir_reversed (txt "CAs/") (txt "ca.tiff")
              Demo.ca_names (rev Demo.ca_names) eq_refl eq_refl
              (Permutation_rev Demo.ca_names)
              (fun _ _ => eq_refl) (fun _ => eq_refl))
    as (_ & _ & H3 & H4 & _).
  split; [exact H4|exact H3].
Defined.

Lemma cu_before_ph_witness :
  (forall key,
      ~ In (txt "CAs/pH4_Cu.txt")
          (CaJ.lookup
             (fst (CaJ.classify (txt "CAs/")
                     (sorted (filter Ca.is_txt Demo.ca_names)) [] None))
             key))
  /\ exists last,
       snd (CaJ.classify (txt "CAs/")
              (sorted (filter Ca.is_txt Demo.ca_names)) [] None)
       = Some (OsPath.join (txt "CAs/") last)
       /\ In last (sorted (filter Ca.is_txt Demo.ca_names))
       /\ contains (txt "Cu") last = true
       /\ forall f,
            In f (sorted (filter Ca.is_txt Demo.ca_names)) ->
            contains (txt "Cu") f = true -> text_le f last.
Proof.
  assert (N : Forall (fun f => contains (txt "/") f = false) Demo.ca_names)
    by (repeat constructor).
  destruct (@CaJFacts.cu_before_ph (txt "CAs/") Demo.ca_names N)
    as (H1 & H2 & _).
  split.
  - intros key. apply (H1 (txt "pH4_Cu.txt") key); [|reflexivity].
    vm_compute. tauto.
  - apply (H2 (txt "Cu_ref.txt")); [|reflexivity]. vm_compute. tauto.
Defined.

Lemma needs_two_groups_witness :
  outcome (CaJ.generate_ca_subplots Demo.ca_dir (txt "CAs/") (txt "j.tiff"))
  = Ok tt
  /\ In (SaveFig 0 (txt "j.tiff"))
       (trace (CaJ.generate_ca_subplots Demo.ca_dir (txt "CAs/")
                 (txt "j.tiff"))).
Proof.
  destruct (@CaJFacts.needs_two_groups Demo.ca_dir (txt "CAs/")
              (txt "j.tiff") Demo.ca_names eq_refl) as (_ & H2 & _).
  apply H2. vm_compute. lia.
Defined.

(** C9 as stated fails where the library rejects a grid of zero rows: with
    no pH group the exception is the ValueError of [plt.subplots(0, 1)],
    raised before [suptitle]; the final [axes[-1]] is never reached. *)
Lemma no_group_fails_in_subplots :
  CaJ.generate_ca_subplots Demo.empty_dir (txt "CAs/") (txt "j.tiff")
  = ([Subplots 0 0 1], Raise ValueError)
  /\ outcome (CaJ.generate_ca_subplots Demo.empty_dir (txt "CAs/")
                (txt "j.tiff")) <> Raise IndexError.
Proof. split; [reflexivity|discriminate]. Qed.

End Witnesses.

(** * Further properties *)

(** ** Where a search matches *)

Module ReSearch.
Import ReSpec ReFacts.

(** [re.search] returns the match at the first position that has one. *)
Lemma re_search_first r : forall s g,
  re_search r s = Some g ->
  exists a rest,
    s = a ++ rest /\ re_match r rest = Some g /\
    forall a' rest',
      s = a' ++ rest' -> List.length a' < List.length a ->
      re_match r rest' = None.
Proof.
  induction s as [|x s IH]; intros g H; simpl in H.
  - destruct (re_match r []) as [g0|] eqn:Em; [|discriminate].
    exists [], []. repeat split; [congruence|].
    intros a' rest' _ Hl. simpl in Hl. lia.
  - destruct (re_match r (x :: s)) as [g0|] eqn:Em.
    + exists [], (x :: s). repeat split; [congruence|].
      intros a' rest' _ Hl. simpl in Hl. lia.
    + destruct (IH g H) as (a & rest & -> & Hm & Hfirst).
      exists (x :: a), rest. repeat split; [exact Hm|].
      intros [|y a'] rest' E Hl.
      * simpl in E. now subst rest'.
      * inversion E; subst. apply (Hfirst a' rest' H2). simpl in Hl. lia.
Qed.

(** It finds a match wherever there is one. *)
Lemma re_search_finds r : forall s a u b g,
  s = a ++ u ++ b -> matches r u [] g -> exists g', re_search r s = Some g'.
Proof.
  intros s a. revert s.
  induction a as [|x a IH]; intros s u b g -> M.
  - simpl app. destruct (re_match r (u ++ b)) as [g0|] eqn:Em.
    + exists g0. destruct (u ++ b); simpl; now rewrite Em.
    + destruct (@re_match_none r (u ++ b) Em u b g eq_refl M).
  - simpl. destruct (re_match r (x :: a ++ u ++ b)); [eauto|].
    now apply (IH _ u b g eq_refl).
Qed.

Lemma same_length_prefix {A} (a a' : list A) : forall b b',
  a ++ b = a' ++ b' -> List.length a = List.length a' ->
  a = a' /\ b = b'.
Proof.
  revert a'. induction a as [|x a IH]; intros [|y a'] b b' E L;
    try discriminate; simpl in *; [auto|].
  inversion E; subst. destruct (IH a' b b' H1) as [-> ->]; [lia|auto].
Qed.

End ReSearch.

(** ** plot_eis.py: parsed records *)

Module EisRecords.
Import ReSpec ReFacts Eis EisSpec EisShape EisFacts PandasFacts ReSearch.

(** A match of the whole pattern, with what its groups hold. *)
Lemma pattern_groups filename g :
  re_match pattern filename = Some g ->
  exists idx chem ph cond,
    main_form filename idx chem ph cond /\
    group g 1 = Some idx /\ group g 2 = Some chem /\
    group g 3 = ph /\ group g 4 = Some cond.
Proof.
  intros H. apply re_match_some in H. destruct H as (u & s' & -> & M).
  rewrite pattern_unfold in M. inv_matches.
  match goal with
  | H : matches tail_re ?t ?g0 _ |- _ =>
      destruct (@tail_matches_form t g0 _ s' H eq_refl)
        as (ph & cond & F & G3 & G4 & G1 & G2)
  end.
  match goal with
  | Hd : forallb (in_cls Digit) ?i = true,
    Hc : forallb (in_cls Dot) ?c = true |- _ =>
      exists i, c, ph, cond
  end.
  split; [|now repeat split].
  eexists. repeat split; try eassumption; try discriminate.
  repeat (rewrite <- app_assoc; simpl). reflexivity.
Qed.

Lemma search_condition filename m :
  re_search condition_pattern filename = Some m ->
  exists cond,
    In cond cond_tokens /\ occurs cond filename /\ part m 1 = cond.
Proof.
  intros H. apply re_search_some in H. destruct H as (a & u & b & -> & M).
  unfold condition_pattern in M. inversion M; subst.
  match goal with
  | H : matches conditions _ _ _ |- _ =>
      apply conditions_matches in H; destruct H as [H _]
  end.
  exists u. split; [assumption|]. split; [now exists a, b|].
  unfold part. simpl. reflexivity.
Qed.

(** [parse_filename] returns nothing but the record of one of its three
    forms. *)
Lemma parse_filename_inv filepath r :
  parse_filename filepath = Some r ->
  parsed_as (OsPath.basename filepath) r.
Proof.
  unfold parse_filename.
  destruct (re_match pattern (OsPath.basename filepath)) as [g|] eqn:Em.
  - intros H. inversion H; subst; clear H.
    destruct (pattern_groups _ Em) as (idx & chem & ph & cond & F & G1 & G2
                                       & G3 & G4).
    left. exists idx, chem, ph, cond. split; [assumption|].
    unfold main_record.
    rewrite (part_some _ _ G1), (part_some _ _ G2), (part_some _ _ G4), G3.
    destruct ph; reflexivity.
  - destruct (contains (txt "Cu") (OsPath.basename filepath)) eqn:Ecu.
    + destruct (re_search condition_pattern (OsPath.basename filepath))
        as [m|] eqn:Es.
      * intros H. inversion H; subst; clear H.
        destruct (search_condition _ Es) as (cond & Hc & Ho & ->).
        right. exists cond. repeat split; try assumption.
        left. split; [now apply contains_inv|reflexivity].
      * destruct (contains (txt "KReO4 + Na2SO4") (OsPath.basename filepath));
          discriminate.
    + destruct (contains (txt "KReO4 + Na2SO4") (OsPath.basename filepath))
        eqn:Ek; [|discriminate].
      destruct (re_search condition_pattern (OsPath.basename filepath))
        as [m|] eqn:Es; [|discriminate].
      intros H. inversion H; subst; clear H.
      destruct (search_condition _ Es) as (cond & Hc & Ho & ->).
      right. exists cond. repeat split; try assumption.
      right. split; [now apply contains_inv|reflexivity].
Qed.

Lemma tail_form_fields rest ph cond :
  tail_form rest ph cond ->
  In cond cond_tokens /\
  match ph with Some p => ph_captured p | None => True end.
Proof.
  intros [w1 w2 w3 w4 ds c t r H1 H2 H3 H4 Hds Hd Hc Ht E
         |w1 w4 c t r H1 H4 Hc Ht E].
  - split; [assumption|]. exists w2, ds. auto.
  - split; [assumption|exact I].
Qed.

Lemma app_inj_tail3 {A} (x y : list A) a1 a2 a3 b1 b2 b3 :
  x ++ [a1; a2; a3] = y ++ [b1; b2; b3] ->
  x = y /\ a1 = b1 /\ a2 = b2 /\ a3 = b3.
Proof.
  intros E.
  change (x ++ [a1; a2; a3]) with (x ++ [a1] ++ [a2] ++ [a3]) in E.
  change (y ++ [b1; b2; b3]) with (y ++ [b1] ++ [b2] ++ [b3]) in E.
  rewrite !app_assoc in E.
  apply app_inj_tail in E. destruct E as [E ->].
  apply app_inj_tail in E. destruct E as [E ->].
  apply app_inj_tail in E. destruct E as [-> ->]. auto.
Qed.

Lemma token_suffix_unique x x' c c' :
  In c cond_tokens -> In c' cond_tokens -> x ++ c = x' ++ c' ->
  x = x' /\ c = c'.
Proof.
  intros [<-|[<-|[<-|[]]]] [<-|[<-|[<-|[]]]] E; apply app_inj_tail3 in E;
    destruct E as (-> & E1 & E2 & E3);
    first [now split | discriminate].
Qed.

Lemma rev_inj {A} (l l' : list A) : rev l = rev l' -> l = l'.
Proof.
  intros H. apply (f_equal (@rev A)) in H. now rewrite !rev_involutive in H.
Qed.

Lemma forallb_rev {A} (f : A -> bool) l :
  forallb f l = true -> forallb f (rev l) = true.
Proof.
  rewrite !forallb_forall. intros H x Hx. apply H. now apply in_rev.
Qed.

(** The text before the condition in an id gives back the chemical field
    and the pH field. *)
Lemma fields_unique chem chem' ph ph' :
  match ph with Some p => ph_captured p | None => True end ->
  match ph' with Some p => ph_captured p | None => True end ->
  chem ++ txt " " ++ fmt ph = chem' ++ txt " " ++ fmt ph' ->
  chem = chem' /\ ph = ph'.
Proof.
  assert (N : forall c c' w ds,
             is_space w = true -> ds <> [] -> forallb is_digit ds = true ->
             c ++ txt " " ++ txt "None" = c' ++ txt " " ++ txt "pH" ++ w :: ds
             -> False).
  { intros c c' w ds Hw Hds Hd E.
    destruct (exists_last Hds) as (ds0 & d & ->).
    rewrite forallb_app in Hd. apply andb_true_iff in Hd.
    destruct Hd as [_ Hd]. simpl in Hd. rewrite andb_true_r in Hd.
    change (c ++ txt " " ++ txt "None")
      with (c ++ txt " Non" ++ ["e"%char]) in E.
    change (c' ++ txt " " ++ txt "pH" ++ w :: ds0 ++ [d])
      with (c' ++ (txt " pH" ++ w :: ds0) ++ [d]) in E.
    rewrite !app_assoc in E. apply app_inj_tail in E.
    destruct E as [_ <-]. discriminate Hd. }
  destruct ph as [p|], ph' as [p'|]; intros H H' E.
  - destruct H as (w & ds & -> & Hw & Hds & Hd).
    destruct H' as (w' & ds' & -> & Hw' & Hds' & Hd').
    apply (f_equal (@rev _)) in E. simpl in E.
    rewrite !rev_app_distr in E. simpl in E.
    repeat (rewrite <- app_assoc in E; simpl in E).
    pose proof E as E0.
    apply digit_run_unique in E;
      auto using forallb_rev, space_not_digit.
    destruct E as [Er Et]. apply rev_inj in Er. subst ds'.
    apply app_inv_head in E0. inversion E0 as [[Ew Ec]].
    apply rev_inj in Ec. now subst.
  - destruct H as (w & ds & -> & Hw & Hds & Hd). exfalso.
    symmetry in E. eapply N; eassumption.
  - destruct H' as (w & ds & -> & Hw & Hds & Hd). exfalso.
    eapply N; eassumption.
  - apply app_inv_tail in E. now split.
Qed.

(** The id of a name of the main form gives back its four fields. *)
Lemma main_record_unique f f' idx idx' chem chem' ph ph' cond cond' :
  main_form f idx chem ph cond -> main_form f' idx' chem' ph' cond' ->
  id (main_record idx chem ph cond) = id (main_record idx' chem' ph' cond') ->
  idx = idx' /\ chem = chem' /\ ph = ph' /\ cond = cond'.
Proof.
  intros (rest & _ & Hi & Hd & _ & _ & F)
         (rest' & _ & Hi' & Hd' & _ & _ & F') E.
  apply tail_form_fields in F, F'.
  destruct F as [Hc Hp]. destruct F' as [Hc' Hp'].
  cbn [id main_record] in E.
  change (txt "_" ++ ?x) with ("_"%char :: x) in E.
  apply digit_run_unique in E; auto.
  destruct E as [-> E].
  rewrite !app_assoc in E. apply token_suffix_unique in E; auto.
  destruct E as [E ->].
  apply app_inj_tail in E. destruct E as [E _].
  rewrite <- !app_assoc in E. apply fields_unique in E; auto.
  destruct E as [-> ->]. auto.
Qed.

Lemma main_record_digit idx chem ph cond f :
  main_form f idx chem ph cond ->
  exists d r, id (main_record idx chem ph cond) = d :: r /\
              is_digit d = true.
Proof.
  intros (rest & _ & Hi & Hd & _). destruct idx as [|d ds]; [contradiction|].
  simpl in Hd. apply andb_true_iff in Hd. destruct Hd as [Hd _].
  exists d. eexists. split; [reflexivity|assumption].
Qed.

(** *** The order of the three forms *)

Lemma forallb_false {A} (f : A -> bool) l :
  forallb f l = false -> exists x, In x l /\ f x = false.
Proof.
  induction l as [|x l IH]; simpl; [discriminate|].
  destruct (f x) eqn:E; [|eauto].
  intros H. destruct (IH H) as (y & Hy & Hf). eauto.
Qed.

(** Among the splits of a name of the main form there is the one with
    the shortest chemical field. *)
Lemma exists_first_split : forall n chem rest ph cond,
  List.length chem <= n -> chem <> [] -> forallb is_dot chem = true ->
  tail_form rest ph cond ->
  exists chem' rest' ph' cond',
    chem ++ rest = chem' ++ rest' /\ chem' <> [] /\
    forallb is_dot chem' = true /\
    tail_form rest' ph' cond' /\ first_split chem' rest'.
Proof.
  induction n as [|n IH]; intros chem rest ph cond Hn Hc Hd F.
  - destruct chem; [contradiction|simpl in Hn; lia].
  - destruct (first_splitb chem rest) eqn:E.
    + exists chem, rest, ph, cond.
      repeat split; try assumption. now apply first_splitb_sound.
    + unfold first_splitb in E. apply forallb_false in E.
      destruct E as (c2 & Hin & Hrun).
      destruct (run tail_re (c2 ++ rest) []) as [|[s' g'] l] eqn:Er;
        [discriminate|].
      assert (Hm : In (s', g') (run tail_re (c2 ++ rest) []))
        by (rewrite Er; now left).
      apply run_sound in Hm. destruct Hm as (u & Eu & M).
      destruct (@tail_matches_form u [] g' s' M eq_refl)
        as (ph' & cond' & F' & _).
      rewrite <- Eu in F'.
      apply suffixes_inv in Hin. destruct Hin as (Hc2 & p & Ep).
      destruct chem as [|a chem0]; [contradiction|]. simpl in Ep.
      subst chem0.
      assert (Hd1 : forallb is_dot (a :: p) = true).
      { change (a :: p ++ c2) with ((a :: p) ++ c2) in Hd.
        rewrite forallb_app in Hd. now apply andb_true_iff in Hd. }
      destruct (IH (a :: p) (c2 ++ rest) ph' cond') as
          (chem' & rest' & ph'' & cond'' & E' & H1 & H2 & H3 & H4);
        try assumption; try discriminate.
      { simpl in Hn. rewrite length_app in Hn. simpl.
        destruct c2; [contradiction|]. simpl in Hn. lia. }
      exists chem', rest', ph'', cond''. repeat split; try assumption.
      rewrite <- E'. simpl. now rewrite <- app_assoc.
Qed.

(** The groups of a match are those of the split with the shortest
    chemical field. *)
Lemma pattern_first_split filename g :
  re_match pattern filename = Some g ->
  exists idx chem rest ph cond,
    filename = idx ++ txt "_" ++ chem ++ rest /\
    idx <> [] /\ forallb is_digit idx = true /\
    chem <> [] /\ forallb is_dot chem = true /\
    tail_form rest ph cond /\ first_split chem rest /\
    group g 1 = Some idx /\ group g 2 = Some chem /\
    group g 3 = ph /\ group g 4 = Some cond.
Proof.
  intros Hm.
  destruct (pattern_groups _ Hm)
    as (idx & chem & ph & cond & (rest & E & Hi & Hd & Hc & Hdot & F) & _).
  destruct (@exists_first_split (List.length chem) chem rest ph cond
              (le_n _) Hc Hdot F)
    as (chem' & rest' & ph' & cond' & E' & Hc' & Hdot' & F' & Min).
  destruct (pattern_first Hi Hd Hc' Hdot' F' Min)
    as (g' & Hm' & G1 & G2 & G3 & G4).
  assert (Ef : filename = idx ++ txt "_" ++ chem' ++ rest').
  { rewrite E. f_equal. f_equal. exact E'. }
  rewrite <- Ef, Hm in Hm'. inversion Hm'; subst g'.
  exists idx, chem', rest', ph', cond'. repeat split; assumption.
Qed.

Lemma search_first_condition filename m :
  re_search condition_pattern filename = Some m ->
  first_condition filename (part m 1).
Proof.
  intros H. apply re_search_first in H.
  destruct H as (a & rest & -> & Hm & Hfirst).
  pose proof Hm as Hm0. apply re_match_some in Hm.
  destruct Hm as (u & s' & -> & M).
  unfold condition_pattern in M. inversion M; subst.
  match goal with
  | H : matches conditions _ _ _ |- _ =>
      apply conditions_matches in H; destruct H as [Hu _]
  end.
  change (part ((1, u) :: []) 1) with u.
  split; [exact Hu|]. exists a, s'. split; [reflexivity|].
  intros c a' b' Hc E.
  destruct (Nat.le_gt_cases (List.length a) (List.length a')) as [L|L];
    [exact L|exfalso].
  specialize (Hfirst a' (c ++ b') E L).
  refine (@re_match_none _ _ Hfirst c b' [(1, c)] eq_refl _).
  unfold condition_pattern. apply MGroup.
  unfold conditions. simpl in Hc.
  destruct Hc as [<-|[<-|[<-|[]]]];
    [apply MAltL|apply MAltR, MAltL|apply MAltR, MAltR]; apply MLit.
Qed.

Lemma first_condition_unique filename c c' :
  first_condition filename c -> first_condition filename c' -> c = c'.
Proof.
  intros (Hc & a & b & E & Hmin) (Hc' & a' & b' & E' & Hmin').
  assert (L : List.length a = List.length a').
  { apply Nat.le_antisymm;
      [exact (Hmin c' a' b' Hc' E')|exact (Hmin' c a b Hc E)]. }
  rewrite E in E'. destruct (same_length_prefix _ _ _ _ E' L) as [_ E2].
  exact (@token_prefix_unique c c' b b' Hc Hc' E2).
Qed.

Lemma condition_found filename c :
  first_condition filename c ->
  exists m, re_search condition_pattern filename = Some m /\ part m 1 = c.
Proof.
  intros H. pose proof H as (Hc & a & b & E & _).
  assert (M : matches condition_pattern c [] [(1, c)]).
  { unfold condition_pattern. apply MGroup. unfold conditions.
    simpl in Hc.
    destruct Hc as [<-|[<-|[<-|[]]]];
      [apply MAltL|apply MAltR, MAltL|apply MAltR, MAltR]; apply MLit. }
  destruct (@re_search_finds condition_pattern filename a c b _ E M)
    as (m & Hm).
  exists m. split; [exact Hm|].
  eapply first_condition_unique; [|exact H].
  now apply search_first_condition.
Qed.

Lemma not_main_no_match filename :
  (forall idx chem ph cond, ~ main_form filename idx chem ph cond) ->
  re_match pattern filename = None.
Proof.
  intros N. destruct (re_match pattern filename) as [g|] eqn:E;
    [|reflexivity].
  destruct (pattern_matches_form _ E) as (idx & chem & ph & cond & F).
  destruct (N _ _ _ _ F).
Qed.

Lemma parse_in_order filepath r :
  parse_filename filepath = Some r <->
  parsed_in_order (OsPath.basename filepath) r.
Proof.
  unfold parse_filename. split.
  - destruct (re_match pattern (OsPath.basename filepath)) as [g|] eqn:Em.
    + intros H. inversion H; subst; clear H.
      destruct (pattern_first_split _ Em)
        as (idx & chem & rest & ph & cond & E & Hi & Hd & Hc & Hdot & F
            & Min & G1 & G2 & G3 & G4).
      left. exists idx, chem, rest, ph, cond.
      repeat split; try assumption. unfold main_record.
      rewrite (part_some _ _ G1), (part_some _ _ G2), (part_some _ _ G4),
        G3.
      destruct ph; reflexivity.
    + assert (N : forall idx chem ph cond,
                 ~ main_form (OsPath.basename filepath) idx chem ph cond).
      { intros idx chem ph cond F.
        now apply main_form_matched in F. }
      destruct (contains (txt "Cu") (OsPath.basename filepath)) eqn:Ecu.
      * destruct (re_search condition_pattern (OsPath.basename filepath))
          as [m|] eqn:Es.
        -- intros H. inversion H; subst; clear H.
           right. split; [exact N|]. exists (part m 1).
           split; [now apply search_first_condition|].
           left. split; [now apply contains_inv|reflexivity].
        -- destruct (contains (txt "KReO4 + Na2SO4")
                       (OsPath.basename filepath)); discriminate.
      * destruct (contains (txt "KReO4 + Na2SO4")
                    (OsPath.basename filepath)) eqn:Ek; [|discriminate].
        destruct (re_search condition_pattern (OsPath.basename filepath))
          as [m|] eqn:Es; [|discriminate].
        intros H. inversion H; subst; clear H.
        right. split; [exact N|]. exists (part m 1).
        split; [now apply search_first_condition|].
        right. split; [|split; [now apply contains_inv|reflexivity]].
        intros (a & b & E).
        rewrite E, contains_intro in Ecu. discriminate.
  - intros [(idx & chem & rest & ph & cond & E & Hi & Hd & Hc & Hdot & F
             & Min & ->)
           |(N & cond & Hfc & [(Hcu & ->)|(Hncu & Hk & ->)])].
    + destruct (pattern_first Hi Hd Hc Hdot F Min)
        as (g & Hm & G1 & G2 & G3 & G4).
      rewrite E, Hm. unfold main_record.
      rewrite (part_some _ _ G1), (part_some _ _ G2), (part_some _ _ G4),
        G3.
      destruct ph; reflexivity.
    + rewrite (not_main_no_match N).
      destruct Hcu as (a & b & E). rewrite E at 1.
      rewrite contains_intro.
      destruct (condition_found Hfc) as (m & -> & ->). reflexivity.
    + rewrite (not_main_no_match N).
      destruct (contains (txt "Cu") (OsPath.basename filepath)) eqn:Ecu.
      { destruct Hncu. now apply contains_inv. }
      destruct Hk as (a & b & E). rewrite E at 1.
      rewrite contains_intro.
      destruct (condition_found Hfc) as (m & -> & ->). reflexivity.
Qed.

(** X1.  [parse_filename] returns a record exactly in the order of its
    three tests: for a name of the main form the record of the split with
    the shortest chemical field; else, for a name that holds [Cu], the
    record of [Cu]; else, for a name that holds [KReO4 + Na2SO4], the record
    of that; in the last two cases with the first condition of the name.
    The condition of a record is always one of OCP, CAP and FAR, and its pH
    is [N/A] or the captured field [pH], one white space character,
    digits. *)
Theorem parsed_fields (filepath : text) (r : parsed) :
  (parse_filename filepath = Some r
   <-> parsed_in_order (OsPath.basename filepath) r)
  /\ (parse_filename filepath = Some r ->
      In (condition r) cond_tokens
      /\ (Eis.ph r = txt "N/A" \/ ph_captured (Eis.ph r))).
Proof.
  split; [apply parse_in_order|].
  intros H. apply parse_filename_inv in H.
  destruct H as [(idx & chem & ph & cond & (rest & _ & _ & _ & _ & _ & F)
                  & ->)
                |(cond & Hc & _ & [[_ ->]|[_ ->]])]; simpl; auto.
  apply tail_form_fields in F. destruct F as [Hc Hp].
  split; [assumption|]. destruct ph; simpl; auto.
Qed.

Lemma same_id_same_record path1 path2 r1 r2 :
  parse_filename path1 = Some r1 ->
  parse_filename path2 = Some r2 ->
  id r1 = id r2 ->
  r1 = r2.
Proof.
  intros H1 H2 E. apply parse_filename_inv in H1, H2.
  destruct H1 as [(idx & chem & ph & cond & F & ->)
                 |(cond & Hc & _ & [[_ ->]|[_ ->]])];
    destruct H2 as [(idx' & chem' & ph' & cond' & F' & ->)
                   |(cond' & Hc' & _ & [[_ ->]|[_ ->]])].
  - destruct (main_record_unique F F' E) as (-> & -> & -> & ->).
    reflexivity.
  - exfalso. destruct (main_record_digit F) as (d & r & Ed & Hd).
    rewrite Ed in E. inversion E; subst. discriminate Hd.
  - exfalso. destruct (main_record_digit F) as (d & r & Ed & Hd).
    rewrite Ed in E. inversion E; subst. discriminate Hd.
  - exfalso. destruct (main_record_digit F') as (d & r & Ed & Hd).
    rewrite Ed in E. inversion E; subst. discriminate Hd.
  - cbn [id special_record] in E. apply app_inv_head in E.
    inversion E. now subst.
  - discriminate E.
  - exfalso. destruct (main_record_digit F') as (d & r & Ed & Hd).
    rewrite Ed in E. inversion E; subst. discriminate Hd.
  - discriminate E.
  - cbn [id special_record] in E. apply app_inv_head in E.
    inversion E. now subst.
Qed.

(** X2.  The id tells the record: two paths that [parse_filename] gives
    the same id get the same chemical, pH and condition, so the files of one
    experiment id belong to one cell of the grid. *)
Theorem id_determines_record (path1 path2 : text) (r1 r2 : parsed) :
  parse_filename path1 = Some r1 ->
  parse_filename path2 = Some r2 ->
  id r1 = id r2 ->
  r1 = r2.
Proof. apply same_id_same_record. Qed.

Lemma parsed_fields_witness :
  parse_filename (txt "EIS/1_Cu OCP (Bode).txt")
  = Some (main_record (txt "1") (txt "Cu") None (txt "OCP"))
  /\ parse_filename (txt "EIS/Cu KReO4 + Na2SO4 FAR and CAP.txt")
     = Some (special_record (txt "Cu") (txt "FAR"))
  /\ parse_filename (txt "EIS/KReO4 + Na2SO4 CAP.txt")
     = Some (special_record (txt "KReO4 + Na2SO4") (txt "CAP"))
  /\ parsed_in_order (txt "1_KReO4 pH 1 OCP (Nyquist).txt")
       {| id := txt "1_KReO4 pH 1 OCP"; chemical := txt "KReO4";
          Eis.ph := txt "pH 1"; condition := txt "OCP" |}
  /\ ph_captured (txt "pH 1").
Proof.
  split; [reflexivity|]. split; [reflexivity|]. split; [reflexivity|].
  destruct (@parsed_fields (txt "EIS/1_KReO4 pH 1 OCP (Nyquist).txt")
              {| id := txt "1_KReO4 pH 1 OCP"; chemical := txt "KReO4";
                 Eis.ph := txt "pH 1"; condition := txt "OCP" |})
    as [[H1 _] H2].
  split; [exact (H1 eq_refl)|].
  destruct (H2 eq_refl) as [_ [H|H]]; [discriminate H|exact H].
Defined.

Lemma id_determines_record_witness :
  let nyquist := txt "EIS/1_KReO4 pH 1 OCP (Nyquist).txt" in
  let bode := txt "EIS/1_KReO4 pH 1 OCP (Bode).txt" in
  let r1 := {| id := txt "1_KReO4 pH 1 OCP"; chemical := txt "KReO4";
               Eis.ph := txt "pH 1"; condition := txt "OCP" |} in
  let r2 := {| id := txt "1_KReO4 pH 1 OCP"; chemical := strip (txt "KReO4");
               Eis.ph := txt "pH 1"; condition := txt "OCP" |} in
  parse_filename nyquist = Some r1
  /\ parse_filename bode = Some r2
  /\ r1 = r2.
Proof.
  split; [reflexivity|]. split; [reflexivity|].
  apply (@id_determines_record
           (txt "EIS/1_KReO4 pH 1 OCP (Nyquist).txt")
           (txt "EIS/1_KReO4 pH 1 OCP (Bode).txt"));
    reflexivity.
Defined.

End EisRecords.

(** ** plot_eis.py: grouping *)

Module EisGroups.
Import Eis EisSpec EisShape EisRecords PandasFacts IoSpec IoFacts.

Lemma find_update {V} (d : adict V) k f : forall k',
  find (update d k f) k'
  = if text_eqb k k' then Some (f (find d k)) else find d k'.
Proof.
  induction d as [|[k0 v] d IH]; intros k'; simpl.
  - now destruct (text_eqb k k').
  - destruct (text_eqb k0 k) eqn:E0; simpl.
    + apply text_eqb_eq in E0. subst k0. now destruct (text_eqb k k').
    + rewrite IH. destruct (text_eqb k k') eqn:E; [|reflexivity].
      apply text_eqb_eq in E. subst k'. now rewrite E0.
Qed.

Lemma find_in {V} (d : adict V) k v : find d k = Some v -> In (k, v) d.
Proof.
  induction d as [|[k0 v0] d IH]; simpl; [discriminate|].
  destruct (text_eqb k0 k) eqn:E.
  - apply text_eqb_eq in E. intros H. inversion H; subst. now left.
  - intros H. right. now apply IH.
Qed.

(** What holds of the entries of a dict holds after an update, if it holds
    of the updated value. *)
Lemma in_update_inv {V} (Q : text -> V -> Prop) (d : adict V) k f :
  (forall k' v, In (k', v) d -> Q k' v) ->
  (forall o, (o = None \/ exists v, o = Some v /\ In (k, v) d) -> Q k (f o)) ->
  forall k' v', In (k', v') (update d k f) -> Q k' v'.
Proof.
  induction d as [|[k0 v0] d IH]; intros Hd Hf k' v'; simpl.
  - intros [H|[]]. inversion H; subst. apply Hf. now left.
  - destruct (text_eqb k0 k) eqn:E.
    + apply text_eqb_eq in E. subst k0. intros [H|H].
      * inversion H; subst. apply Hf. right. exists v0. split; auto.
        now left.
      * apply Hd. now right.
    + intros [H|H].
      * inversion H; subst. apply Hd. now left.
      * revert H. apply IH.
        -- intros k1 v1 H1. apply Hd. now right.
        -- intros o [->|(v & -> & Hv)]; apply Hf; [now left|].
           right. exists v. split; [reflexivity|now right].
Qed.

Local Abbreviation ef_step :=
  (fun (acc : adict (list text)) (filepath : text) =>
     match parse_filename filepath with
     | Some parsed_info =>
         update acc (id parsed_info) (fun o => at_key [] o ++ [filepath])
     | None => acc
     end).

Lemma ef_sound paths0 : forall paths acc,
  incl paths paths0 ->
  (forall k l, In (k, l) acc ->
               l <> [] /\ forall p, In p l -> of_id paths0 k p) ->
  forall k l, In (k, l) (fold_left ef_step paths acc) ->
              l <> [] /\ forall p, In p l -> of_id paths0 k p.
Proof.
  induction paths as [|a paths IH]; intros acc Hi Hacc; simpl; [exact Hacc|].
  apply IH; [intros x Hx; apply Hi; now right|].
  destruct (parse_filename a) as [r|] eqn:Ea; [|exact Hacc].
  apply in_update_inv; [exact Hacc|].
  assert (Ha : of_id paths0 (id r) a).
  { split; [apply Hi; now left|eauto]. }
  intros o [->|(v & -> & Hv)]; simpl.
  - split; [discriminate|]. intros p [<-|[]]. exact Ha.
  - destruct (Hacc _ _ Hv) as [Hn Hp]. split.
    + destruct v; [contradiction|discriminate].
    + intros p Hin. apply in_app_or in Hin.
      destruct Hin as [Hin|[<-|[]]]; auto.
Qed.

Lemma ef_complete : forall paths acc k p,
  In p (at_key [] (find acc k))
  \/ (In p paths /\ exists r, parse_filename p = Some r /\ id r = k) ->
  In p (at_key [] (find (fold_left ef_step paths acc) k)).
Proof.
  induction paths as [|a paths IH]; intros acc k p H; simpl.
  - destruct H as [H|[[] _]]. exact H.
  - apply IH. destruct H as [H|[[<-|H] Hr]].
    + left. destruct (parse_filename a) as [r|]; [|exact H].
      rewrite find_update. destruct (text_eqb (id r) k) eqn:E; [|exact H].
      apply text_eqb_eq in E. subst k. simpl. apply in_or_app. now left.
    + left. destruct Hr as (r & -> & <-). rewrite find_update.
      rewrite text_eqb_refl. simpl. apply in_or_app. right. now left.
    + right. now split.
Qed.

Local Abbreviation g_step :=
  (fun (grouped_plots : grouped) (entry : text * list text) =>
     let file_list := snd entry in
     match file_list with
     | [] => grouped_plots
     | first :: _ =>
         match parse_filename first with
         | Some parsed_info =>
             update grouped_plots (Eis.ph parsed_info) (fun by_condition =>
               update (at_key [] by_condition) (condition parsed_info)
                 (fun by_chemical =>
                    update (at_key [] by_chemical) (chemical parsed_info)
                      (fun fl => at_key [] fl ++ file_list)))
         | None => grouped_plots
         end
     end).

Lemma at_key_in {V} (o : option (adict V)) k v :
  In (k, v) (at_key [] o) -> exists d, o = Some d /\ In (k, v) d.
Proof. destruct o as [d|]; simpl; [eauto|intros []]. Qed.

Lemma g_sound paths0 : forall entries acc,
  (forall k l, In (k, l) entries -> forall p, In p l -> of_id paths0 k p) ->
  placed paths0 acc -> placed paths0 (fold_left g_step entries acc).
Proof.
  induction entries as [|[k l] entries IH]; intros acc He Hacc; simpl;
    [exact Hacc|].
  apply IH; [intros k' l' H; apply He; now right|].
  destruct l as [|first rest]; [exact Hacc|].
  destruct (parse_filename first) as [r0|] eqn:E0; [|exact Hacc].
  assert (Hl : forall p, In p (first :: rest) ->
                         of_cell paths0 (Eis.ph r0) (condition r0)
                           (chemical r0) p).
  { intros p Hp.
    destruct (He k (first :: rest) (or_introl eq_refl) p Hp)
      as (Hin & r & Hr & Hid).
    destruct (He k (first :: rest) (or_introl eq_refl) first
                (or_introl eq_refl)) as (_ & r' & Hr' & Hid').
    rewrite E0 in Hr'. inversion Hr'; subst r'.
    assert (r = r0) by (eapply same_id_same_record; eauto; congruence).
    subst r. split; [assumption|]. exists r0. auto. }
  unfold placed.
  apply (in_update_inv
           (fun ph d1 => forall cond d2, In (cond, d2) d1 ->
              forall chem fl, In (chem, fl) d2 ->
              forall p, In p fl -> of_cell paths0 ph cond chem p));
    [exact Hacc|].
  intros o1 H1.
  apply (in_update_inv
           (fun cond d2 => forall chem fl, In (chem, fl) d2 ->
              forall p, In p fl ->
              of_cell paths0 (Eis.ph r0) cond chem p)).
  { intros cond d2 Hin. apply at_key_in in Hin.
    destruct Hin as (d & -> & Hin).
    destruct H1 as [H1|(v & H1 & Hv)]; [discriminate|].
    inversion H1; subst v. exact (Hacc _ _ Hv _ _ Hin). }
  intros o2 H2.
  apply (in_update_inv
           (fun chem fl => forall p, In p fl ->
              of_cell paths0 (Eis.ph r0) (condition r0) chem p)).
  { intros chem fl Hin. apply at_key_in in Hin.
    destruct Hin as (d & -> & Hin).
    destruct H2 as [H2|(v & H2 & Hv)]; [discriminate|].
    inversion H2; subst v. apply at_key_in in Hv.
    destruct Hv as (d1 & -> & Hv).
    destruct H1 as [H1|(v1 & H1 & Hv1)]; [discriminate|].
    inversion H1; subst v1. exact (Hacc _ _ Hv1 _ _ Hv _ _ Hin). }
  intros o3 H3 p Hp. apply in_app_or in Hp. destruct Hp as [Hp|Hp]; [|auto].
  destruct H3 as [->|(v3 & -> & Hv3)]; [destruct Hp|]. simpl in Hp.
  apply at_key_in in Hv3. destruct Hv3 as (d2 & -> & Hv3).
  destruct H2 as [H2|(v2 & H2 & Hv2)]; [discriminate|].
  inversion H2; subst v2. apply at_key_in in Hv2.
  destruct Hv2 as (d1 & -> & Hv2).
  destruct H1 as [H1|(v1 & H1 & Hv1)]; [discriminate|].
  inversion H1; subst v1. exact (Hacc _ _ Hv1 _ _ Hv2 _ _ Hv3 _ Hp).
Qed.

Lemma leaf_update (g : grouped) ph0 c0 ch0 l ph c ch :
  leaf (update g ph0 (fun o1 =>
          update (at_key [] o1) c0 (fun o2 =>
            update (at_key [] o2) ch0 (fun o3 => at_key [] o3 ++ l))))
       ph c ch
  = if text_eqb ph0 ph && text_eqb c0 c && text_eqb ch0 ch
    then leaf g ph c ch ++ l
    else leaf g ph c ch.
Proof.
  unfold leaf. rewrite find_update.
  destruct (text_eqb ph0 ph) eqn:E1; [|reflexivity].
  apply text_eqb_eq in E1. subst ph0. cbn [at_key andb].
  rewrite find_update.
  destruct (text_eqb c0 c) eqn:E2; [|reflexivity].
  apply text_eqb_eq in E2. subst c0. cbn [at_key andb].
  rewrite find_update.
  destruct (text_eqb ch0 ch) eqn:E3; [|reflexivity].
  apply text_eqb_eq in E3. subst ch0. reflexivity.
Qed.

Lemma g_complete : forall entries acc ph cond chem p,
  In p (leaf acc ph cond chem)
  \/ (exists k first rest r0,
        In (k, first :: rest) entries /\ In p (first :: rest) /\
        parse_filename first = Some r0 /\
        Eis.ph r0 = ph /\ condition r0 = cond /\ chemical r0 = chem) ->
  In p (leaf (fold_left g_step entries acc) ph cond chem).
Proof.
  induction entries as [|[k l] entries IH]; intros acc ph cond chem p H;
    simpl.
  - destruct H as [H|(k & f & r & r0 & [] & _)]. exact H.
  - apply IH. destruct H as [H|(k' & f & r & r0 & [Hin|Hin] & H)].
    + left. destruct l as [|first rest]; [exact H|].
      destruct (parse_filename first) as [r0|]; [|exact H].
      rewrite leaf_update.
      destruct (text_eqb (Eis.ph r0) ph && text_eqb (condition r0) cond
                && text_eqb (chemical r0) chem); [|exact H].
      apply in_or_app. now left.
    + left. inversion Hin; subst.
      destruct H as (Hp & -> & <- & <- & <-).
      rewrite leaf_update, !text_eqb_refl. apply in_or_app. now right.
    + right. exists k', f, r, r0. auto.
Qed.

Lemma leaf_in (g : grouped) ph cond chem p :
  In p (leaf g ph cond chem) ->
  exists d1 d2 fl,
    In (ph, d1) g /\ In (cond, d2) d1 /\ In (chem, fl) d2 /\ In p fl.
Proof.
  unfold leaf. intros H.
  destruct (find g ph) as [d1|] eqn:E1; [|contradiction H].
  cbn [at_key] in H.
  destruct (find d1 cond) as [d2|] eqn:E2; [|contradiction H].
  cbn [at_key] in H.
  destruct (find d2 chem) as [fl|] eqn:E3; [|contradiction H].
  exists d1, d2, fl. cbn [at_key] in H. auto using find_in.
Qed.

Lemma ef_listing paths k l :
  In (k, l) (experiment_files paths) ->
  l <> [] /\ forall q, In q l -> of_id paths k q.
Proof.
  unfold experiment_files. apply ef_sound; [apply incl_refl|intros ? ? []].
Qed.

Lemma group_placed (w : World) (data_dir : text) :
  placed (glob w (OsPath.join data_dir (txt "*.txt")))
    (group_files_by_experiment w data_dir).
Proof.
  unfold group_files_by_experiment, group_experiments.
  apply g_sound; [|intros ? ? []].
  intros k l Hkl. now apply ef_listing.
Qed.

Lemma group_complete (w : World) (data_dir : text) ph cond chem p :
  of_cell (glob w (OsPath.join data_dir (txt "*.txt"))) ph cond chem p ->
  In p (leaf (group_files_by_experiment w data_dir) ph cond chem).
Proof.
  unfold group_files_by_experiment, group_experiments.
  set (paths := glob w (OsPath.join data_dir (txt "*.txt"))).
  intros (Hin & r & Hr & <- & <- & <-).
  apply g_complete. right.
  assert (Hp : In p (at_key [] (find (experiment_files paths) (id r)))).
  { apply ef_complete. right. split; [assumption|eauto]. }
  destruct (find (experiment_files paths) (id r)) as [l|] eqn:El;
    [|destruct Hp].
  simpl in Hp. apply find_in in El.
  destruct (ef_listing _ _ _ El) as [Hn Hl].
  destruct l as [|first rest]; [contradiction|].
  destruct (Hl first (or_introl eq_refl)) as (_ & r0 & Hr0 & Hid).
  assert (r0 = r) by (eapply same_id_same_record; eauto).
  subst r0. exists (id r), first, rest, r. auto 10.
Qed.

(** X3.  [group_files_by_experiment] puts a path under
    [ph][condition][chemical] exactly when the path is in the listing of
    the directory and [parse_filename] gives it these three fields: nothing
    is lost, nothing is misplaced. *)
Theorem each_file_in_its_cell (w : World) (data_dir : text)
    (ph cond chem p : text) :
  In p (leaf (group_files_by_experiment w data_dir) ph cond chem)
  <-> of_cell (glob w (OsPath.join data_dir (txt "*.txt"))) ph cond chem p.
Proof.
  split; [|apply group_complete].
  intros H. apply leaf_in in H.
  destruct H as (d1 & d2 & fl & H1 & H2 & H3 & Hp).
  exact (group_placed w data_dir _ _ H1 _ _ H2 _ _ H3 _ Hp).
Qed.

End EisGroups.

(** ** The run of plot_eis.py *)

Module EisRun.
Import Eis EisSpec EisShape EisGroups PandasFacts IoSpec IoFacts.

Lemma always_impl (P Q : event -> Prop) {A} (m : io A) :
  (forall e, P e -> Q e) -> always P m -> always Q m.
Proof. intros H. unfold always. apply Forall_impl. exact H. Qed.

Lemma insert_item_in {V} (x y : text * V) l :
  In y (insert_item x l) <-> y = x \/ In y l.
Proof.
  induction l as [|z l IH]; simpl; [intuition|].
  destruct (text_leb (fst x) (fst z)); simpl; [intuition|].
  rewrite IH. intuition.
Qed.

Lemma sorted_items_in {V} (y : text * V) l :
  In y (sorted_items l) <-> In y l.
Proof.
  induction l as [|x l IH]; simpl; [tauto|].
  rewrite insert_item_in, IH. intuition.
Qed.

Lemma enumerate_in {A} (xs : list A) : forall n i x,
  In (i, x) (enumerate n xs) -> In x xs.
Proof.
  induction xs as [|a xs IH]; simpl; intros n i x H; [exact H|].
  destruct H as [H|H]; [inversion H; now left|right; eauto].
Qed.

(** What [load_eis_data] reads is in the list it is given. *)
Lemma load_reads_its_files w fl :
  always (fun e => match e with ReadCsv p _ => In p fl | _ => True end)
    (load_eis_data w fl).
Proof.
  unfold load_eis_data, pd_read_csv.
  destruct fl as [|f1 [|f2 [|f3 fl]]];
    repeat first [ apply always_emit; simpl; tauto | always_step ].
Qed.

Lemma experiment_reads w ax chem fl (P : event -> Prop) :
  (forall p s, In p fl -> P (ReadCsv p s)) ->
  (forall e, is_read e = false -> P e) ->
  always P (plot_experiment w ax chem fl).
Proof.
  intros Hr Hn. unfold plot_experiment.
  apply always_bind.
  - eapply always_impl; [|apply load_reads_its_files].
    intros [] H; try (apply Hn; reflexivity). now apply Hr.
  - intros o _. destruct o as [df|]; [|apply always_ret].
    repeat first [ apply always_emit; apply Hn; reflexivity | always_step ].
Qed.

Lemma cell_reads w g paths i j ph cond (P : event -> Prop) :
  placed paths g ->
  (forall chem p s, of_cell paths ph cond chem p -> P (ReadCsv p s)) ->
  (forall e, is_read e = false -> P e) ->
  always P (cell w g i j ph cond).
Proof.
  intros Hg Hr Hn. unfold cell. cbv zeta.
  do 3 (apply always_bind; [apply always_emit; apply Hn; reflexivity
                           |intros _ _]).
  apply always_bind.
  - apply always_for_each. intros [chem fl] Hin.
    apply (proj1 (sorted_items_in _ _)) in Hin. cbn [fst snd].
    apply experiment_reads; [|exact Hn].
    intros p s Hp. apply (Hr chem).
    destruct (find g ph) as [d1|] eqn:E1; [|destruct Hin].
    cbn [at_key] in Hin.
    destruct (find d1 cond) as [d2|] eqn:E2; [|destruct Hin].
    cbn [at_key] in Hin.
    exact (Hg _ _ (find_in _ _ E1) _ _ (find_in _ _ E2) _ _ Hin _ Hp).
  - intros _ _.
    repeat first [ apply always_emit; apply Hn; reflexivity | always_step ].
Qed.

Lemma save_figure_always w fig out (P : event -> Prop) :
  (forall e, is_read e = false -> P e) -> always P (save_figure w fig out).
Proof.
  intros Hn. unfold save_figure.
  repeat first [ apply always_emit; apply Hn; reflexivity | always_step ].
Qed.

Lemma grid_reads w : always (grid_read w) (plot_eis_data w).
Proof.
  assert (Hn : forall e, is_read e = false -> grid_read w e).
  { intros [] H; try exact I. discriminate. }
  unfold plot_eis_data. cbv zeta.
  do 6 (apply always_bind; [apply always_emit; exact I|intros _ _]).
  apply always_bind.
  - apply always_for_each. intros [i ph] Hi.
    apply always_for_each. intros [j cond] Hj. cbn [fst snd].
    apply enumerate_in in Hi. apply enumerate_in in Hj.
    apply cell_reads with (paths := listing w);
      [apply group_placed| |exact Hn].
    intros chem p s (Hp & r & Hr & <- & <- & _). cbn [grid_read].
    split; [exact Hp|]. exists r. auto.
  - intros _ _.
    repeat first [ apply save_figure_always; exact Hn
                 | apply always_emit; exact I | always_step ].
Qed.

Lemma in_reads p t : In p (reads t) <-> exists s, In (ReadCsv p s) t.
Proof.
  unfold reads. rewrite in_flat_map. split.
  - intros ([] & He & Hp); simpl in Hp; try contradiction.
    destruct Hp as [<-|[]]. eauto.
  - intros (s & H). exists (ReadCsv p s). split; [exact H|now left].
Qed.

(** X4.  [plot_eis_data] reads only files of the listing of [EIS/] that
    [parse_filename] recognises with a pH among the three rows and a
    condition among the three columns of the grid.  A file whose pH field
    is [N/A] (no pH in its name, or one of the two special forms) is never
    read. *)
Theorem reads_are_grid_files (w : World) :
  always (grid_read w) (plot_eis_data w)
  /\ (forall p r,
        parse_filename p = Some r -> Eis.ph r = txt "N/A" ->
        ~ In p (reads (trace (plot_eis_data w)))).
Proof.
  split; [apply grid_reads|].
  intros p r Hr Hph Hin. apply in_reads in Hin. destruct Hin as (s & Hin).
  pose proof (grid_reads w) as H. unfold always in H.
  rewrite Forall_forall in H. specialize (H _ Hin). cbn [grid_read] in H.
  destruct H as (_ & r' & Hr' & Hrow & _).
  rewrite Hr in Hr'. inversion Hr'; subst r'. rewrite Hph in Hrow.
  revert Hrow. clear. unfold ROWS. simpl.
  intros [H|[H|[H|[]]]]; discriminate.
Qed.

(** *** The curves *)

Lemma load_no_plot w fl :
  always (fun e => is_plot e = false) (load_eis_data w fl).
Proof.
  unfold load_eis_data, pd_read_csv.
  destruct fl as [|f1 [|f2 [|f3 fl]]];
    repeat first [ apply always_emit; reflexivity | always_step ].
Qed.

Lemma not_plot_grid w e : is_plot e = false -> grid_plot w e.
Proof. destruct e; try (intros; exact I). discriminate. Qed.

Lemma enumerate_nth {A} (xs : list A) : forall n i x,
  In (i, x) (enumerate n xs) -> n <= i /\ nth_error xs (i - n) = Some x.
Proof.
  induction xs as [|a xs IH]; simpl; intros n i x H; [destruct H|].
  destruct H as [H|H].
  - inversion H; subst. rewrite Nat.sub_diag. split; [lia|reflexivity].
  - apply IH in H. destruct H as [Hle Hn]. split; [lia|].
    replace (i - n) with (S (i - S n)) by lia. exact Hn.
Qed.

Lemma cell_items_placed w ph cond chem fl :
  In (chem, fl) (cell_items (group_files_by_experiment w DATA_DIR) ph cond) ->
  forall p, In p fl -> of_cell (listing w) ph cond chem p.
Proof.
  unfold cell_items. intros Hin p Hp.
  destruct (find (group_files_by_experiment w DATA_DIR) ph) as [d1|] eqn:E1;
    [|destruct Hin].
  cbn [at_key] in Hin.
  destruct (find d1 cond) as [d2|] eqn:E2; [|destruct Hin].
  cbn [at_key] in Hin.
  exact (group_placed w DATA_DIR _ _ (find_in _ _ E1) _ _ (find_in _ _ E2)
           _ _ Hin _ Hp).
Qed.

Lemma experiment_plots w i j ph cond chem fl :
  nth_error ROWS i = Some ph -> nth_error COLS j = Some cond ->
  In (chem, fl) (cell_items (group_files_by_experiment w DATA_DIR) ph cond) ->
  always (grid_plot w) (plot_experiment w (3 * i + j) chem fl).
Proof.
  intros Hi Hj Hin. unfold plot_experiment.
  apply always_bind.
  - eapply always_impl; [apply not_plot_grid|apply load_no_plot].
  - intros [df|] Hl; [|apply always_ret]. cbv zeta.
    assert (Plotted : forall fig x y,
              (fig = 0 /\ getitem df z_real = Ok x /\
               getitem df z_imag = Ok y)
              \/ (fig = 1 /\ getitem df frequency = Ok x /\
                  getitem df z_abs = Ok y)
              \/ (fig = 2 /\ getitem df frequency = Ok x /\
                  getitem df phase = Ok y) ->
              grid_plot w (Plot fig (3 * i + j) x y chem (style_for chem))).
    { intros fig x y H. exists i, j, ph, cond, fl, df.
      split; [exact Hi|]. split; [exact Hj|]. split; [reflexivity|].
      split; [exact Hin|]. split; [now apply cell_items_placed|].
      split; [exact Hl|]. split; [reflexivity|exact H]. }
    apply always_bind; [apply always_lift|]. intros x Hx.
    apply always_bind; [apply always_lift|]. intros y Hy.
    apply always_bind; [apply always_emit, Plotted; auto|]. intros _ _.
    apply always_bind; [apply always_lift|]. intros f Hf.
    apply always_bind; [apply always_lift|]. intros z Hz.
    apply always_bind; [apply always_emit, Plotted; auto|]. intros _ _.
    apply always_bind; [apply always_lift|]. intros f' Hf'.
    apply always_bind; [apply always_lift|]. intros p Hp.
    apply always_emit, Plotted; auto.
Qed.

(** X14.  Every curve [plot_eis_data] draws is in the cell of a row and a
    column of the grid, on one of the three figures, for an experiment
    whose files all have the pH of the row and the condition of the column;
    its label is their chemical, its style the one of that chemical, and
    its data the two columns of the loaded frame the figure is for. *)
Theorem curves_in_their_cells (w : World) :
  always (grid_plot w) (plot_eis_data w).
Proof.
  assert (Hn : forall e, is_plot e = false -> grid_plot w e)
    by apply not_plot_grid.
  unfold plot_eis_data. cbv zeta.
  do 6 (apply always_bind; [apply always_emit; exact I|intros _ _]).
  apply always_bind.
  - apply always_for_each. intros [i ph] Hi.
    apply always_for_each. intros [j cond] Hj. cbn [fst snd].
    apply enumerate_nth in Hi. apply enumerate_nth in Hj.
    rewrite Nat.sub_0_r in Hi, Hj. destruct Hi as [_ Hi], Hj as [_ Hj].
    unfold cell. cbv zeta.
    do 3 (apply always_bind; [apply always_emit; exact I|intros _ _]).
    apply always_bind.
    + apply always_for_each. intros [chem fl] Hin. cbn [fst snd].
      apply (proj1 (sorted_items_in _ _)) in Hin.
      now apply experiment_plots with (ph := ph) (cond := cond).
    + intros _ _.
      repeat first [ apply always_emit; exact I | always_step ].
  - intros _ _. unfold save_figure.
    repeat first [ apply always_emit; exact I | always_step ].
Qed.

(** *** A frame without a column that is drawn *)

Section Failing.

Variable Ex : exn -> Prop.

Lemma for_each_cases {A} (xs : list A) (body : A -> io unit) :
  (forall x, In x xs -> outcome (body x) = Ok tt \/ fails Ex (body x)) ->
  outcome (for_each xs body) = Ok tt \/ fails Ex (for_each xs body).
Proof.
  induction xs as [|x xs IH]; intros H; simpl; [now left|].
  unfold fails. rewrite outcome_bind.
  destruct (H x (or_introl eq_refl)) as [->|(e & He & ->)]; [|eauto].
  apply IH. intros y Hy. apply H. now right.
Qed.

Lemma for_each_fails {A} (xs : list A) (body : A -> io unit) :
  (forall x, In x xs -> outcome (body x) = Ok tt \/ fails Ex (body x)) ->
  (exists x, In x xs /\ fails Ex (body x)) ->
  fails Ex (for_each xs body).
Proof.
  induction xs as [|x xs IH]; intros H (y & Hy & Hf); [destruct Hy|].
  simpl. unfold fails. rewrite outcome_bind.
  destruct (H x (or_introl eq_refl)) as [E|(e & He & E)]; rewrite E;
    [|eauto].
  apply IH; [intros z Hz; apply H; now right|].
  destruct Hy as [<-|Hy]; [|eauto].
  destruct Hf as (e & _ & Hf). congruence.
Qed.

End Failing.

Lemma getitem_cases df c :
  (exists v, getitem df c = Ok v /\ has_column df c = true)
  \/ (getitem df c = Raise (KeyError c) /\ has_column df c = false).
Proof.
  induction df as [|[n v] df IH]; simpl; [now right|].
  destruct (text_eqb n c); simpl; [left; eauto|exact IH].
Qed.

Lemma outcome_lift_bind {A B} (r : result A) (k : A -> io B) :
  outcome (bind (lift r) k)
  = match r with Ok a => outcome (k a) | Raise e => Raise e end.
Proof. rewrite outcome_bind. reflexivity. Qed.

Lemma outcome_emit_bind {B} e (k : unit -> io B) :
  outcome (bind (emit e) k) = outcome (k tt).
Proof. rewrite outcome_bind. reflexivity. Qed.

Lemma load_never_raises w fl :
  exists o, outcome (load_eis_data w fl) = Ok o.
Proof.
  unfold load_eis_data. rewrite outcome_try.
  match goal with |- context [match outcome ?m with _ => _ end] =>
    destruct (outcome m) end; [eauto|].
  rewrite outcome_bind. simpl. eauto.
Qed.

Lemma experiment_cases w ax chem fl :
  (outcome (plot_experiment w ax chem fl) = Ok tt /\
   forall df, outcome (load_eis_data w fl) = Ok (Some df) ->
              forall c, In c drawn_columns -> has_column df c = true)
  \/ ((exists e, key_error e /\
                 outcome (plot_experiment w ax chem fl) = Raise e) /\
      exists df c, outcome (load_eis_data w fl) = Ok (Some df) /\
                   In c drawn_columns /\ has_column df c = false).
Proof.
  unfold plot_experiment. rewrite outcome_bind.
  destruct (outcome (load_eis_data w fl)) as [[df|]|e] eqn:El.
  - unfold key_error, drawn_columns.
    destruct (getitem_cases df z_real) as [(v1 & E1 & H1)|[E1 H1]];
      rewrite outcome_lift_bind, E1;
      [|right; split; [exists (KeyError z_real); simpl; eauto 8|
                       exists df, z_real; simpl; tauto]].
    destruct (getitem_cases df z_imag) as [(v2 & E2 & H2)|[E2 H2]];
      rewrite outcome_lift_bind, E2;
      [|right; split; [exists (KeyError z_imag); simpl; eauto 8|
                       exists df, z_imag; simpl; tauto]].
    rewrite outcome_emit_bind.
    destruct (getitem_cases df frequency) as [(v3 & E3 & H3)|[E3 H3]];
      rewrite outcome_lift_bind, E3;
      [|right; split; [exists (KeyError frequency); simpl; eauto 8|
                       exists df, frequency; simpl; tauto]].
    destruct (getitem_cases df z_abs) as [(v4 & E4 & H4)|[E4 H4]];
      rewrite outcome_lift_bind, E4;
      [|right; split; [exists (KeyError z_abs); simpl; eauto 8|
                       exists df, z_abs; simpl; tauto]].
    rewrite outcome_emit_bind, outcome_lift_bind.
    destruct (getitem_cases df phase) as [(v5 & E5 & H5)|[E5 H5]];
      rewrite outcome_lift_bind, E5;
      [|right; split; [exists (KeyError phase); simpl; eauto 10|
                       exists df, phase; simpl; tauto]].
    left. split; [reflexivity|].
    intros df' Hdf c Hc. inversion Hdf; subst df'. simpl in Hc.
    destruct Hc as [<-|[<-|[<-|[<-|[<-|[]]]]]]; assumption.
  - left. split; [reflexivity|]. intros df H. discriminate.
  - destruct (load_never_raises w fl) as [o Ho]. congruence.
Qed.

Lemma in_enumerate {A} (xs : list A) : forall n x,
  In x xs -> exists i, In (i, x) (enumerate n xs).
Proof.
  induction xs as [|a xs IH]; intros n x []; simpl.
  - subst. eauto.
  - destruct (IH (S n) x) as [i Hi]; eauto.
Qed.

Lemma cell_cases w g i j ph cond :
  outcome (cell w g i j ph cond) = Ok tt
  \/ exists e, key_error e /\ outcome (cell w g i j ph cond) = Raise e.
Proof.
  unfold cell. cbv zeta. rewrite !outcome_emit_bind, outcome_bind.
  match goal with |- context [for_each ?xs ?body] =>
    destruct (@for_each_cases key_error _ xs body) as [E|(e & He & E)] end.
  - intros [chem fl] _. cbn [fst snd].
    destruct (experiment_cases w (3 * i + j) chem fl) as [[E _]|[E _]];
      [now left|now right].
  - rewrite E. left. reflexivity.
  - rewrite E. right. eauto.
Qed.

Lemma cell_fails w g i j ph cond chem fl df c :
  experiment g ph cond chem = Some fl ->
  outcome (load_eis_data w fl) = Ok (Some df) ->
  In c drawn_columns -> has_column df c = false ->
  exists e, key_error e /\ outcome (cell w g i j ph cond) = Raise e.
Proof.
  unfold experiment. intros Hfl Hl Hc Hdf.
  unfold cell. cbv zeta. rewrite !outcome_emit_bind, outcome_bind.
  match goal with |- context [for_each ?xs ?body] =>
    destruct (@for_each_fails key_error _ xs body) as (e & He & E) end.
  - intros [chem' fl'] _. cbn [fst snd].
    destruct (experiment_cases w (3 * i + j) chem' fl') as [[E _]|[E _]];
      [now left|now right].
  - exists (chem, fl). split.
    + apply sorted_items_in. now apply find_in.
    + cbn [fst snd].
      destruct (experiment_cases w (3 * i + j) chem fl) as [[_ E]|[E _]];
        [|exact E].
      rewrite (E df Hl c Hc) in Hdf. discriminate.
  - rewrite E. eauto.
Qed.

Lemma load_no_save w fl :
  always (fun e => is_save e = false) (load_eis_data w fl).
Proof.
  unfold load_eis_data, pd_read_csv.
  destruct fl as [|f1 [|f2 [|f3 fl]]];
    repeat first [ apply always_emit; reflexivity | always_step ].
Qed.

Lemma cell_no_save w g i j ph cond :
  always (fun e => is_save e = false) (cell w g i j ph cond).
Proof.
  unfold cell, plot_experiment. cbv zeta.
  repeat first [ apply load_no_save | apply always_emit; reflexivity
               | always_step ].
Qed.

Lemma no_save_so_far (t : list event) :
  Forall (fun e => is_save e = false) t -> existsb is_save t = false.
Proof.
  induction 1 as [|e t He _ IH]; simpl; [reflexivity|].
  now rewrite He.
Qed.

(** X5.  Nothing in [plot_eis_data] catches the KeyError of a missing
    column: when the frame loaded for one experiment of the grid lacks one
    of the five columns that are drawn, the run ends with the KeyError of
    such a column and no figure is saved. *)
Theorem a_missing_column_stops_the_run (w : World)
    (ph cond chem : text) (fl : list text) (df : frame) (c : text) :
  In ph ROWS -> In cond COLS ->
  experiment (group_files_by_experiment w DATA_DIR) ph cond chem = Some fl ->
  outcome (load_eis_data w fl) = Ok (Some df) ->
  In c drawn_columns -> has_column df c = false ->
  (exists c', In c' drawn_columns /\
              outcome (plot_eis_data w) = Raise (KeyError c'))
  /\ existsb is_save (trace (plot_eis_data w)) = false.
Proof.
  intros Hph Hcond Hfl Hl Hc Hdf.
  set (g := group_files_by_experiment w DATA_DIR) in *.
  assert (Hgrid :
    exists e, key_error e /\
      outcome (for_each (enumerate 0 ROWS) (fun ir =>
                 for_each (enumerate 0 COLS) (fun jc =>
                   cell w g (fst ir) (fst jc) (snd ir) (snd jc))))
      = Raise e).
  { destruct (in_enumerate ROWS 0 ph Hph) as [i Hi].
    destruct (in_enumerate COLS 0 cond Hcond) as [j Hj].
    apply for_each_fails.
    - intros [i' ph'] _. apply for_each_cases.
      intros [j' cond'] _. apply cell_cases.
    - exists (i, ph). split; [exact Hi|]. apply for_each_fails.
      + intros [j' cond'] _. apply cell_cases.
      + exists (j, cond). split; [exact Hj|]. cbn [fst snd].
        eapply cell_fails; eauto. }
  destruct Hgrid as (e & (c' & Hc' & ->) & E).
  unfold plot_eis_data. cbv zeta. fold g. split.
  - exists c'. split; [exact Hc'|].
    rewrite !outcome_emit_bind, outcome_bind, E. reflexivity.
  - apply no_save_so_far.
    rewrite !trace_bind. cbn [outcome emit snd trace fst].
    rewrite E, app_nil_r.
    repeat (apply Forall_app; split;
            [repeat constructor|]).
    apply always_for_each. intros [i' ph'] _.
    apply always_for_each. intros [j' cond'] _. apply cell_no_save.
Qed.

Lemma a_missing_column_stops_the_run_witness :
  let w := Demo.eis_nyquist_only in
  experiment (group_files_by_experiment w DATA_DIR)
    (txt "pH 4") (txt "CAP") (txt "KReO4")
  = Some [txt "EIS/2_KReO4 pH 4 CAP (Nyquist).txt"]
  /\ has_column Demo.nyquist_half z_abs = false
  /\ (exists c', In c' drawn_columns /\
                 outcome (plot_eis_data w) = Raise (KeyError c'))
  /\ existsb is_save (trace (plot_eis_data w)) = false.
Proof.
  split; [reflexivity|]. split; [reflexivity|].
  apply (@a_missing_column_stops_the_run Demo.eis_nyquist_only
           (txt "pH 4") (txt "CAP") (txt "KReO4")
           [txt "EIS/2_KReO4 pH 4 CAP (Nyquist).txt"]
           Demo.nyquist_half z_abs);
    try reflexivity; simpl; tauto.
Defined.

End EisRun.

(** ** The labels of plot_ca.py *)

Module CaLabel.
Import ReSpec ReFacts EisSpec CaSpec IoSpec.

Lemma re_search_none r : forall s,
  re_search r s = None ->
  forall a u b g, s = a ++ u ++ b -> ~ matches r u [] g.
Proof.
  induction s as [|x s IH]; intros H a u b g E; simpl in H.
  - destruct (re_match r []) eqn:Em; [discriminate|].
    destruct a; [|discriminate]. simpl in E.
    exact (@re_match_none r [] Em u b g E).
  - destruct (re_match r (x :: s)) eqn:Em; [discriminate|].
    destruct a as [|y a].
    + simpl in E. exact (@re_match_none r (x :: s) Em u b g E).
    + inversion E; subst. exact (IH H a u b g eq_refl).
Qed.

Lemma matches_seq_inv r1 r2 u g g2 :
  matches (Seq r1 r2) u g g2 ->
  exists u1 u2 g1,
    u = u1 ++ u2 /\ matches r1 u1 g g1 /\ matches r2 u2 g1 g2.
Proof. inversion 1; subst; eauto 6. Qed.

Lemma matches_lit_inv l u g g' :
  matches (Lit l) u g g' -> u = l /\ g' = g.
Proof. inversion 1; subst; auto. Qed.

Lemma matches_group_inv n r u g g' :
  matches (Group n r) u g g' ->
  exists g0, g' = (n, u) :: g0 /\ matches r u g g0.
Proof. inversion 1; subst; eauto. Qed.

Lemma matches_plus_inv c u g g' :
  matches (Plus c) u g g' ->
  u <> [] /\ forallb (in_cls c) u = true /\ g' = g.
Proof. inversion 1; subst. repeat split; [discriminate|assumption]. Qed.

Lemma matches_star_inv c u g g' :
  matches (Star c) u g g' -> forallb (in_cls c) u = true /\ g' = g.
Proof. inversion 1; subst; auto. Qed.

Lemma ph_pattern_inv u g :
  matches Ca.ph_pattern u [] g ->
  exists ds, u = txt "pH" ++ ds /\ ds <> [] /\
             forallb is_digit ds = true /\ part g 1 = ds.
Proof.
  unfold Ca.ph_pattern. intros H.
  apply matches_seq_inv in H. destruct H as (u1 & u2 & g1 & -> & H1 & H2).
  apply matches_lit_inv in H1. destruct H1 as [-> ->].
  apply matches_group_inv in H2. destruct H2 as (g0 & -> & H2).
  apply matches_plus_inv in H2. destruct H2 as (Hn & Hd & ->).
  exists u2. auto.
Qed.

Lemma ph_pattern_intro ds :
  ds <> [] -> forallb is_digit ds = true ->
  matches Ca.ph_pattern (txt "pH" ++ ds) [] [(1, ds)].
Proof.
  intros Hn Hd. destruct ds as [|a ds]; [contradiction|].
  unfold Ca.ph_pattern. eapply MSeq; [apply MLit|].
  apply MGroup. now apply MPlus.
Qed.

Lemma label_pattern_inv u g :
  matches Ca.label_pattern u [] g ->
  exists ds lab,
    u = txt "pH" ++ ds ++ txt "_" ++ lab ++ txt ".txt" /\
    ds <> [] /\ forallb is_digit ds = true /\
    forallb is_dot lab = true /\ part g 1 = lab.
Proof.
  unfold Ca.label_pattern. cbn [seq]. intros H.
  apply matches_seq_inv in H. destruct H as (u1 & r1 & g1 & -> & H1 & H).
  apply matches_lit_inv in H1. destruct H1 as [-> ->].
  apply matches_seq_inv in H. destruct H as (ds & r2 & g2 & -> & H2 & H).
  apply matches_plus_inv in H2. destruct H2 as (Hn & Hd & ->).
  apply matches_seq_inv in H. destruct H as (u3 & r3 & g3 & -> & H3 & H).
  apply matches_lit_inv in H3. destruct H3 as [-> ->].
  apply matches_seq_inv in H. destruct H as (lab & u5 & g4 & -> & H4 & H).
  apply matches_group_inv in H4. destruct H4 as (g0 & -> & H4).
  apply matches_star_inv in H4. destruct H4 as (Hl & ->).
  apply matches_lit_inv in H. destruct H as [-> ->].
  exists ds, lab. auto.
Qed.

Lemma label_pattern_intro ds lab :
  ds <> [] -> forallb is_digit ds = true -> forallb is_dot lab = true ->
  matches Ca.label_pattern
    (txt "pH" ++ ds ++ txt "_" ++ lab ++ txt ".txt") [] [(1, lab)].
Proof.
  intros Hn Hd Hl. destruct ds as [|a ds]; [contradiction|].
  unfold Ca.label_pattern. cbn [seq].
  eapply MSeq; [apply MLit|].
  eapply MSeq; [now apply MPlus|].
  eapply MSeq; [apply MLit|].
  eapply MSeq; [apply MGroup; now apply MStar|apply MLit].
Qed.

Lemma contains_occurs p s : contains p s = true <-> occurs p s.
Proof.
  split; [apply contains_inv|].
  intros (a & b & ->). apply contains_intro.
Qed.

Lemma ph_named_searches f :
  ph_named f ->
  contains (txt "pH") f = true
  /\ (exists m, re_search Ca.ph_pattern f = Some m)
  /\ (exists m, re_search Ca.label_pattern f = Some m).
Proof.
  intros (a & ds & lab & b & -> & Hn & Hd & Hl). split; [|split].
  - apply contains_intro.
  - destruct (re_search Ca.ph_pattern
                (a ++ txt "pH" ++ ds ++ txt "_" ++ lab ++ txt ".txt" ++ b))
      as [m|] eqn:E; [eauto|exfalso].
    refine (@re_search_none _ _ E a (txt "pH" ++ ds)
              (txt "_" ++ lab ++ txt ".txt" ++ b) _ _
              (@ph_pattern_intro ds Hn Hd)).
    now rewrite <- !app_assoc.
  - destruct (re_search Ca.label_pattern
                (a ++ txt "pH" ++ ds ++ txt "_" ++ lab ++ txt ".txt" ++ b))
      as [m|] eqn:E; [eauto|exfalso].
    refine (@re_search_none _ _ E a
              (txt "pH" ++ ds ++ txt "_" ++ lab ++ txt ".txt") b _ _
              (@label_pattern_intro ds lab Hn Hd Hl)).
    f_equal. cbn [txt list_ascii_of_string app]. f_equal. f_equal.
    rewrite <- !app_assoc. cbn [app]. f_equal.
    now rewrite <- !app_assoc.
Qed.

Lemma plot_label_cases f :
  match Ca.plot_label f with
  | Some label =>
      ph_label f label
      \/ (label = txt "Cu" /\ ~ occurs (txt "pH") f /\ occurs (txt "Cu") f)
  | None => ~ recognised f
  end.
Proof.
  unfold Ca.plot_label.
  destruct (contains (txt "pH") f) eqn:Eph.
  - destruct (re_search Ca.ph_pattern f) as [mp|] eqn:Ep.
    + destruct (re_search Ca.label_pattern f) as [ml|] eqn:El.
      * left. cbv zeta.
        destruct (re_search_some _ _ Ep) as (a' & u' & b' & E' & M').
        destruct (re_search_some _ _ El) as (a & u & b & E & M).
        apply ph_pattern_inv in M'.
        destruct M' as (ds' & -> & Hn' & Hd' & ->).
        apply label_pattern_inv in M.
        destruct M as (ds & lab & -> & Hn & Hd & Hl & ->).
        exists a, ds, lab, b, a', ds', b'.
        repeat split; try assumption.
        rewrite E. f_equal. cbn [txt list_ascii_of_string app].
        f_equal. f_equal. rewrite <- !app_assoc. cbn [app]. f_equal.
        now rewrite <- !app_assoc.
      * intros [H|[H _]].
        -- apply ph_named_searches in H. destruct H as (_ & _ & m & H).
           congruence.
        -- apply H. now apply contains_occurs.
    + intros [H|[H _]].
      * apply ph_named_searches in H. destruct H as (_ & (m & H) & _).
        destruct (re_search Ca.label_pattern f); congruence.
      * apply H. now apply contains_occurs.
  - assert (Hno : ~ occurs (txt "pH") f).
    { intros H. apply contains_occurs in H. congruence. }
    destruct (contains (txt "Cu") f) eqn:Ecu.
    + right. split; [reflexivity|]. split; [exact Hno|].
      now apply contains_occurs.
    + intros [H|[_ H]].
      * apply ph_named_searches in H. destruct H as (H & _). congruence.
      * apply contains_occurs in H. congruence.
Qed.

(** X6.  [generate_styled_plot] gives a label to exactly the names that
    hold [pH<digits>_<label>.txt], or hold [Cu] and no [pH]; every other
    name is skipped, a name with [pH] and [Cu] but no such tag included.
    The label is [Cu], or the stripped text after the tag with the digits
    of a pH of the name in parentheses. *)
Theorem labelled_names (filename : text) :
  (labelled filename = true <-> recognised filename)
  /\ (forall label,
        Ca.plot_label filename = Some label ->
        ph_label filename label
        \/ (label = txt "Cu" /\ ~ occurs (txt "pH") filename /\
            occurs (txt "Cu") filename)).
Proof.
  pose proof (plot_label_cases filename) as H. unfold labelled.
  destruct (Ca.plot_label filename) as [l|].
  - split.
    + split; [intros _|reflexivity].
      destruct H as [(a & ds & lab & b & _ & _ & _ & E & Hn & Hd & Hl & _)
                    |(_ & H1 & H2)].
      * left. exists a, ds, lab, b. auto.
      * right. auto.
    + intros label E. inversion E; subst. exact H.
  - split; [|discriminate]. split; [discriminate|contradiction].
Qed.

End CaLabel.

(** ** One curve or one line for every file *)

Module CaAccounts.
Import PandasFacts IoSpec IoFacts CaSpec CaFacts.

Lemma step_accounts w dir f i :
  exists e, filter accounts (trace (Ca.step w dir f i)) = [e]
            /\ accounts_for f e.
Proof.
  unfold Ca.step, pd_read_csv.
  destruct (Ca.plot_label f) as [label|] eqn:El.
  - cbv zeta. destruct (read_csv w (OsPath.join dir f) tab) as [data|e].
    + simpl. destruct (Ca.curve data) as [[[x y]|]|e]; simpl;
        eexists; (split; [reflexivity|]); simpl; auto; split; congruence.
    + simpl. eexists. split; [reflexivity|]. simpl. split; congruence.
  - simpl. eexists. split; [reflexivity|]. simpl. auto.
Qed.

Lemma loop_accounts w dir files : forall i,
  Forall2 accounts_for files
    (filter accounts (trace (Ca.loop w dir files i))).
Proof.
  induction files as [|f files IH]; intros i; cbn [Ca.loop].
  - constructor.
  - rewrite trace_bind, filter_app.
    destruct (step_accounts w dir f i) as (e & -> & He).
    destruct (step_ok w dir f i) as (j & ->).
    simpl. constructor; [exact He|apply IH].
Qed.

(** X7.  In a run of [generate_styled_plot] on a directory that exists,
    the curves and the lines about files follow the names ending in [.txt]
    one for one, in code point order: a name without a label leaves the line
    that it is skipped, a name with a label leaves a curve under that label
    or one line about its failure. *)
Theorem every_file_is_accounted_for (w : World) (dir out : text)
    (names : list text) :
  listdir w dir = Ok names ->
  Forall2 accounts_for (sorted (filter Ca.is_txt names))
    (filter accounts (trace (Ca.generate_styled_plot w dir out))).
Proof.
  intros Hl. unfold Ca.generate_styled_plot. rewrite Hl.
  rewrite !trace_bind. cbn [outcome emit snd trace fst].
  destruct (loop_ok w dir (sorted (filter Ca.is_txt names)) 0) as (k & ->).
  change (outcome Ca.configure) with (@Ok unit tt). cbv iota.
  rewrite !filter_app.
  replace (filter accounts [Subplots 0 1 1]) with (@nil event)
    by reflexivity.
  replace (filter accounts (trace Ca.configure)) with (@nil event)
    by reflexivity.
  replace (filter accounts (trace (Ca.save w out))) with (@nil event).
  - rewrite app_nil_l, !app_nil_r. apply loop_accounts.
  - unfold Ca.save. destruct (savefig w out) as [[]|e]; reflexivity.
Qed.

Lemma every_file_is_accounted_for_witness :
  Forall2 accounts_for
    (sorted (filter Ca.is_txt Demo.ca_names))
    (filter accounts
       (trace (Ca.generate_styled_plot Demo.ca_dir (txt "CAs/")
                 (txt "ca.tiff")))).
Proof.
  apply (@every_file_is_accounted_for Demo.ca_dir (txt "CAs/")
           (txt "ca.tiff") Demo.ca_names).
  reflexivity.
Defined.

End CaAccounts.

(** ** The pH groups and the panels of plot_ca_j.py *)

Module CaJGroups.
Import ReSpec ReFacts EisSpec PandasFacts IoSpec IoFacts CaSpec CaLabel.
Import CaJSpec CaJFacts CaOrder ReSearch.

Lemma lookup_append_eq g k v key :
  CaJ.lookup (CaJ.append_to g k v) key
  = if text_eqb k key then CaJ.lookup g key ++ [v] else CaJ.lookup g key.
Proof.
  induction g as [|[k0 vs] g IH]; cbn [CaJ.append_to CaJ.lookup].
  - destruct (text_eqb k key); reflexivity.
  - destruct (text_eqb k0 k) eqn:E0; cbn [CaJ.lookup].
    + apply text_eqb_eq in E0. subst k0.
      destruct (text_eqb k key); reflexivity.
    + rewrite IH. destruct (text_eqb k0 key) eqn:E1; [|reflexivity].
      apply text_eqb_eq in E1. subst k0.
      destruct (text_eqb k key) eqn:E2; [|reflexivity].
      apply text_eqb_eq in E2. subst k. rewrite text_eqb_refl in E0.
      discriminate.
Qed.

Lemma classify_step dir f files g cu :
  CaJ.classify dir (f :: files) g cu
  = match ph_key f with
    | Some k =>
        CaJ.classify dir files (CaJ.append_to g k (OsPath.join dir f)) cu
    | None =>
        CaJ.classify dir files g
          (if contains (txt "Cu") f then Some (OsPath.join dir f) else cu)
    end.
Proof.
  cbn [CaJ.classify]. unfold ph_key.
  destruct (contains (txt "Cu") f); [reflexivity|].
  destruct (contains (txt "pH") f); [|reflexivity].
  now destruct (re_search Ca.ph_pattern f).
Qed.

Lemma classify_lookup dir files : forall g cu key,
  CaJ.lookup (fst (CaJ.classify dir files g cu)) key
  = CaJ.lookup g key ++ map (OsPath.join dir) (filter (keyed key) files).
Proof.
  induction files as [|f files IH]; intros g cu key.
  - simpl. now rewrite app_nil_r.
  - rewrite classify_step. cbn [filter]. unfold keyed at 1.
    destruct (ph_key f) as [k|]; [|apply IH].
    rewrite IH, lookup_append_eq.
    destruct (text_eqb k key); [|reflexivity].
    cbn [map]. now rewrite <- app_assoc.
Qed.

Lemma append_to_key_in g k v key :
  In key (map fst (CaJ.append_to g k v)) <-> In key (map fst g) \/ key = k.
Proof.
  induction g as [|[k0 vs] g IH]; cbn [CaJ.append_to map fst In].
  - intuition.
  - destruct (text_eqb k0 k) eqn:E; cbn [map fst In].
    + apply text_eqb_eq in E. subst k0. intuition.
    + rewrite IH. intuition.
Qed.

Lemma classify_keys dir files : forall g cu key,
  In key (map fst (fst (CaJ.classify dir files g cu)))
  <-> In key (map fst g) \/ exists f, In f files /\ ph_key f = Some key.
Proof.
  induction files as [|f files IH]; intros g cu key.
  - simpl. split; [auto|]. intros [H|(f & [] & _)]. exact H.
  - rewrite classify_step. destruct (ph_key f) as [k|] eqn:Hk; rewrite IH.
    + rewrite append_to_key_in. split.
      * intros [[H| ->]|(f' & H1 & H2)]; [auto| |].
        -- right. exists f. split; [now left|exact Hk].
        -- right. exists f'. split; [now right|exact H2].
      * intros [H|(f' & [<-|H1] & H2)]; [auto| |eauto].
        left. right. congruence.
    + split.
      * intros [H|(f' & H1 & H2)]; [auto|]. right. exists f'.
        split; [now right|exact H2].
      * intros [H|(f' & [<-|H1] & H2)]; [auto|congruence|eauto].
Qed.

(** *** Which names are filed, and under which digits *)

Lemma digit_span : forall s,
  exists ds b,
    s = ds ++ b /\ forallb is_digit ds = true /\
    match b with [] => True | c :: _ => is_digit c = false end.
Proof.
  induction s as [|x s (ds & b & -> & Hd & Hb)].
  - now exists [], [].
  - destruct (is_digit x) eqn:E.
    + exists (x :: ds), b. simpl. now rewrite E, Hd.
    + now exists [], (x :: ds ++ b).
Qed.

Lemma digit_span_unique : forall ds ds' b b',
  forallb is_digit ds = true -> forallb is_digit ds' = true ->
  match b with [] => True | c :: _ => is_digit c = false end ->
  match b' with [] => True | c :: _ => is_digit c = false end ->
  ds ++ b = ds' ++ b' -> ds = ds'.
Proof.
  induction ds as [|d ds IH]; intros [|d' ds'] b b' H H' Hb Hb' E;
    simpl in *.
  - reflexivity.
  - subst b. apply andb_true_iff in H'. destruct H' as [H' _]. congruence.
  - subst b'. apply andb_true_iff in H. destruct H as [H _]. congruence.
  - inversion E; subst.
    apply andb_true_iff in H. apply andb_true_iff in H'.
    f_equal. apply (IH ds' b b'); tauto.
Qed.

(** At a [pH] followed by digits the pattern takes all of them. *)
Lemma ph_match_at ds b :
  ds <> [] -> forallb is_digit ds = true ->
  match b with [] => True | c :: _ => is_digit c = false end ->
  re_match Ca.ph_pattern (txt "pH" ++ ds ++ b) = Some [(1, ds)].
Proof.
  intros Hn Hd Hb. destruct ds as [|d ds]; [contradiction|].
  simpl in Hd. apply andb_true_iff in Hd. destruct Hd as [Hd Hds].
  destruct (@EisFacts.star_greedy_head Digit ds b Hds Hb) as (l & El).
  unfold re_match, Ca.ph_pattern. cbn [run].
  rewrite strip_prefix_app. cbn [flat_map fst snd run].
  change ((d :: ds) ++ b) with (d :: ds ++ b).
  cbn [plus_greedy in_cls]. rewrite Hd, El. cbn [map fst snd app].
  change (d :: ds ++ b) with ((d :: ds) ++ b).
  now rewrite consumed_app.
Qed.

Lemma ph_no_match s d b :
  re_match Ca.ph_pattern s = None ->
  s = txt "pH" ++ d :: b -> is_digit d = true -> False.
Proof.
  intros Hm E Hd.
  refine (@re_match_none _ _ Hm (txt "pH" ++ [d]) b [(1, [d])] _ _).
  - now rewrite E.
  - apply ph_pattern_intro; [discriminate|]. simpl. now rewrite Hd.
Qed.

Lemma ph_search_tag f m :
  re_search Ca.ph_pattern f = Some m -> ph_tag f (part m 1).
Proof.
  intros H. apply re_search_first in H.
  destruct H as (a & rest & -> & Hm & Hfirst).
  destruct (re_match_some _ _ Hm) as (u & s' & E & M).
  apply ph_pattern_inv in M. destruct M as (ds0 & -> & Hn & Hd0 & _).
  destruct ds0 as [|d ds0]; [contradiction|].
  simpl in Hd0. apply andb_true_iff in Hd0. destruct Hd0 as [Hd _].
  destruct (digit_span (ds0 ++ s')) as (ds & b & Es & Hds & Hb).
  assert (Er : rest = txt "pH" ++ (d :: ds) ++ b).
  { rewrite E. simpl. now rewrite <- Es. }
  assert (Hall : forallb is_digit (d :: ds) = true)
    by (simpl; now rewrite Hd, Hds).
  rewrite Er, (@ph_match_at (d :: ds) b) in Hm;
    [|discriminate|exact Hall|exact Hb].
  inversion Hm; subst m. change (part [(1, d :: ds)] 1) with (d :: ds).
  exists a, b. repeat split; try assumption; [now rewrite Er|discriminate|].
  intros a' d' b' E' Hd'.
  destruct (Nat.le_gt_cases (List.length a) (List.length a')) as [L|L];
    [exact L|exfalso].
  exact (@ph_no_match _ d' b' (Hfirst a' _ E' L) eq_refl Hd').
Qed.

Lemma ph_tag_unique f ds ds' : ph_tag f ds -> ph_tag f ds' -> ds = ds'.
Proof.
  intros (a & b & E & Hn & Hd & Hb & Hmin)
         (a' & b' & E' & Hn' & Hd' & Hb' & Hmin').
  assert (L : List.length a = List.length a').
  { apply Nat.le_antisymm.
    - destruct ds' as [|d' r']; [contradiction|].
      simpl in Hd'. apply andb_true_iff in Hd'.
      apply (Hmin a' d' (r' ++ b')); [exact E'|tauto].
    - destruct ds as [|d r]; [contradiction|].
      simpl in Hd. apply andb_true_iff in Hd.
      apply (Hmin' a d (r ++ b)); [exact E|tauto]. }
  rewrite E in E'. destruct (same_length_prefix _ _ _ _ E' L) as [_ E2].
  inversion E2 as [E3].
  exact (@digit_span_unique ds ds' b b' Hd Hd' Hb Hb' E3).
Qed.

Lemma ph_tag_found f ds :
  ph_tag f ds ->
  exists m, re_search Ca.ph_pattern f = Some m /\ part m 1 = ds.
Proof.
  intros H. pose proof H as (a & b & E & Hn & Hd & _).
  destruct (@re_search_finds Ca.ph_pattern f a (txt "pH" ++ ds) b
              [(1, ds)]) as (m & Hm).
  { rewrite E. now rewrite <- !app_assoc. }
  { now apply ph_pattern_intro. }
  exists m. split; [exact Hm|].
  exact (@ph_tag_unique f (part m 1) ds (@ph_search_tag f m Hm) H).
Qed.

Lemma ph_key_filed f key : ph_key f = Some key <-> filed_under key f.
Proof.
  unfold ph_key, filed_under. split.
  - destruct (contains (txt "Cu") f) eqn:Ecu; [discriminate|].
    destruct (contains (txt "pH") f); [|discriminate].
    destruct (re_search Ca.ph_pattern f) as [m|] eqn:Em; [|discriminate].
    intros H. inversion H; subst key. split.
    + intros Ho. apply contains_occurs in Ho. congruence.
    + exists (part m 1). split; [now apply ph_search_tag|reflexivity].
  - intros (Hcu & ds & Ht & ->).
    destruct (contains (txt "Cu") f) eqn:Ecu.
    { destruct Hcu. now apply contains_occurs. }
    pose proof Ht as (a & b & E & _).
    rewrite E at 1. rewrite contains_intro.
    destruct (@ph_tag_found f ds Ht) as (m & -> & ->). reflexivity.
Qed.

Lemma keyed_filed key f : keyed key f = true <-> filed_under key f.
Proof.
  rewrite <- ph_key_filed. unfold keyed.
  destruct (ph_key f) as [k|]; [|split; discriminate].
  rewrite text_eqb_eq. split; congruence.
Qed.

(** X8.  [generate_ca_subplots] files every name that holds no [Cu] and
    has pH digits (the whole run of digits after the first [pH] of the name
    that a digit follows) under [pH <digits>], and files no other name and
    under no other key; each group holds the paths of exactly its names, in
    the order of the names, and there is a group for a key exactly when
    some name is filed under it. *)
Theorem grouped_by_ph (dir : text) (files : list text) :
  let grouped := fst (CaJ.classify dir files [] None) in
  (forall f ds,
      In f files -> ~ occurs (txt "Cu") f -> ph_tag f ds ->
      In (OsPath.join dir f) (CaJ.lookup grouped (txt "pH " ++ ds)))
  /\ (forall key p,
        In p (CaJ.lookup grouped key) ->
        exists f, In f files /\ p = OsPath.join dir f /\ filed_under key f)
  /\ (forall key,
        CaJ.lookup grouped key
        = map (OsPath.join dir) (filter (keyed key) files))
  /\ (forall key f, keyed key f = true <-> filed_under key f)
  /\ (forall key,
        In key (map fst grouped)
        <-> exists f, In f files /\ filed_under key f).
Proof.
  cbv zeta. split; [|split; [|split; [|split]]].
  - intros f ds Hin Hcu Ht. rewrite classify_lookup. cbn [CaJ.lookup app].
    apply in_map, filter_In. split; [exact Hin|].
    apply keyed_filed. split; [exact Hcu|]. now exists ds.
  - intros key p. rewrite classify_lookup. cbn [CaJ.lookup app].
    intros Hp. apply in_map_iff in Hp. destruct Hp as (f & <- & Hf).
    apply filter_In in Hf. destruct Hf as [Hin Hk].
    exists f. split; [exact Hin|]. split; [reflexivity|].
    now apply keyed_filed.
  - intros key. now rewrite classify_lookup.
  - apply keyed_filed.
  - intros key. rewrite classify_keys. simpl. split.
    + intros [[]|(f & Hin & Hk)]. exists f. split; [exact Hin|].
      now apply ph_key_filed.
    + intros (f & Hin & Hk). right. exists f. split; [exact Hin|].
      now apply ph_key_filed.
Qed.

Lemma grouped_by_ph_witness :
  let dir := txt "CAs/" in
  let files := map txt ["pH1_K2ReCl6.txt"; "a_pH_pH12x_pH3.txt";
                        "pH4_Cu.txt"]%string in
  let grouped := fst (CaJ.classify dir files [] None) in
  In (txt "CAs/pH1_K2ReCl6.txt") (CaJ.lookup grouped (txt "pH 1"))
  /\ filed_under (txt "pH 12") (txt "a_pH_pH12x_pH3.txt")
  /\ ~ filed_under (txt "pH 3") (txt "a_pH_pH12x_pH3.txt")
  /\ ~ filed_under (txt "pH 4") (txt "pH4_Cu.txt")
  /\ map fst grouped = [txt "pH 1"; txt "pH 12"].
Proof.
  cbv zeta.
  destruct (@grouped_by_ph (txt "CAs/")
              (map txt ["pH1_K2ReCl6.txt"; "a_pH_pH12x_pH3.txt";
                        "pH4_Cu.txt"]%string))
    as (H1 & _ & _ & H4 & _).
  split; [|split; [|split; [|split]]].
  - apply (H1 (txt "pH1_K2ReCl6.txt") (txt "1")).
    + now left.
    + intros Ho. apply CaLabel.contains_occurs in Ho. discriminate Ho.
    + exists [], (txt "_K2ReCl6.txt").
      repeat split; try reflexivity; [discriminate|].
      intros a' d b' _ _. apply Nat.le_0_l.
  - now apply H4.
  - intros H. apply H4 in H. discriminate H.
  - intros H. apply H4 in H. discriminate H.
  - reflexivity.
Defined.

Lemma reference_reads w ax cu :
  reads (trace (CaJ.plot_reference w ax cu)) = reference cu.
Proof.
  unfold CaJ.plot_reference, pd_read_csv. destruct cu as [path|];
    [|reflexivity].
  destruct (read_csv w path tab) as [data|e]; [|reflexivity].
  simpl. destruct (CaJ.curve data) as [[[x y]|]|e]; reflexivity.
Qed.

Lemma system_reads w ax path i :
  reads (trace (CaJ.plot_system w ax path i)) = [path].
Proof.
  unfold CaJ.plot_system, pd_read_csv. cbv zeta.
  destruct (read_csv w path tab) as [data|e]; [|reflexivity].
  simpl. destruct (CaJ.curve data) as [[[x y]|]|e]; reflexivity.
Qed.

Lemma systems_reads w ax paths : forall i,
  reads (trace (CaJ.plot_systems w ax paths i)) = paths.
Proof.
  induction paths as [|p paths IH]; intros i; cbn [CaJ.plot_systems].
  - reflexivity.
  - rewrite trace_bind, reads_app, system_reads.
    destruct (system_ok w ax p i) as (j & ->). now rewrite IH.
Qed.

Lemma panels_reads w n g cu keys : forall i,
  i + List.length keys <= n ->
  reads (trace (CaJ.panels w (AxesArray n) g cu i keys))
  = flat_map (fun key => reference cu ++ CaJ.lookup g key) keys.
Proof.
  induction keys as [|k keys IH]; intros i H; cbn [CaJ.panels flat_map].
  - reflexivity.
  - simpl in H. unfold subscript.
    destruct (Nat.ltb_spec i n); [|lia].
    rewrite trace_bind. cbn [outcome ret snd trace fst app].
    rewrite trace_bind, reads_app, reference_reads, reference_ok.
    rewrite trace_bind, reads_app, systems_reads.
    destruct (systems_ok w i (CaJ.lookup g k) 0) as (j & ->).
    repeat (rewrite trace_bind; cbn [outcome emit snd trace fst];
            rewrite reads_app; cbn [reads flat_map app]).
    rewrite IH by lia. now rewrite app_assoc.
Qed.

Lemma save_reads w out : reads (trace (Ca.save w out)) = [].
Proof. unfold Ca.save. destruct (savefig w out) as [[]|e]; reflexivity. Qed.

(** X9.  When the directory yields two pH groups or more,
    [generate_ca_subplots] reads, panel after panel in the code point order
    of the keys, the reference file if there is one and then the files of
    the group in their order: the reference is read once for every panel,
    and nothing else is read. *)
Theorem reference_read_for_every_panel (w : World) (dir out : text)
    (names : list text) :
  listdir w dir = Ok names ->
  let files := sorted (filter Ca.is_txt names) in
  let grouped := fst (CaJ.classify dir files [] None) in
  let cu_ref_path := snd (CaJ.classify dir files [] None) in
  2 <= List.length grouped ->
  reads (trace (CaJ.generate_ca_subplots w dir out))
  = flat_map (fun key => reference cu_ref_path ++ CaJ.lookup grouped key)
      (sorted (map fst grouped)).
Proof.
  intros Hl files grouped cu_ref_path H2.
  unfold CaJ.generate_ca_subplots. rewrite Hl. cbv zeta.
  fold files. subst grouped cu_ref_path.
  destruct (CaJ.classify dir files [] None) as [g cu]. cbn [fst snd] in *.
  rewrite <- (length_map fst g), <- sorted_length in H2.
  destruct (sorted (map fst g)) as [|k1 [|k2 keys]] eqn:Ek;
    [simpl in H2; lia|simpl in H2; lia|].
  assert (Hp : outcome (CaJ.panels w (AxesArray (S (S (List.length keys))))
                          g cu 0 (k1 :: k2 :: keys)) = Ok tt)
    by (apply panels_ok; simpl; lia).
  unfold subplots. cbn [List.length].
  repeat first
    [ rewrite trace_bind | rewrite outcome_bind | rewrite reads_app
    | progress cbn [outcome trace fst snd emit ret subscript_last]
    | rewrite Hp ].
  rewrite panels_reads by (simpl; lia). rewrite save_reads.
  cbn [reads flat_map app]. now rewrite !app_nil_r.
Qed.

Lemma reference_read_for_every_panel_witness :
  let w := Demo.ca_dir in
  let dir := txt "CAs/" in
  let files := sorted (filter Ca.is_txt Demo.ca_names) in
  let grouped := fst (CaJ.classify dir files [] None) in
  let cu_ref_path := snd (CaJ.classify dir files [] None) in
  reads (trace (CaJ.generate_ca_subplots w dir (txt "j.tiff")))
  = flat_map (fun key => reference cu_ref_path ++ CaJ.lookup grouped key)
      (sorted (map fst grouped)).
Proof.
  cbv zeta.
  apply (@reference_read_for_every_panel Demo.ca_dir (txt "CAs/")
           (txt "j.tiff") Demo.ca_names).
  - reflexivity.
  - vm_compute. repeat constructor.
Defined.

End CaJGroups.

(** ** The styles of a panel of plot_ca_j.py *)

Module CaJStyles.
Import PandasFacts IoSpec IoFacts CaJSpec CaJFacts CaOrder.

Local Abbreviation axis_is := (fun (i : nat) (e : event) =>
  match e with Plot _ a _ _ _ _ => a = i | _ => True end).

Lemma on_axis_filter i ax t :
  Forall (axis_is i) t ->
  filter (on_axis ax) t = if i =? ax then plots t else [].
Proof.
  induction 1 as [|e t He _ IH]; [now destruct (i =? ax)|].
  cbn [filter]. rewrite IH. unfold plots. cbn [filter].
  destruct e; cbn [on_axis is_plot]; try now destruct (i =? ax).
  simpl in He. subst ax0. now destruct (i =? ax).
Qed.

Lemma reference_axis w i cu : always (axis_is i) (CaJ.plot_reference w i cu).
Proof.
  unfold CaJ.plot_reference, pd_read_csv. destruct cu as [path|];
    repeat always_step.
Qed.

Lemma systems_axis w i paths : forall j,
  always (axis_is i) (CaJ.plot_systems w i paths j).
Proof.
  induction paths as [|p paths IH]; intros j; cbn [CaJ.plot_systems].
  - apply always_ret.
  - apply always_bind; [|intros ? _; apply IH].
    unfold CaJ.plot_system, pd_read_csv. cbv zeta. repeat always_step.
Qed.

Lemma reference_plots w ax cu :
  List.length (plots (trace (CaJ.plot_reference w ax cu))) <= 1
  /\ Forall (reference_curve ax)
       (plots (trace (CaJ.plot_reference w ax cu))).
Proof.
  unfold CaJ.plot_reference, pd_read_csv. destruct cu as [path|];
    [|simpl; auto].
  destruct (read_csv w path tab) as [data|e]; [|simpl; auto].
  simpl. destruct (CaJ.curve data) as [[[x y]|]|e]; simpl; auto.
  split; [lia|]. constructor; [|constructor]. now exists x, y.
Qed.

Lemma system_plots w ax path i :
  (plots (trace (CaJ.plot_system w ax path i)) = [] /\
   outcome (CaJ.plot_system w ax path i) = Ok i)
  \/ (exists e,
        plots (trace (CaJ.plot_system w ax path i)) = [e] /\
        sample_curve ax i e /\
        outcome (CaJ.plot_system w ax path i) = Ok (S i)).
Proof.
  unfold CaJ.plot_system, pd_read_csv. cbv zeta.
  destruct (read_csv w path tab) as [data|e];
    [|left; split; reflexivity].
  simpl. destruct (CaJ.curve data) as [[[x y]|]|e]; simpl.
  - right. eexists. split; [reflexivity|]. split; [|reflexivity].
    eexists x, y, _. reflexivity.
  - left. split; reflexivity.
  - left. split; reflexivity.
Qed.

Lemma systems_plots w ax paths : forall i n e,
  nth_error (plots (trace (CaJ.plot_systems w ax paths i))) n = Some e ->
  sample_curve ax (i + n) e.
Proof.
  induction paths as [|p paths IH]; intros i n e; cbn [CaJ.plot_systems].
  - simpl. destruct n; discriminate.
  - rewrite trace_bind, plots_app.
    destruct (system_plots w ax p i) as [[-> ->]|(e0 & -> & He & ->)].
    + simpl. apply IH.
    + destruct n as [|n]; simpl.
      * intros H. inversion H; subst. now rewrite Nat.add_0_r.
      * intros H. apply IH in H. now rewrite Nat.add_succ_r.
Qed.

Lemma panels_curves w n g cu keys : forall i ax,
  i + List.length keys <= n ->
  (ax < i -> filter (on_axis ax)
               (trace (CaJ.panels w (AxesArray n) g cu i keys)) = [])
  /\ panel_curves ax
       (filter (on_axis ax)
          (trace (CaJ.panels w (AxesArray n) g cu i keys))).
Proof.
  induction keys as [|k keys IH]; intros i ax H; cbn [CaJ.panels].
  - split; [reflexivity|]. exists [], []. simpl.
    repeat split; auto. intros [] ?; discriminate.
  - simpl in H. unfold subscript.
    destruct (Nat.ltb_spec i n); [|lia].
    rewrite trace_bind. cbn [outcome ret snd trace fst app].
    rewrite trace_bind, reference_ok, trace_bind.
    destruct (systems_ok w i (CaJ.lookup g k) 0) as (j & ->).
    repeat (rewrite trace_bind; cbn [outcome emit snd trace fst]).
    rewrite !filter_app.
    rewrite (@on_axis_filter i ax _ (reference_axis w i cu)).
    rewrite (@on_axis_filter i ax _ (systems_axis w i (CaJ.lookup g k) 0)).
    cbn [filter on_axis app].
    destruct (IH (S i) ax ltac:(lia)) as [Hbelow Hrest].
    destruct (Nat.eqb_spec i ax) as [->|Hne].
    + rewrite Hbelow by lia. rewrite app_nil_r. split; [lia|].
      destruct (reference_plots w ax cu) as [Hlen Href].
      exists (plots (trace (CaJ.plot_reference w ax cu))),
             (plots (trace (CaJ.plot_systems w ax (CaJ.lookup g k) 0))).
      repeat split; try assumption.
      intros m e He. apply systems_plots in He. exact He.
    + cbn [app]. split; [|exact Hrest].
      intros Hlt. apply Hbelow. lia.
Qed.

(** X10.  In a run of [generate_ca_subplots] on two pH groups or more the
    curves of every panel are, in the order drawn: the reference curve
    (grey, dashed, no marker) if there is one, then the sample curves, whose
    n-th (from 0, within the panel) has marker [n mod 5] and line style
    [n mod 4] of the two lists.  The count starts again with every panel;
    the reference and the files that fail take no style. *)
Theorem styles_start_again_in_every_panel (w : World) (dir out : text)
    (names : list text) (ax : nat) :
  listdir w dir = Ok names ->
  2 <= List.length
         (fst (CaJ.classify dir (sorted (filter Ca.is_txt names)) [] None)) ->
  panel_curves ax
    (filter (on_axis ax) (trace (CaJ.generate_ca_subplots w dir out))).
Proof.
  intros Hl H2.
  unfold CaJ.generate_ca_subplots. rewrite Hl. cbv zeta.
  destruct (CaJ.classify dir (sorted (filter Ca.is_txt names)) [] None)
    as [g cu]. cbn [fst snd] in *.
  rewrite <- (length_map fst g), <- sorted_length in H2.
  destruct (sorted (map fst g)) as [|k1 [|k2 keys]] eqn:Ek;
    [simpl in H2; lia|simpl in H2; lia|].
  assert (Hp : outcome (CaJ.panels w (AxesArray (S (S (List.length keys))))
                          g cu 0 (k1 :: k2 :: keys)) = Ok tt)
    by (apply panels_ok; simpl; lia).
  unfold subplots. cbn [List.length].
  repeat first
    [ rewrite trace_bind | rewrite outcome_bind | rewrite filter_app
    | progress cbn [outcome trace fst snd emit ret subscript_last]
    | rewrite Hp ].
  replace (filter (on_axis ax) (trace (Ca.save w out))) with (@nil event)
    by (unfold Ca.save; destruct (savefig w out) as [[]|e]; reflexivity).
  cbn [filter on_axis app]. rewrite !app_nil_r.
  apply panels_curves. simpl. lia.
Qed.

Lemma styles_start_again_in_every_panel_witness :
  panel_curves 1
    (filter (on_axis 1)
       (trace (CaJ.generate_ca_subplots Demo.ca_dir (txt "CAs/")
                 (txt "j.tiff")))).
Proof.
  apply (@styles_start_again_in_every_panel Demo.ca_dir (txt "CAs/")
           (txt "j.tiff") Demo.ca_names 1).
  - reflexivity.
  - vm_compute. repeat constructor.
Defined.

End CaJStyles.

(** ** plot_lsv.py: the label of a curve, and all or nothing *)

Module LsvFacts.
Import PandasFacts IoSpec IoFacts LsvSpec CaOrder.

Lemma split_nonempty sep s : split sep s <> [].
Proof.
  destruct s as [|a s]; simpl; [discriminate|].
  destruct (Ascii.eqb a sep); [discriminate|].
  destruct (split sep s); discriminate.
Qed.

Lemma split_field sep : forall a rest,
  forallb (fun c => negb (Ascii.eqb c sep)) a = true ->
  split sep (a ++ sep :: rest) = a :: split sep rest.
Proof.
  induction a as [|x a IH]; intros rest H; simpl.
  - now rewrite Ascii.eqb_refl.
  - simpl in H. apply andb_true_iff in H. destruct H as [Hx Ha].
    apply negb_true_iff in Hx. rewrite Hx, IH by exact Ha. reflexivity.
Qed.

Lemma split_last sep : forall a,
  forallb (fun c => negb (Ascii.eqb c sep)) a = true -> split sep a = [a].
Proof.
  induction a as [|x a IH]; intros H; simpl; [reflexivity|].
  simpl in H. apply andb_true_iff in H. destruct H as [Hx Ha].
  apply negb_true_iff in Hx. rewrite Hx, IH by exact Ha. reflexivity.
Qed.

Lemma first_field sep : forall s,
  forallb (fun c => negb (Ascii.eqb c sep)) s = true
  \/ exists a rest,
       s = a ++ sep :: rest /\
       forallb (fun c => negb (Ascii.eqb c sep)) a = true.
Proof.
  induction s as [|x s IH]; [now left|].
  destruct (Ascii.eqb x sep) eqn:E.
  - right. apply Ascii.eqb_eq in E. subst x. now exists [], s.
  - destruct IH as [H|(a & rest & -> & H)].
    + left. simpl. now rewrite E, H.
    + right. exists (x :: a), rest. split; [reflexivity|].
      simpl. now rewrite E, H.
Qed.

(** X11.  The label of a curve of [plot_lsv_data] is the text between the
    first and the second underscore of the file name (to the end of the
    name when there is one underscore only), and [Unknown pH] when the name
    has no underscore.  Every name is of one of these forms. *)
Theorem label_is_the_second_field :
  (forall f, no_underscore f = true ->
             Lsv.ph_value_of f = txt "Unknown pH")
  /\ (forall a v,
        no_underscore a = true -> no_underscore v = true ->
        Lsv.ph_value_of (a ++ txt "_" ++ v) = v)
  /\ (forall a v rest,
        no_underscore a = true -> no_underscore v = true ->
        Lsv.ph_value_of (a ++ txt "_" ++ v ++ txt "_" ++ rest) = v)
  /\ (forall f,
        no_underscore f = true
        \/ (exists a v,
              f = a ++ txt "_" ++ v /\
              no_underscore a = true /\ no_underscore v = true)
        \/ (exists a v rest,
              f = a ++ txt "_" ++ v ++ txt "_" ++ rest /\
              no_underscore a = true /\ no_underscore v = true)).
Proof.
  unfold no_underscore, Lsv.ph_value_of. split; [|split; [|split]].
  - intros f H. now rewrite split_last.
  - intros a v Ha Hv. cbn [txt list_ascii_of_string app].
    rewrite split_field by exact Ha. now rewrite split_last.
  - intros a v rest Ha Hv. cbn [txt list_ascii_of_string app].
    rewrite split_field by exact Ha. now rewrite split_field.
  - intros f. destruct (first_field "_" f) as [H|(a & r & -> & Ha)];
      [now left|right].
    destruct (first_field "_" r) as [H|(v & rest & -> & Hv)].
    + left. now exists a, r.
    + right. now exists a, v, rest.
Qed.

Lemma label_is_the_second_field_witness :
  Lsv.ph_value_of (txt "LSV_pH 4_K2ReCl6.txt") = txt "pH 4"
  /\ Lsv.ph_value_of (txt "LSV_Reference Cu") = txt "Reference Cu"
  /\ Lsv.ph_value_of (txt "notes.txt") = txt "Unknown pH".
Proof.
  destruct label_is_the_second_field as (H0 & H1 & H2 & _).
  split; [|split].
  - apply (H2 (txt "LSV") (txt "pH 4") (txt "K2ReCl6.txt")); reflexivity.
  - apply (H1 (txt "LSV") (txt "Reference Cu")); reflexivity.
  - apply (H0 (txt "notes.txt")). reflexivity.
Defined.

(** *** All or nothing *)

Lemma draws_ret w : draws w (ret tt) [].
Proof.
  split; [constructor|]. left. repeat split. intros p [].
Qed.

Lemma draws_emit w e :
  is_save e = false -> is_read e = false -> draws w (emit e) [].
Proof.
  intros Hs Hr. split; [repeat constructor; exact Hs|]. left.
  repeat split; [|intros p []].
  destruct e; try reflexivity; discriminate.
Qed.

Lemma draws_bind w (m k : io unit) l1 l2 :
  draws w m l1 -> draws w k l2 -> draws w (bind m (fun _ => k)) (l1 ++ l2).
Proof.
  intros [Sm Hm] [Sk Hk]. split.
  - rewrite trace_bind. apply Forall_app. split; [exact Sm|].
    destruct (outcome m); [exact Sk|constructor].
  - rewrite trace_bind, outcome_bind.
    destruct Hm as [(Em & Rm & Dm)
                   |((e & Em) & b & p & a & -> & Rm & Db & Np)];
      rewrite Em.
    + rewrite reads_app, Rm.
      destruct Hk as [(Ek & Rk & Dk)
                     |((e & Ek) & b & p & a & -> & Rk & Db & Np)];
        rewrite Rk.
      * left. repeat split; [exact Ek|].
        intros p Hp. apply in_app_or in Hp. destruct Hp; auto.
      * right. split; [eauto|]. exists (l1 ++ b), p, a.
        rewrite <- !app_assoc. repeat split; [|exact Np].
        intros q Hq. apply in_app_or in Hq. destruct Hq; auto.
    + right. split; [eauto|]. exists b, p, (a ++ l2).
      rewrite app_nil_r, <- app_assoc. repeat split; assumption.
Qed.

Lemma draws_for_each w {A} (xs : list A) (body : A -> io unit)
    (f : A -> list text) :
  (forall x, In x xs -> draws w (body x) (f x)) ->
  draws w (for_each xs body) (flat_map f xs).
Proof.
  induction xs as [|x xs IH]; intros H; cbn [for_each flat_map].
  - apply draws_ret.
  - apply draws_bind; [apply H; now left|].
    apply IH. intros y Hy. apply H. now right.
Qed.

Lemma draws_curve w ax path label st :
  draws w (Lsv.plot_curve w ax path label st) [path].
Proof.
  unfold Lsv.plot_curve, pd_read_csv, draws.
  assert (Stop : ~ drawable w path ->
            exists before p after,
              [path] = before ++ p :: after /\
              [path] = before ++ [p] /\
              (forall q, In q before -> drawable w q) /\ ~ drawable w p).
  { intros NP. exists [], path, []. repeat split; [|exact NP].
    intros q []. }
  destruct (read_csv w path tab) as [df|e] eqn:Er.
  - destruct (getitem df Lsv.current_col) as [i|e] eqn:Ei.
    + destruct (mul_div i 1000 Lsv.ELECTRODE_AREA_CM2) as [j|e] eqn:Ej.
      * destruct (getitem df Lsv.potential_col) as [v|e] eqn:Ev.
        -- simpl. rewrite Ei. simpl. rewrite Ej. simpl. rewrite Ev. simpl.
           split; [repeat constructor|]. left. repeat split.
           intros p [<-|[]]. exists df, i, j, v. auto.
        -- simpl. rewrite Ei. simpl. rewrite Ej. simpl. rewrite Ev. simpl.
           split; [repeat constructor|]. right. split; [eauto|].
           apply Stop. intros (df' & i' & j' & v' & H1 & H2 & H3 & H4).
           congruence.
      * simpl. rewrite Ei. simpl. rewrite Ej. simpl.
        split; [repeat constructor|]. right. split; [eauto|].
        apply Stop. intros (df' & i' & j' & v' & H1 & H2 & H3 & H4).
        congruence.
    + simpl. rewrite Ei. simpl.
      split; [repeat constructor|]. right. split; [eauto|].
      apply Stop. intros (df' & i' & j' & v' & H1 & H2 & H3 & H4).
      congruence.
  - simpl. split; [repeat constructor|]. right. split; [eauto|].
    apply Stop. intros (df' & i' & j' & v' & H1 & H2 & H3 & H4).
    congruence.
Qed.

Lemma flat_map_each {A} (l : list A) : flat_map (fun x => [x]) l = l.
Proof. induction l as [|x l IH]; simpl; [reflexivity|now rewrite IH]. Qed.

Lemma draws_as w m l l' : l = l' -> draws w m l -> draws w m l'.
Proof. now intros ->. Qed.

Lemma draws_emits w (m : io unit) e :
  is_save e = false -> is_read e = false -> draws w m [] ->
  draws w (bind (emit e) (fun _ => m)) [].
Proof.
  intros Hs Hr Hm. apply (@draws_bind w (emit e) m [] []);
    [now apply draws_emit|exact Hm].
Qed.

Lemma draws_panel w ax chemical :
  draws w (Lsv.panel w ax chemical) (panel_files w chemical).
Proof.
  unfold Lsv.panel, panel_files. cbv zeta.
  apply draws_bind.
  - destruct (path_exists w Lsv.cu_ref_path);
      [apply draws_curve|apply draws_ret].
  - eapply draws_as; [apply app_nil_r|].
    apply draws_bind.
    + eapply draws_as; [apply flat_map_each|].
      apply draws_for_each. intros p _. apply draws_curve.
    + repeat (apply draws_emits; [reflexivity|reflexivity|]).
      apply draws_emit; reflexivity.
Qed.

Lemma draws_panels w :
  draws w (for_each (combine [0; 1; 2] Lsv.chemicals)
             (fun ac => Lsv.panel w (fst ac) (snd ac)))
    (all_files w).
Proof.
  eapply draws_as;
    [|apply draws_for_each with (f := fun ac => panel_files w (snd ac));
      intros [ax chem] _; apply draws_panel].
  reflexivity.
Qed.

(** X12.  [plot_lsv_data] catches nothing: it reaches [savefig] exactly
    when every file it is to draw (the reference, if it exists, for each of
    the three chemicals, then the sorted matches of the chemical) can be
    read and has the two columns, the current one that can be scaled.  Then
    these files are read in this order and nothing else is; otherwise the
    run stops with an exception at the first file that fails, which is the
    last one read, and nothing is saved. *)
Theorem all_curves_or_no_figure (w : World) :
  (existsb is_save (trace (Lsv.plot_lsv_data w)) = true
   <-> forall p, In p (all_files w) -> drawable w p)
  /\ ((forall p, In p (all_files w) -> drawable w p) ->
      reads (trace (Lsv.plot_lsv_data w)) = all_files w)
  /\ (existsb is_save (trace (Lsv.plot_lsv_data w)) = false ->
      (exists e, outcome (Lsv.plot_lsv_data w) = Raise e) /\
      exists before p after,
        all_files w = before ++ p :: after /\
        reads (trace (Lsv.plot_lsv_data w)) = before ++ [p] /\
        (forall q, In q before -> drawable w q) /\ ~ drawable w p).
Proof.
  destruct (draws_panels w) as [Hs H].
  set (F := for_each (combine [0; 1; 2] Lsv.chemicals)
              (fun ac => Lsv.panel w (fst ac) (snd ac))) in *.
  assert (Hns : existsb is_save (trace F) = false).
  { clear H. induction Hs as [|e t He _ IH]; simpl; [reflexivity|].
    now rewrite He. }
  set (tail := match outcome F with
               | Ok _ =>
                   [AxCall 0 0 (txt "set_ylabel")
                      (txt "j / mA$\cdot$cm$^{-2}$");
                    FigCall 0 (txt "tight_layout") [];
                    SaveFig 0 Lsv.output_filename]
                   ++ match savefig w Lsv.output_filename with
                      | Ok _ => [Printed (Saved Lsv.output_filename)]
                      | Raise _ => []
                      end
               | Raise _ => []
               end).
  assert (Et : trace (Lsv.plot_lsv_data w)
               = [Subplots 0 1 3] ++ trace F ++ tail).
  { unfold Lsv.plot_lsv_data, tail. fold F.
    rewrite trace_bind. cbn [outcome emit snd trace fst app].
    rewrite trace_bind. f_equal. f_equal.
    destruct (outcome F); [|reflexivity].
    destruct (savefig w Lsv.output_filename) as [[]|e]; reflexivity. }
  assert (Eo : forall e, outcome F = Raise e ->
                         outcome (Lsv.plot_lsv_data w) = Raise e).
  { intros e He. unfold Lsv.plot_lsv_data. fold F.
    now rewrite !outcome_bind, He. }
  assert (Rt : reads tail = []).
  { unfold tail. destruct (outcome F); [|reflexivity].
    destruct (savefig w Lsv.output_filename); reflexivity. }
  assert (St : existsb is_save tail
               = match outcome F with Ok _ => true | Raise _ => false end).
  { unfold tail. destruct (outcome F); reflexivity. }
  rewrite Et, !existsb_app, !reads_app, Hns, Rt, St, app_nil_r.
  change (existsb is_save [Subplots 0 1 3]) with false.
  change (reads [Subplots 0 1 3]) with (@nil text).
  cbn [orb app]. clear Et Rt St tail.
  destruct H as [(Eok & Er & Hd)
                |((e & Ee) & b & p & a & El & Er & Hb & Np)].
  - rewrite Eok. split; [|split].
    + split; [intros _; exact Hd|reflexivity].
    + intros _. exact Er.
    + discriminate.
  - rewrite Ee. split; [|split].
    + split; [discriminate|]. intros Hd. exfalso. apply Np, Hd.
      rewrite El. apply in_or_app. right. now left.
    + intros Hd. exfalso. apply Np, Hd.
      rewrite El. apply in_or_app. right. now left.
    + intros _. split; [exists e; now apply Eo|].
      exists b, p, a. repeat split; assumption.
Qed.

Lemma all_curves_or_no_figure_witness :
  existsb is_save (trace (Lsv.plot_lsv_data Demo.lsv_dir)) = true
  /\ reads (trace (Lsv.plot_lsv_data Demo.lsv_dir))
     = all_files Demo.lsv_dir
  /\ drawable Demo.lsv_dir (txt "LSV/LSV_pH 1_K2ReCl6.txt").
Proof.
  destruct (all_curves_or_no_figure Demo.lsv_dir) as ([H1 _] & H2 & _).
  assert (S : existsb is_save (trace (Lsv.plot_lsv_data Demo.lsv_dir))
              = true) by reflexivity.
  split; [exact S|]. split.
  - apply H2. exact (H1 S).
  - apply (H1 S). vm_compute. tauto.
Defined.

End LsvFacts.

(** ** The line that reports success *)

Module Success.
Import IoSpec IoFacts.

Section Announce.

Variable msg : message.

Local Abbreviation quiet := (always (fun e => e <> Printed msg)).

Lemma announces_last : announces msg (emit (Printed msg)).
Proof. unfold announces. simpl. intuition. Qed.

Lemma announces_bind {A} (m : io A) (k : A -> io unit) :
  quiet m -> (forall a, announces msg (k a)) -> announces msg (bind m k).
Proof.
  unfold announces, always. intros Q H.
  rewrite trace_bind, outcome_bind, in_app_iff.
  rewrite Forall_forall in Q.
  destruct (outcome m) as [a|e].
  - rewrite <- H. split; [|auto]. intros [Hin|Hin]; [|exact Hin].
    now destruct (Q _ Hin).
  - split; [|discriminate]. intros [Hin|[]]. now destruct (Q _ Hin).
Qed.

End Announce.

Ltac quiet_step :=
  first [ apply always_emit; discriminate | always_step ].

Lemma eis_quiet_cell w g i j ph cond :
  always (fun e => e <> Printed Done) (Eis.cell w g i j ph cond).
Proof.
  unfold Eis.cell, Eis.plot_experiment, Eis.load_eis_data, pd_read_csv.
  cbv zeta. repeat quiet_step.
Qed.

(** X13.  The line that reports success is the last thing [plot_eis_data]
    and [plot_lsv_data] do: it is printed exactly when the run ends without
    an exception, so never after a file that failed or a figure that could
    not be written. *)
Theorem success_line_means_success (w : World) :
  announces Done (Eis.plot_eis_data w)
  /\ announces (Saved Lsv.output_filename) (Lsv.plot_lsv_data w).
Proof.
  split.
  - unfold Eis.plot_eis_data, Eis.save_figure. cbv zeta.
    repeat (apply announces_bind;
            [first [ apply always_for_each; intros [? ?] _;
                     apply always_for_each; intros [? ?] _;
                     apply eis_quiet_cell
                   | repeat quiet_step ]
            |intros _]).
    apply announces_last.
  - unfold Lsv.plot_lsv_data, Lsv.panel, Lsv.plot_curve, pd_read_csv.
    cbv zeta.
    repeat (apply announces_bind; [repeat quiet_step|intros _]).
    apply announces_last.
Qed.

End Success.

(** ** The curves and the files they are drawn from *)

Module Curves.
Import PandasFacts Units IoSpec IoFacts UnitsFacts CaFacts SortedFacts.
Import CaJFacts CaJSpec LsvSpec LsvFacts.

Section Sound.

Variable w : World.
Variable P : frame -> column -> column -> Prop.

Local Abbreviation cor := (curves_of_reads w P).

Lemma cor_quiet t : Forall (fun e => is_plot e = false) t -> cor t.
Proof.
  intros H t1 fig ax x y label st t2 ->.
  apply Forall_app in H. destruct H as [_ H]. inversion H; subst.
  discriminate.
Qed.

Lemma cor_app t1 t2 : cor t1 -> cor t2 -> cor (t1 ++ t2).
Proof.
  intros H1 H2 a fig ax x y label st b E.
  apply app_eq_app in E. destruct E as (l & [[-> E]|[-> E]]).
  - destruct l as [|e l].
    + simpl in E. symmetry in E.
      destruct (H2 [] _ _ _ _ _ _ _ E) as (t0 & path & data & E' & _).
      now destruct t0.
    + inversion E; subst. exact (H1 _ _ _ _ _ _ _ _ eq_refl).
  - destruct (H2 _ _ _ _ _ _ _ _ E) as (t0 & path & data & -> & Hr & Hp).
    exists (t1 ++ t0), path, data. now rewrite app_assoc.
Qed.

Lemma cor_read_plot path data fig ax x y label st :
  read_csv w path tab = Ok data -> P data x y ->
  cor [ReadCsv path tab; Plot fig ax x y label st].
Proof.
  intros Hr Hp t1 fig' ax' x' y' label' st' t2 E.
  destruct t1 as [|e1 [|e2 t1]]; inversion E; subst.
  - exists [], path, data. auto.
  - now destruct t1.
Qed.

Lemma cor_always {A} (m : io A) :
  always (fun e => is_plot e = false) m -> cor (trace m).
Proof. apply cor_quiet. Qed.

Lemma cor_bind {A B} (m : io A) (k : A -> io B) :
  cor (trace m) -> (forall a, outcome m = Ok a -> cor (trace (k a))) ->
  cor (trace (bind m k)).
Proof.
  intros Hm Hk. rewrite trace_bind. apply cor_app; [exact Hm|].
  destruct (outcome m); [now apply Hk|apply cor_quiet; constructor].
Qed.

Lemma cor_for_each {A} (xs : list A) (body : A -> io unit) :
  (forall x, In x xs -> cor (trace (body x))) ->
  cor (trace (for_each xs body)).
Proof.
  induction xs as [|x xs IH]; intros H; simpl.
  - apply cor_quiet. constructor.
  - apply cor_bind; [apply H; now left|].
    intros _ _. apply IH. intros y Hy. apply H. now right.
Qed.

End Sound.

Lemma cor_impl w (P Q : frame -> column -> column -> Prop) t :
  (forall data x y, P data x y -> Q data x y) ->
  curves_of_reads w P t -> curves_of_reads w Q t.
Proof.
  intros H Hp t1 fig ax x y label st t2 E.
  destruct (Hp _ _ _ _ _ _ _ _ E) as (t0 & path & data & E1 & Hr & Hd).
  exists t0, path, data. auto.
Qed.

Ltac quiet := solve [ apply cor_always; repeat first
  [ apply always_emit; reflexivity | always_step ] ].

(** *** plot_ca.py *)

Lemma ca_step_sound w dir f i :
  curves_of_reads w in_minutes (trace (Ca.step w dir f i)).
Proof.
  unfold Ca.step, pd_read_csv.
  destruct (Ca.plot_label f) as [label|]; [|quiet]. cbv zeta.
  destruct (read_csv w (OsPath.join dir f) tab) as [data|e] eqn:Er;
    [|solve [apply cor_quiet; simpl; repeat constructor]].
  simpl. destruct (Ca.curve data) as [[[x y]|]|e] eqn:Ec; simpl;
    try solve [apply cor_quiet; repeat constructor].
  apply cor_read_plot with (data := data); [exact Er|].
  apply ca_curve_inv in Ec. destruct Ec as (t & Ht & Hx & _).
  now exists t.
Qed.

Lemma ca_loop_sound w dir files : forall i,
  curves_of_reads w in_minutes (trace (Ca.loop w dir files i)).
Proof.
  induction files as [|f files IH]; intros i; cbn [Ca.loop]; [quiet|].
  apply cor_bind; [apply ca_step_sound|intros j _; apply IH].
Qed.

Lemma ca_sound w dir out :
  curves_of_reads w in_minutes (trace (Ca.generate_styled_plot w dir out)).
Proof.
  unfold Ca.generate_styled_plot.
  apply cor_bind; [quiet|intros _ _].
  destruct (listdir w dir) as [names|[]]; try quiet.
  apply cor_bind; [apply ca_loop_sound|intros _ _].
  unfold Ca.configure, Ca.save. quiet.
Qed.

Lemma ca_step_draws w dir f i label data t x y :
  Ca.plot_label f = Some label ->
  read_csv w (OsPath.join dir f) tab = Ok data ->
  getitem data Ca.time_col_s = Ok t ->
  minutes_from_first t = Some x ->
  getitem data Ca.charge_col = Ok y ->
  exists st, In (Plot 0 0 x y label st) (trace (Ca.step w dir f i)).
Proof.
  intros Hl Hr Ht Hx Hy. unfold Ca.step, pd_read_csv. rewrite Hl. cbv zeta.
  rewrite Hr. simpl. rewrite (ca_curve_minutes _ Ht Hx Hy). simpl.
  eexists. right. left. reflexivity.
Qed.

Lemma in_to_sorted x l : In x l -> In x (sorted l).
Proof. apply Permutation_in, sorted_perm. Qed.

Lemma ca_drawn w dir out names f label data t x y :
  listdir w dir = Ok names ->
  In f names -> Ca.is_txt f = true ->
  Ca.plot_label f = Some label ->
  read_csv w (OsPath.join dir f) tab = Ok data ->
  getitem data Ca.time_col_s = Ok t ->
  minutes_from_first t = Some x ->
  getitem data Ca.charge_col = Ok y ->
  exists st,
    In (Plot 0 0 x y label st) (trace (Ca.generate_styled_plot w dir out)).
Proof.
  intros Hn Hin Htxt Hl Hr Ht Hx Hy.
  assert (Hf : In f (sorted (filter Ca.is_txt names))).
  { apply in_to_sorted, filter_In. now split. }
  apply in_split in Hf. destruct Hf as (before & after & Hf).
  destruct (loop_split w dir before f after) as (i & j & k & _ & _ & E).
  destruct (ca_step_draws w dir f i Hl Hr Ht Hx Hy) as (st & Hst).
  destruct (run_shape w dir out Hn) as (m & Hm).
  exists st. rewrite Hm, Hf, E. cbn [trace fst].
  right. apply in_or_app. left. apply in_or_app. right.
  apply in_or_app. now left.
Qed.

(** *** plot_ca_j.py *)

Local Abbreviation both :=
  (fun data x y =>
     in_minutes data x y /\ as_density CaJ.ELECTRODE_AREA_CM2 data x y).

Lemma caj_system_sound w ax path i :
  curves_of_reads w both (trace (CaJ.plot_system w ax path i)).
Proof.
  unfold CaJ.plot_system, pd_read_csv. cbv zeta.
  destruct (read_csv w path tab) as [data|e] eqn:Er;
    [|solve [apply cor_quiet; simpl; repeat constructor]].
  simpl. destruct (CaJ.curve data) as [[[x y]|]|e] eqn:Ec; simpl;
    try solve [apply cor_quiet; repeat constructor].
  apply cor_read_plot with (data := data); [exact Er|].
  now apply caj_curve_inv.
Qed.

Lemma caj_systems_sound w ax paths : forall i,
  curves_of_reads w both (trace (CaJ.plot_systems w ax paths i)).
Proof.
  induction paths as [|p paths IH]; intros i; cbn [CaJ.plot_systems];
    [quiet|].
  apply cor_bind; [apply caj_system_sound|intros j _; apply IH].
Qed.

Lemma caj_reference_sound w ax cu :
  curves_of_reads w both (trace (CaJ.plot_reference w ax cu)).
Proof.
  unfold CaJ.plot_reference, pd_read_csv. destruct cu as [path|]; [|quiet].
  destruct (read_csv w path tab) as [data|e] eqn:Er;
    [|solve [apply cor_quiet; simpl; repeat constructor]].
  simpl. destruct (CaJ.curve data) as [[[x y]|]|e] eqn:Ec; simpl;
    try solve [apply cor_quiet; repeat constructor].
  apply cor_read_plot with (data := data); [exact Er|].
  now apply caj_curve_inv.
Qed.

Lemma caj_panels_sound w a g cu keys : forall i,
  curves_of_reads w both (trace (CaJ.panels w a g cu i keys)).
Proof.
  induction keys as [|k keys IH]; intros i; cbn [CaJ.panels]; [quiet|].
  apply cor_bind; [unfold subscript; quiet|intros ax _].
  apply cor_bind; [apply caj_reference_sound|intros _ _].
  apply cor_bind; [apply caj_systems_sound|intros _ _].
  do 4 (apply cor_bind; [quiet|intros _ _]).
  apply IH.
Qed.

Lemma caj_sound w dir out :
  curves_of_reads w both (trace (CaJ.generate_ca_subplots w dir out)).
Proof.
  unfold CaJ.generate_ca_subplots.
  destruct (listdir w dir) as [names|[]]; try quiet. cbv zeta.
  destruct (CaJ.classify dir (sorted (filter Ca.is_txt names)) [] None)
    as [g cu].
  apply cor_bind; [unfold subplots; quiet|intros a _].
  apply cor_bind; [quiet|intros _ _].
  apply cor_bind; [apply caj_panels_sound|intros _ _].
  unfold subscript_last, Ca.save. quiet.
Qed.

Lemma caj_system_draws w ax path i data t x ic y :
  read_csv w path tab = Ok data ->
  getitem data CaJ.time_col_s = Ok t ->
  minutes_from_first t = Some x ->
  getitem data CaJ.current_col = Ok ic ->
  density_of CaJ.ELECTRODE_AREA_CM2 ic = Some y ->
  exists label st,
    In (Plot 0 ax x y label st) (trace (CaJ.plot_system w ax path i)).
Proof.
  intros Hr Ht Hx Hi Hy. unfold CaJ.plot_system, pd_read_csv. cbv zeta.
  rewrite Hr. simpl. rewrite (caj_curve_minutes _ Ht Hx Hi Hy). simpl.
  eexists. eexists. right. left. reflexivity.
Qed.

Lemma caj_reference_draws w ax path data t x ic y :
  read_csv w path tab = Ok data ->
  getitem data CaJ.time_col_s = Ok t ->
  minutes_from_first t = Some x ->
  getitem data CaJ.current_col = Ok ic ->
  density_of CaJ.ELECTRODE_AREA_CM2 ic = Some y ->
  In (Plot 0 ax x y (txt "Cu Reference")
        {| color := Some (txt "grey"); marker := None;
           linestyle := Some (txt "--") |})
     (trace (CaJ.plot_reference w ax (Some path))).
Proof.
  intros Hr Ht Hx Hi Hy. unfold CaJ.plot_reference, pd_read_csv.
  rewrite Hr. simpl. rewrite (caj_curve_minutes _ Ht Hx Hi Hy). simpl.
  right. left. reflexivity.
Qed.

Lemma systems_incl w ax p paths : forall i,
  In p paths ->
  exists j, incl (trace (CaJ.plot_system w ax p j))
                 (trace (CaJ.plot_systems w ax paths i)).
Proof.
  induction paths as [|q paths IH]; intros i []; cbn [CaJ.plot_systems].
  - subst q. exists i. rewrite trace_bind. apply incl_appl, incl_refl.
  - destruct (system_ok w ax q i) as (k & Hk).
    destruct (IH k H) as (j & Hj). exists j.
    rewrite trace_bind, Hk. now apply incl_appr.
Qed.

Lemma panels_incl w n g cu key keys : forall i,
  In key keys -> i + List.length keys <= n ->
  exists ax,
    incl (trace (CaJ.plot_reference w ax cu))
         (trace (CaJ.panels w (AxesArray n) g cu i keys))
    /\ incl (trace (CaJ.plot_systems w ax (CaJ.lookup g key) 0))
            (trace (CaJ.panels w (AxesArray n) g cu i keys)).
Proof.
  induction keys as [|k keys IH]; intros i [] Hn; cbn [CaJ.panels];
    simpl in Hn; unfold subscript;
    (destruct (Nat.ltb_spec i n); [|lia]);
    rewrite trace_bind; cbn [outcome ret snd trace fst app];
    rewrite trace_bind, reference_ok, trace_bind;
    destruct (systems_ok w i (CaJ.lookup g k) 0) as (j & ->).
  - subst k. exists i. split.
    + apply incl_appl, incl_refl.
    + apply incl_appr, incl_appl, incl_refl.
  - destruct (IH (S i) H ltac:(lia)) as (ax & H1 & H2). exists ax.
    repeat (rewrite trace_bind; cbn [outcome emit snd trace fst]).
    split; do 6 apply incl_appr; assumption.
Qed.

Lemma lookup_in_keys g key p :
  In p (CaJ.lookup g key) -> In key (map fst g).
Proof.
  induction g as [|[k vs] g IH]; simpl; [intros []|].
  destruct (text_eqb k key) eqn:E; [|auto].
  apply text_eqb_eq in E. auto.
Qed.

Lemma caj_panels_in_run w dir out names :
  listdir w dir = Ok names ->
  let g := fst (CaJ.classify dir (sorted (filter Ca.is_txt names)) [] None) in
  let cu := snd (CaJ.classify dir (sorted (filter Ca.is_txt names)) [] None) in
  2 <= List.length g ->
  incl (trace (CaJ.panels w (AxesArray (List.length (sorted (map fst g))))
                 g cu 0 (sorted (map fst g))))
       (trace (CaJ.generate_ca_subplots w dir out)).
Proof.
  intros Hl g cu H2. unfold CaJ.generate_ca_subplots. rewrite Hl. cbv zeta.
  subst g cu.
  destruct (CaJ.classify dir (sorted (filter Ca.is_txt names)) [] None)
    as [g cu]. cbn [fst snd] in *.
  rewrite <- (length_map fst g), <- sorted_length in H2.
  destruct (sorted (map fst g)) as [|k1 [|k2 keys]] eqn:Ek;
    [simpl in H2; lia|simpl in H2; lia|].
  unfold subplots. cbn [List.length].
  repeat first
    [ rewrite trace_bind | rewrite outcome_bind
    | progress cbn [outcome trace fst snd emit ret] ].
  apply incl_appr, incl_appr, incl_appl, incl_refl.
Qed.

Lemma caj_drawn w dir out names key path data t x ic y :
  listdir w dir = Ok names ->
  let g := fst (CaJ.classify dir (sorted (filter Ca.is_txt names)) [] None) in
  2 <= List.length g ->
  In path (CaJ.lookup g key) ->
  read_csv w path tab = Ok data ->
  getitem data CaJ.time_col_s = Ok t ->
  minutes_from_first t = Some x ->
  getitem data CaJ.current_col = Ok ic ->
  density_of CaJ.ELECTRODE_AREA_CM2 ic = Some y ->
  exists ax label st,
    In (Plot 0 ax x y label st) (trace (CaJ.generate_ca_subplots w dir out)).
Proof.
  intros Hl g H2 Hp Hr Ht Hx Hi Hy.
  assert (Hk : In key (sorted (map fst g))).
  { apply in_to_sorted. eapply lookup_in_keys. exact Hp. }
  destruct (@panels_incl w (List.length (sorted (map fst g))) g
              (snd (CaJ.classify dir (sorted (filter Ca.is_txt names))
                      [] None))
              key (sorted (map fst g)) 0 Hk (le_n _)) as (ax & _ & Hs).
  destruct (systems_incl w ax path (CaJ.lookup g key) 0 Hp) as (j & Hj).
  destruct (caj_system_draws w ax path j Hr Ht Hx Hi Hy)
    as (label & st & Hin).
  exists ax, label, st.
  apply (caj_panels_in_run w dir out Hl H2), Hs, Hj, Hin.
Qed.

Lemma caj_reference_drawn w dir out names path data t x ic y :
  listdir w dir = Ok names ->
  let g := fst (CaJ.classify dir (sorted (filter Ca.is_txt names)) [] None) in
  2 <= List.length g ->
  snd (CaJ.classify dir (sorted (filter Ca.is_txt names)) [] None)
  = Some path ->
  read_csv w path tab = Ok data ->
  getitem data CaJ.time_col_s = Ok t ->
  minutes_from_first t = Some x ->
  getitem data CaJ.current_col = Ok ic ->
  density_of CaJ.ELECTRODE_AREA_CM2 ic = Some y ->
  exists ax,
    In (Plot 0 ax x y (txt "Cu Reference")
          {| color := Some (txt "grey"); marker := None;
             linestyle := Some (txt "--") |})
       (trace (CaJ.generate_ca_subplots w dir out)).
Proof.
  intros Hl g H2 Hcu Hr Ht Hx Hi Hy.
  pose proof H2 as H2'.
  rewrite <- (length_map fst g), <- sorted_length in H2'.
  destruct (sorted (map fst g)) as [|key keys] eqn:Ek; [simpl in H2'; lia|].
  assert (Hk : In key (sorted (map fst g))) by (rewrite Ek; now left).
  destruct (@panels_incl w (List.length (sorted (map fst g))) g
              (snd (CaJ.classify dir (sorted (filter Ca.is_txt names))
                      [] None))
              key (sorted (map fst g)) 0 Hk (le_n _)) as (ax & Href & _).
  exists ax. apply (caj_panels_in_run w dir out Hl H2), Href.
  rewrite Hcu. now apply caj_reference_draws with (data := data) (t := t)
                                                   (ic := ic).
Qed.

(** *** plot_lsv.py *)

Lemma lsv_curve_sound w ax path label st :
  curves_of_reads w (as_density Lsv.ELECTRODE_AREA_CM2)
    (trace (Lsv.plot_curve w ax path label st)).
Proof.
  unfold Lsv.plot_curve, pd_read_csv.
  destruct (read_csv w path tab) as [df|e] eqn:Er;
    [|solve [apply cor_quiet; simpl; repeat constructor]].
  simpl. destruct (getitem df Lsv.current_col) as [ic|e] eqn:Ei; simpl;
    [|solve [apply cor_quiet; repeat constructor]].
  rewrite mul_div_density.
  destruct (density_of Lsv.ELECTRODE_AREA_CM2 ic) as [y|] eqn:Ey; simpl;
    [|solve [apply cor_quiet; repeat constructor]].
  destruct (getitem df Lsv.potential_col) as [v|e] eqn:Ev; simpl;
    [|solve [apply cor_quiet; repeat constructor]].
  apply cor_read_plot with (data := df); [exact Er|].
  now exists ic.
Qed.

Lemma lsv_sound w :
  curves_of_reads w (as_density Lsv.ELECTRODE_AREA_CM2)
    (trace (Lsv.plot_lsv_data w)).
Proof.
  unfold Lsv.plot_lsv_data.
  apply cor_bind; [quiet|intros _ _].
  apply cor_bind.
  - apply cor_for_each. intros [ax chem] _. unfold Lsv.panel. cbv zeta.
    cbn [fst snd].
    apply cor_bind.
    + destruct (path_exists w Lsv.cu_ref_path);
        [apply lsv_curve_sound|quiet].
    + intros _ _. apply cor_bind; [|intros _ _; quiet].
      apply cor_for_each. intros p _. apply lsv_curve_sound.
  - intros _ _. quiet.
Qed.

Lemma draws_ok w m l :
  draws w m l -> (forall p, In p l -> drawable w p) -> outcome m = Ok tt.
Proof.
  intros [_ [(H & _)|(_ & b & p & a & -> & _ & _ & Np)]] Hd; [exact H|].
  destruct Np. apply Hd, in_or_app. right. now left.
Qed.

Lemma lsv_curve_draws w ax path label st df ic y v :
  read_csv w path tab = Ok df ->
  getitem df Lsv.current_col = Ok ic ->
  density_of Lsv.ELECTRODE_AREA_CM2 ic = Some y ->
  getitem df Lsv.potential_col = Ok v ->
  In (Plot 0 ax v y label st) (trace (Lsv.plot_curve w ax path label st)).
Proof.
  intros Hr Hi Hy Hv. unfold Lsv.plot_curve, pd_read_csv. rewrite Hr.
  simpl. rewrite Hi. simpl. rewrite mul_div_density, Hy. simpl.
  rewrite Hv. simpl. right. now left.
Qed.

Lemma for_each_incl {A} (xs : list A) (body : A -> io unit) x :
  (forall z, In z xs -> outcome (body z) = Ok tt) ->
  In x xs -> incl (trace (body x)) (trace (for_each xs body)).
Proof.
  induction xs as [|z xs IH]; intros Hok []; simpl; rewrite trace_bind.
  - subst z. apply incl_appl, incl_refl.
  - rewrite (Hok z (or_introl eq_refl)). apply incl_appr, IH; [|assumption].
    intros z' Hz'. apply Hok. now right.
Qed.

Lemma lsv_panel_draws w ax chem p df ic y v :
  (forall q, In q (panel_files w chem) -> drawable w q) ->
  In p (panel_files w chem) ->
  read_csv w p tab = Ok df ->
  getitem df Lsv.current_col = Ok ic ->
  density_of Lsv.ELECTRODE_AREA_CM2 ic = Some y ->
  getitem df Lsv.potential_col = Ok v ->
  exists label st, In (Plot 0 ax v y label st) (trace (Lsv.panel w ax chem)).
Proof.
  intros Hd Hin Hr Hi Hy Hv. unfold panel_files in *. unfold Lsv.panel.
  cbv zeta. rewrite trace_bind.
  apply in_app_or in Hin. destruct Hin as [Hin|Hin].
  - destruct (path_exists w Lsv.cu_ref_path); [|destruct Hin].
    destruct Hin as [<-|[]]. eexists. eexists.
    apply in_or_app. left.
    now apply lsv_curve_draws with (df := df) (ic := ic).
  - assert (Ho : outcome (if path_exists w Lsv.cu_ref_path
                          then Lsv.plot_curve w ax Lsv.cu_ref_path
                                 (txt "Reference Cu")
                                 {| color := Some (txt "gray");
                                    marker := None;
                                    linestyle := Some (txt "--") |}
                          else ret tt) = Ok tt).
    { destruct (path_exists w Lsv.cu_ref_path) eqn:E; [|reflexivity].
      apply (draws_ok (draws_curve w ax Lsv.cu_ref_path _ _)).
      intros q [<-|[]]. apply Hd. now left. }
    rewrite Ho, trace_bind. eexists. eexists.
    apply in_or_app. right. apply in_or_app. left.
    eapply for_each_incl; [|exact Hin|].
    + intros z Hz. apply (draws_ok (draws_curve w ax z _ _)).
      intros q [<-|[]]. apply Hd, in_or_app. now right.
    + cbv beta. now apply lsv_curve_draws with (df := df) (ic := ic).
Qed.

Lemma lsv_drawn w p df ic y v :
  (forall q, In q (all_files w) -> drawable w q) ->
  In p (all_files w) ->
  read_csv w p tab = Ok df ->
  getitem df Lsv.current_col = Ok ic ->
  density_of Lsv.ELECTRODE_AREA_CM2 ic = Some y ->
  getitem df Lsv.potential_col = Ok v ->
  exists ax label st,
    In (Plot 0 ax v y label st) (trace (Lsv.plot_lsv_data w)).
Proof.
  intros Hd Hin Hr Hi Hy Hv. unfold all_files in *.
  apply in_flat_map in Hin. destruct Hin as (chem & Hc & Hp).
  assert (Hall : forall c q, In c Lsv.chemicals ->
                             In q (panel_files w c) -> drawable w q).
  { intros c q H1 H2. apply Hd, in_flat_map. eauto. }
  assert (Hax : exists ax, In (ax, chem) (combine [0; 1; 2] Lsv.chemicals)).
  { revert Hc. unfold Lsv.chemicals. simpl.
    intros [<-|[<-|[<-|[]]]]; [exists 0|exists 1|exists 2]; simpl; auto. }
  destruct Hax as (ax & Hax).
  destruct (@lsv_panel_draws w ax chem p df ic y v (fun q => Hall chem q Hc)
              Hp Hr Hi Hy Hv) as (label & st & Hplot).
  exists ax, label, st. unfold Lsv.plot_lsv_data.
  rewrite trace_bind. cbn [outcome emit snd]. rewrite trace_bind.
  apply in_or_app. right. apply in_or_app. left.
  apply (@for_each_incl _ (combine [0; 1; 2] Lsv.chemicals)
           (fun ac => Lsv.panel w (fst ac) (snd ac)) (ax, chem));
    [|exact Hax|exact Hplot].
  intros [a c] Hz. cbn [fst snd].
  apply in_combine_r in Hz.
  apply (draws_ok (draws_panel w a c)). intros q. now apply Hall.
Qed.

(** *** The numbers *)

Lemma fsub_self x :
  match x with S754_zero _ | S754_finite _ _ _ => True | _ => False end ->
  fsub x x = S754_zero false.
Proof.
  destruct x as [[]|s| |s m e]; try contradiction; intros _;
    try reflexivity.
  unfold fsub, SFsub. cbv zeta. now rewrite Z.sub_diag.
Qed.

Lemma minutes_shape t x :
  minutes_from_first t = Some x ->
  exists v,
    x = FloatCol v /\ List.length v = rows t /\
    (starts_finite t = true -> hd S754_nan v = S754_zero false).
Proof.
  destruct t as [[|t0 ts]|[|t0 ts]|v]; try discriminate;
    intros H; inversion H; subst; eexists; (split; [reflexivity|]);
    (split; [cbn [rows List.length]; now rewrite length_map|]).
  - intros _. cbn [map hd]. now rewrite Z.sub_diag.
  - intros Hf. cbn [map hd]. rewrite fsub_self; [reflexivity|].
    destruct t0; try discriminate; exact I.
Qed.







End Curves.
